(** * A Flask application serving one page and two JSON data files

    Verification model of [app.py]: three view functions ([home], [points],
    [polygons]) registered on a Flask application.  The view functions are
    embedded as programs over the system calls they make on the file
    system; the parts of the Python runtime and of Flask they go through
    ([open], the [with] statement, [json.load], [render_template], the
    conversion of a view's return value into a response) are modelled next
    to them, each after the library code it stands for.

    Not modelled: resource limits of the interpreter (recursion depth, the
    digit limit of [int], memory), the framework's own caches, and the
    encoding of a response body onto the wire. *)

From Stdlib Require Import ZArith NArith Lia DecimalN Ascii String SpecFloat.
From stdpp Require Import base option list gmap strings sorting.

Local Open Scope N_scope.
Set Warnings "-register-all".

(** ** Python values *)

(** A Python [str] is a sequence of Unicode code points. *)
Abbreviation pystr := (list N).

Definition ord (a : ascii) : N := N_of_ascii a.

(** The [str] spelled by an ASCII string literal. *)
Fixpoint py (s : string) : pystr :=
  match s with
  | EmptyString => []
  | String a r => ord a :: py r
  end.

(** The exceptions the program can meet. *)
Inductive exn : Type :=
| FileNotFoundError
| PermissionError
| ValueError
| UnicodeDecodeError
| JSONDecodeError
| TemplateNotFound
| TemplateError
| TypeError.

#[global] Instance exn_eq_dec : EqDecision exn.
Proof. solve_decision. Defined.

(** How a Python call ends: it returns a value or it raises. *)
Inductive outcome (A : Type) : Type :=
| Returned (a : A)
| Raised (e : exn).
Arguments Returned {A} a.
Arguments Raised {A} e.

(** What the model takes from its environment.  [json] turns the text of a
    number with a fraction or an exponent into a [float] with [float(s)]
    (the decoder's [parse_float]) and prints one with [float.__repr__];
    Jinja renders the source of a template; [debug] is the application's
    debug flag ([app.run(debug=True)] sets it when the file is run as a
    script, another server leaves it off). *)
Class Runtime : Type := {
  float : Type;
  parse_float : pystr -> float;
  float_repr : float -> pystr;
  jinja_render : pystr -> outcome pystr;
  debug : bool
}.

Section Model.
Context {RT : Runtime}.

(** The values [json.load] builds.  A [dict] keeps its items in insertion
    order. *)
Inductive pyval : Type :=
| PNone
| PBool (b : bool)
| PInt (z : Z)
| PFloat (f : float)
| PStr (s : pystr)
| PList (l : list pyval)
| PDict (d : list (pystr * pyval)).

(** [d[k] = v]: an existing key keeps its place and takes the new value, a
    new key goes last. *)
Fixpoint dict_set (d : list (pystr * pyval)) (k : pystr) (v : pyval)
  : list (pystr * pyval) :=
  match d with
  | [] => [(k, v)]
  | (k', v') :: r =>
      if decide (k' = k) then (k, v) :: r else (k', v') :: dict_set r k v
  end.

(** [dict(pairs)] *)
Definition dict_of_pairs (pairs : list (pystr * pyval)) : list (pystr * pyval) :=
  foldl (fun d kv => dict_set d kv.1 kv.2) [] pairs.

(** ** [json.decoder] and [json.scanner] *)

(** Result of a scanning function: a value and the rest of the text, a
    decoding error, or the recursion budget of the model used up. *)
Inductive scan (A : Type) : Type :=
| Scanned (a : A) (rest : pystr)
| Malformed
| Exhausted.
#[global] Arguments Scanned {A} a rest.
#[global] Arguments Malformed {A}.
#[global] Arguments Exhausted {A}.

Definition scan_map {A B} (f : A -> B) (r : scan A) : scan B :=
  match r with
  | Scanned a rest => Scanned (f a) rest
  | Malformed => Malformed
  | Exhausted => Exhausted
  end.

(** [WHITESPACE = re.compile(r'[ \t\n\r]*')] *)
Definition is_ws (c : N) : bool :=
  (c =? 32) || (c =? 9) || (c =? 10) || (c =? 13).

Fixpoint skip_ws (s : pystr) : pystr :=
  match s with
  | c :: r => if is_ws c then skip_ws r else s
  | [] => []
  end.

Definition is_digit (c : N) : bool := (48 <=? c) && (c <=? 57).

(** Value of a hexadecimal digit, [0-9A-Fa-f]. *)
Definition hex_val (c : N) : option N :=
  if (48 <=? c) && (c <=? 57) then Some (c - 48)
  else if (65 <=? c) && (c <=? 70) then Some (c - 55)
  else if (97 <=? c) && (c <=? 102) then Some (c - 87)
  else None.

(** [_decode_uXXXX]: four hexadecimal digits. *)
Definition decode_uXXXX (a b c d : N) : option N :=
  match hex_val a, hex_val b, hex_val c, hex_val d with
  | Some x, Some y, Some z, Some w => Some (((x * 16 + y) * 16 + z) * 16 + w)
  | _, _, _, _ => None
  end.

(** [BACKSLASH]: the one-letter escapes. *)
Definition backslash (c : N) : option N :=
  if c =? 34 then Some 34          (* quote *)
  else if c =? 92 then Some 92     (* backslash *)
  else if c =? 47 then Some 47     (* slash *)
  else if c =? 98 then Some 8      (* b: backspace *)
  else if c =? 102 then Some 12    (* f: form feed *)
  else if c =? 110 then Some 10    (* n: line feed *)
  else if c =? 114 then Some 13    (* r: carriage return *)
  else if c =? 116 then Some 9     (* t: tab *)
  else None.

Definition is_high_surrogate (u : N) : bool := (0xd800 <=? u) && (u <=? 0xdbff).
Definition is_low_surrogate (u : N) : bool := (0xdc00 <=? u) && (u <=? 0xdfff).

(** [0x10000 + (((uni - 0xd800) << 10) | (uni2 - 0xdc00))] *)
Definition join_surrogates (uni uni2 : N) : N :=
  0x10000 + N.lor (N.shiftl (uni - 0xd800) 10) (uni2 - 0xdc00).

(** [s[end:end + 2] == '\\u'] *)
Definition starts_backslash_u (s : pystr) : bool :=
  match s with
  | b :: u :: _ => (b =? 92) && (u =? 117)
  | _ => false
  end.

(** [py_scanstring] with [strict=True], entered after the opening quote:
    the decoded string and the text after the closing quote. *)
Fixpoint scanstring (s : pystr) : scan pystr :=
  match s with
  | [] => Malformed                               (* unterminated string *)
  | c :: r =>
      if c =? 34 then Scanned [] r
      else if c =? 92 then
        match r with
        | [] => Malformed
        | esc :: r1 =>
            if esc =? 117 then
              match r1 with
              | h1 :: h2 :: h3 :: h4 :: r2 =>
                  match decode_uXXXX h1 h2 h3 h4 with
                  | None => Malformed
                  | Some uni =>
                      if is_high_surrogate uni && starts_backslash_u r2 then
                        match r2 with
                        | _ :: _ :: l1 :: l2 :: l3 :: l4 :: r3 =>
                            match decode_uXXXX l1 l2 l3 l4 with
                            | None => Malformed
                            | Some uni2 =>
                                if is_low_surrogate uni2
                                then scan_map (cons (join_surrogates uni uni2)) (scanstring r3)
                                else scan_map (cons uni) (scanstring r2)
                            end
                        | _ => Malformed
                        end
                      else scan_map (cons uni) (scanstring r2)
                  end
              | _ => Malformed
              end
            else
              match backslash esc with
              | Some ch => scan_map (cons ch) (scanstring r1)
              | None => Malformed
              end
        end
      else if c <? 32 then Malformed              (* control character *)
      else scan_map (cons c) (scanstring r)
  end.

(** The longest run of decimal digits at the head of the text. *)
Fixpoint span_digits (s : pystr) : pystr * pystr :=
  match s with
  | c :: r =>
      if is_digit c then let '(ds, rest) := span_digits r in (c :: ds, rest)
      else ([], s)
  | [] => ([], [])
  end.

(** [NUMBER_RE]: an optional minus sign and either a single zero or a
    nonzero digit followed by digits (group [integer]); optionally a dot
    and one or more digits (group [frac]); optionally [e] or [E], an
    optional sign and one or more digits (group [exp]).  A group that does
    not match in full is empty and consumes nothing. *)
Definition match_integer (s : pystr) : option (pystr * pystr) :=
  let '(sign, s1) :=
    match s with
    | c :: r => if c =? 45 then ([45], r) else ([], s)
    | [] => ([], s)
    end in
  match s1 with
  | c :: r =>
      if c =? 48 then Some (sign ++ [48], r)
      else if is_digit c then
        let '(ds, rest) := span_digits r in Some (sign ++ c :: ds, rest)
      else None
  | [] => None
  end.

Definition match_frac (s : pystr) : pystr * pystr :=
  match s with
  | c :: r =>
      if c =? 46 then
        match span_digits r with
        | ([], _) => ([], s)
        | (ds, rest) => (46 :: ds, rest)
        end
      else ([], s)
  | [] => ([], s)
  end.

Definition match_exp (s : pystr) : pystr * pystr :=
  match s with
  | c :: r =>
      if (c =? 101) || (c =? 69) then
        let '(sign, r1) :=
          match r with
          | g :: r' => if (g =? 45) || (g =? 43) then ([g], r') else ([], r)
          | [] => ([], r)
          end in
        match span_digits r1 with
        | ([], _) => ([], s)
        | (ds, rest) => (c :: sign ++ ds, rest)
        end
      else ([], s)
  | [] => ([], s)
  end.

Definition match_number (s : pystr) : option (pystr * pystr * pystr * pystr) :=
  match match_integer s with
  | None => None
  | Some (integer, s1) =>
      let '(frac, s2) := match_frac s1 in
      let '(exp, s3) := match_exp s2 in
      Some (integer, frac, exp, s3)
  end.

(** Digits to [Decimal.uint] and back. *)
Fixpoint uint_of_digits (ds : pystr) : Decimal.uint :=
  match ds with
  | [] => Decimal.Nil
  | c :: r =>
      let u := uint_of_digits r in
      match N.to_nat (c - 48) with
      | 0%nat => Decimal.D0 u | 1%nat => Decimal.D1 u | 2%nat => Decimal.D2 u
      | 3%nat => Decimal.D3 u | 4%nat => Decimal.D4 u | 5%nat => Decimal.D5 u
      | 6%nat => Decimal.D6 u | 7%nat => Decimal.D7 u | 8%nat => Decimal.D8 u
      | _ => Decimal.D9 u
      end
  end.

Fixpoint digits_of_uint (u : Decimal.uint) : pystr :=
  match u with
  | Decimal.Nil => []
  | Decimal.D0 r => 48 :: digits_of_uint r
  | Decimal.D1 r => 49 :: digits_of_uint r
  | Decimal.D2 r => 50 :: digits_of_uint r
  | Decimal.D3 r => 51 :: digits_of_uint r
  | Decimal.D4 r => 52 :: digits_of_uint r
  | Decimal.D5 r => 53 :: digits_of_uint r
  | Decimal.D6 r => 54 :: digits_of_uint r
  | Decimal.D7 r => 55 :: digits_of_uint r
  | Decimal.D8 r => 56 :: digits_of_uint r
  | Decimal.D9 r => 57 :: digits_of_uint r
  end.

(** [int(s)] on the [integer] group of a number.  CPython (3.11 and
    later) raises [ValueError] when [s] has more than
    [sys.int_max_str_digits] digits, 4300 unless set otherwise; this
    function returns for every [s], and a statement on the value of an
    integer assumes it within that limit. *)
Definition parse_int (s : pystr) : Z :=
  match s with
  | c :: ds =>
      if c =? 45 then Z.opp (Z.of_N (N.of_uint (uint_of_digits ds)))
      else Z.of_N (N.of_uint (uint_of_digits s))
  | [] => 0%Z
  end.

(** [s[idx:idx + len(w)] == w]: the text after [w] when the text starts
    with it. *)
Fixpoint strip_prefix (w s : pystr) : option pystr :=
  match w, s with
  | [], _ => Some s
  | a :: w', b :: s' => if a =? b then strip_prefix w' s' else None
  | _ :: _, [] => None
  end.

(** [py_make_scanner._scan_once], [JSONArray] and [JSONObject].  The three
    call each other; [fuel] bounds the depth of the calls.  [array_items]
    is the [while True] loop of [JSONArray], entered at a value;
    [object_items] the loop of [JSONObject], entered after the opening
    quote of a key. *)
Fixpoint scan_once (fuel : nat) (s : pystr) : scan pyval :=
  match fuel with
  | O => Exhausted
  | S n =>
      match s with
      | [] => Malformed
      | nextchar :: r =>
          if nextchar =? 34 then scan_map PStr (scanstring r)
          else if nextchar =? 123 then
            match skip_ws r with
            | c :: r1 =>
                if c =? 125 then Scanned (PDict []) r1
                else if c =? 34 then
                  scan_map (fun pairs => PDict (dict_of_pairs pairs)) (object_items n r1)
                else Malformed
            | [] => Malformed
            end
          else if nextchar =? 91 then
            match skip_ws r with
            | c :: r1 =>
                if c =? 93 then Scanned (PList []) r1
                else scan_map PList (array_items n (c :: r1))
            | [] => Malformed
            end
          else
            match strip_prefix (py "null") s, strip_prefix (py "true") s,
                  strip_prefix (py "false") s with
            | Some rest, _, _ => Scanned PNone rest
            | _, Some rest, _ => Scanned (PBool true) rest
            | _, _, Some rest => Scanned (PBool false) rest
            | None, None, None =>
                match match_number s with
                | Some (integer, frac, exp, rest) =>
                    match frac, exp with
                    | [], [] => Scanned (PInt (parse_int integer)) rest
                    | _, _ => Scanned (PFloat (parse_float (integer ++ frac ++ exp))) rest
                    end
                | None =>
                    match strip_prefix (py "NaN") s, strip_prefix (py "Infinity") s,
                          strip_prefix (py "-Infinity") s with
                    | Some rest, _, _ => Scanned (PFloat (parse_float (py "nan"))) rest
                    | _, Some rest, _ => Scanned (PFloat (parse_float (py "inf"))) rest
                    | _, _, Some rest => Scanned (PFloat (parse_float (py "-inf"))) rest
                    | None, None, None => Malformed
                    end
                end
            end
      end
  end
with array_items (fuel : nat) (s : pystr) : scan (list pyval) :=
  match fuel with
  | O => Exhausted
  | S n =>
      match scan_once n s with
      | Scanned value s1 =>
          match skip_ws s1 with
          | c :: r =>
              if c =? 93 then Scanned [value] r
              else if c =? 44 then scan_map (cons value) (array_items n (skip_ws r))
              else Malformed
          | [] => Malformed
          end
      | Malformed => Malformed
      | Exhausted => Exhausted
      end
  end
with object_items (fuel : nat) (s : pystr) : scan (list (pystr * pyval)) :=
  match fuel with
  | O => Exhausted
  | S n =>
      match scanstring s with
      | Scanned key s1 =>
          match skip_ws s1 with
          | colon :: s2 =>
              if colon =? 58 then
                match scan_once n (skip_ws s2) with
                | Scanned value s3 =>
                    match skip_ws s3 with
                    | c :: r =>
                        if c =? 125 then Scanned [(key, value)] r
                        else if c =? 44 then
                          match skip_ws r with
                          | q :: r' =>
                              if q =? 34
                              then scan_map (cons (key, value)) (object_items n r')
                              else Malformed
                          | [] => Malformed
                          end
                        else Malformed
                    | [] => Malformed
                    end
                | Malformed => Malformed
                | Exhausted => Exhausted
                end
              else Malformed
          | [] => Malformed
          end
      | Malformed => Malformed
      | Exhausted => Exhausted
      end
  end.

(** [s.startswith('\ufeff')] *)
Definition starts_with_bom (s : pystr) : bool :=
  match s with
  | c :: _ => c =? 0xfeff
  | [] => false
  end.

(** [json.loads(s)]: [JSONDecoder.decode], after the check for a byte-order
    mark.  The budget [2 * len(s) + 1] is never used up ([json_loads_budget]
    below). *)
Definition json_loads (s : pystr) : outcome pyval :=
  if starts_with_bom s then Raised JSONDecodeError
  else
    match scan_once (2 * length s + 1) (skip_ws s) with
    | Scanned obj rest =>
        match skip_ws rest with
        | [] => Returned obj
        | _ :: _ => Raised JSONDecodeError          (* extra data *)
        end
    | Malformed => Raised JSONDecodeError
    | Exhausted => Raised JSONDecodeError
    end.

(** ** [json.encoder], as Flask's JSON provider calls it

    [DefaultJSONProvider.dumps] is [json.dumps] with [ensure_ascii=True] and
    [sort_keys=True]; [DefaultJSONProvider.response] adds [indent=2] when
    the application is in debug mode and [separators=(",", ":")] when it
    is not. *)

Definition hex_digit (n : N) : N := if n <? 10 then 48 + n else 87 + n.

(** ['\\u{0:04x}'.format(n)] for [n < 0x10000] *)
Definition escape_u (n : N) : pystr :=
  [92; 117; hex_digit (n / 4096); hex_digit (n / 256 mod 16);
   hex_digit (n / 16 mod 16); hex_digit (n mod 16)].

(** The [replace] function of [py_encode_basestring_ascii], on the code
    points [ESCAPE_ASCII] matches; the others stand for themselves. *)
Definition escape_char (c : N) : pystr :=
  if c =? 92 then [92; 92]
  else if c =? 34 then [92; 34]
  else if c =? 8 then [92; 98]
  else if c =? 12 then [92; 102]
  else if c =? 10 then [92; 110]
  else if c =? 13 then [92; 114]
  else if c =? 9 then [92; 116]
  else if (32 <=? c) && (c <=? 126) then [c]
  else if c <? 0x10000 then escape_u c
  else
    let n := c - 0x10000 in
    escape_u (N.lor 0xd800 (N.land (N.shiftr n 10) 0x3ff))
    ++ escape_u (N.lor 0xdc00 (N.land n 0x3ff)).

Definition encode_basestring_ascii (s : pystr) : pystr :=
  [34] ++ concat (map escape_char s) ++ [34].

(** [int.__repr__] *)
Definition int_repr (z : Z) : pystr :=
  match z with
  | Z0 => [48]
  | Zpos p => digits_of_uint (N.to_uint (Npos p))
  | Zneg p => 45 :: digits_of_uint (N.to_uint (Npos p))
  end.

(** [floatstr]: [float.__repr__], except that the three values whose
    [repr] is [nan], [inf] and [-inf] are written as the constants the
    decoder reads. *)
Definition floatstr (f : float) : pystr :=
  let r := float_repr f in
  if decide (r = py "nan") then py "NaN"
  else if decide (r = py "inf") then py "Infinity"
  else if decide (r = py "-inf") then py "-Infinity"
  else r.

(** Code point order on [str], as [sorted] compares dictionary keys. *)
Fixpoint str_le (a b : pystr) : bool :=
  match a, b with
  | [], _ => true
  | _ :: _, [] => false
  | x :: a', y :: b' => if x <? y then true else if y <? x then false else str_le a' b'
  end.

Section Sorted.
Context {A : Type}.

Fixpoint insert_item (kv : pystr * A) (l : list (pystr * A)) : list (pystr * A) :=
  match l with
  | [] => [kv]
  | kv' :: r => if str_le kv.1 kv'.1 then kv :: l else kv' :: insert_item kv r
  end.

(** [sorted(dct.items())], for a dictionary: the keys differ, so the
    order of the items is the order of their keys. *)
Definition sorted_items (l : list (pystr * A)) : list (pystr * A) :=
  foldr insert_item [] l.
End Sorted.

(** The line break and indentation before an item at nesting [level], when
    indenting. *)
Definition newline_indent (indent : bool) (level : nat) : pystr :=
  if indent then 10 :: repeat 32 (2 * level) else [].

Definition key_separator (indent : bool) : pystr :=
  if indent then [58; 32] else [58].

(** The items of a container after their encoding, joined by the item
    separator and the indentation. *)
Definition join_items (indent : bool) (level : nat) (items : list pystr) : pystr :=
  match items with
  | [] => []
  | x :: r =>
      newline_indent indent (S level) ++ x
      ++ concat (map (fun y => 44 :: newline_indent indent (S level) ++ y) r)
      ++ newline_indent indent level
  end.

(** [_make_iterencode._iterencode], the chunks joined. *)
Fixpoint iterencode (indent : bool) (level : nat) (o : pyval) : pystr :=
  match o with
  | PStr s => encode_basestring_ascii s
  | PNone => py "null"
  | PBool true => py "true"
  | PBool false => py "false"
  | PInt z => int_repr z
  | PFloat f => floatstr f
  | PList l =>
      [91] ++ join_items indent level (map (iterencode indent (S level)) l) ++ [93]
  | PDict d =>
      [123]
      ++ join_items indent level
           (map (fun kv => encode_basestring_ascii kv.1 ++ key_separator indent ++ kv.2)
              (sorted_items (map (fun kv => (kv.1, iterencode indent (S level) kv.2)) d)))
      ++ [125]
  end.

(** [app.json.dumps(obj, **dump_args)] as [app.json.response] calls it. *)
Definition dumps (o : pyval) : pystr := iterencode debug 0 o.

(** ** The file system and the programs that use it *)

(** What a path of the file system leads to: a file with text that
    decodes, a file whose bytes do not decode in the encoding of [open],
    or an entry that cannot be opened for reading. *)
Inductive file : Type :=
| Text (contents : pystr)
| Undecodable
| Unreadable.

#[global] Instance file_eq_dec : EqDecision file.
Proof. solve_decision. Defined.

(** The state outside a request: the files by path, and the open file
    descriptors with the file each one reads. *)
Record world : Type := World {
  disk : gmap string file;
  descriptors : gmap nat file
}.

(** The system calls of the view functions. *)
Inductive sys : Type -> Type :=
| SysOpen (path : string) : sys (outcome nat)
| SysRead (fd : nat) : sys (outcome pystr)
| SysClose (fd : nat) : sys unit.

(** A program: a result, or a system call and what follows its answer. *)
Inductive prog (A : Type) : Type :=
| Ret (a : A)
| Do {X : Type} (c : sys X) (k : X -> prog A).
#[global] Arguments Ret {A} a.
#[global] Arguments Do {A X} c k.

Fixpoint bind {A B} (p : prog A) (f : A -> prog B) : prog B :=
  match p with
  | Ret a => f a
  | Do c k => Do c (fun x => bind (k x) f)
  end.

(** Sequencing of calls that may raise: the first exception ends the
    sequence. *)
Definition try_bind {A B} (p : prog (outcome A)) (f : A -> prog (outcome B))
  : prog (outcome B) :=
  bind p (fun r => match r with Returned a => f a | Raised e => Ret (Raised e) end).

(** One system call on a world: its answer and the world after it. *)
Definition exec {X} (c : sys X) (w : world) : X * world :=
  match c in sys X return X * world with
  | SysOpen path =>
      match disk w !! path with
      | None => (Raised FileNotFoundError, w)
      | Some Unreadable => (Raised PermissionError, w)
      | Some f =>
          let fd := fresh (dom (descriptors w)) in
          (Returned fd, World (disk w) (<[fd := f]> (descriptors w)))
      end
  | SysRead fd =>
      match descriptors w !! fd with
      | Some (Text contents) => (Returned contents, w)
      | Some _ => (Raised UnicodeDecodeError, w)
      | None => (Raised ValueError, w)                 (* closed file *)
      end
  | SysClose fd => (tt, World (disk w) (delete fd (descriptors w)))
  end.

(** A program run to its end. *)
Fixpoint run {A} (p : prog A) (w : world) : A * world :=
  match p with
  | Ret a => (a, w)
  | Do c k => let '(x, w') := exec c w in run (k x) w'
  end.

(** [with open(path, 'r') as f: body]: the file object's [__exit__] closes
    the descriptor when the body returns and when it raises, and the
    outcome of the body is the outcome of the statement. *)
Definition with_open {A} (path : string) (body : nat -> prog (outcome A))
  : prog (outcome A) :=
  try_bind (Do (SysOpen path) Ret)
    (fun f => bind (body f) (fun r => Do (SysClose f) (fun _ => Ret r))).

(** [json.load(fp)] is [json.loads(fp.read())]. *)
Definition json_load (fp : nat) : prog (outcome pyval) :=
  try_bind (Do (SysRead fp) Ret) (fun text => Ret (json_loads text)).

(** [render_template(name)] with no variables: the loader reads the
    source of the template from the application's [templates] folder,
    Jinja renders it.

    Modelled from the spec: [templates/index.html] is not among the
    sources; the specification has it a static template, so what Jinja
    makes of it is taken to be a function of its source alone
    ([jinja_render]): the [request] and [session] objects Flask adds to
    the context of a template are not read.  Jinja keeps a template it
    has compiled and reads the file again when it has changed; here the
    source is read at each call, which gives the same page. *)
Definition render_template (name : string) : prog (outcome pyval) :=
  bind (with_open ("templates/" +:+ name) (fun f => Do (SysRead f) Ret))
    (fun r =>
       match r with
       | Returned source =>
           match jinja_render source with
           | Returned html => Ret (Returned (PStr html))
           | Raised e => Ret (Raised e)
           end
       | Raised FileNotFoundError => Ret (Raised TemplateNotFound)
       | Raised e => Ret (Raised e)
       end).

(** ** Flask: from a request to a response *)

Inductive http_method : Type := GET | HEAD | OPTIONS | POST | PUT | DELETE.

Record request : Type := Request {
  method : http_method;
  path : string;
  query_string : string;
  headers : list (string * string);
  data : pystr
}.

(** A response the application built from the return value of a view, or
    the page the framework answers with on its own: for an exception no
    handler took ([cause]), for an unknown path, for a method a rule does
    not allow. *)
Inductive response : Type :=
| Response (status : nat) (mimetype : string) (body : pystr)
| DefaultErrorPage (status : nat) (cause : option exn).


(** [Flask.make_response] on what a view returned (Flask 2.2 and later):
    a [str] becomes the body of an HTML response, a [dict] or a [list]
    goes through [app.json.response], which writes [dumps] of it and a
    line feed; anything else [json.load] can return is a [TypeError]. *)
Definition make_response (rv : pyval) : outcome response :=
  match rv with
  | PStr s => Returned (Response 200 "text/html" s)
  | PDict _ | PList _ => Returned (Response 200 "application/json" (dumps rv ++ [10]))
  | PNone | PBool _ | PInt _ | PFloat _ => Raised TypeError
  end.

(** [Flask.wsgi_app] around one view: the view is called, its return value
    made into a response; an exception from either, with no error handler
    registered, ends in [handle_exception] and the default page for an
    internal server error (in debug mode the page of the debugger, with
    the same status). *)
Definition finalize (rv : outcome pyval) : response :=
  match rv with
  | Returned v =>
      match make_response v with
      | Returned r => r
      | Raised e => DefaultErrorPage 500 (Some e)
      end
  | Raised e => DefaultErrorPage 500 (Some e)
  end.

(** ** [app.py] *)

(** [def home(): return render_template('index.html')] *)
Definition home : prog (outcome pyval) :=
  render_template "index.html".

(** [def points(): with open('static/data/features.json', 'r') as
    points_file: return json.load(points_file)] *)
Definition points : prog (outcome pyval) :=
  with_open "static/data/features.json" (fun points_file =>
    json_load points_file).

(** [def polygons(): with open('static/data/features_poly.json', 'r') as
    polygons_file: return json.load(polygons_file)] *)
Definition polygons : prog (outcome pyval) :=
  with_open "static/data/features_poly.json" (fun polygons_file =>
    json_load polygons_file).

(** The rules the three [@app.route] decorators add to [app.url_map].
    The views take no argument, and the module does not import Flask's
    [request].  [Flask(__name__)] itself adds one more rule,
    [/static/<path:filename>], which serves the files of the [static]
    folder: it is not among these, and a path under [/static/] finds
    no rule here. *)
Definition url_map : list (string * prog (outcome pyval)) :=
  [("/", home); ("/points", points); ("/polygons", polygons)].

Fixpoint match_rule (rules : list (string * prog (outcome pyval))) (p : string)
  : option (prog (outcome pyval)) :=
  match rules with
  | [] => None
  | (rule, view) :: r => if decide (rule = p) then Some view else match_rule r p
  end.

(** The application on one request.  A rule added without [methods]
    answers GET, and HEAD and OPTIONS on the framework's account. *)
Definition serve (req : request) : prog response :=
  match match_rule url_map (path req) with
  | None => Ret (DefaultErrorPage 404 None)
  | Some view =>
      match method req with
      | GET => bind view (fun rv => Ret (finalize rv))
      | HEAD =>
          bind view (fun rv =>
            Ret (match finalize rv with
                 | Response status mimetype _ => Response status mimetype []
                 | r => r
                 end))
      | OPTIONS => Ret (Response 200 "text/html" [])
      | POST | PUT | DELETE => Ret (DefaultErrorPage 405 None)
      end
  end.

(** The response to a request, without the world after it. *)
Definition respond (req : request) (w : world) : response := (run (serve req) w).1.

(** ** Requests served side by side *)

(** One system call of a program, or nothing when it has ended. *)
Definition step {A} (p : prog A) (w : world) : prog A * world :=
  match p with
  | Ret a => (Ret a, w)
  | Do c k => let '(x, w') := exec c w in (k x, w')
  end.

(** Two programs under a schedule: each entry lets the first ([true]) or
    the second ([false]) make one system call; when the schedule ends the
    programs run to their ends one after the other. *)
Fixpoint run_pair {A B} (schedule : list bool) (p : prog A) (q : prog B) (w : world)
  : A * B * world :=
  match schedule with
  | [] =>
      let '(a, w1) := run p w in
      let '(b, w2) := run q w1 in
      (a, b, w2)
  | true :: s => let '(p', w') := step p w in run_pair s p' q w'
  | false :: s => let '(q', w') := step q w in run_pair s p q' w'
  end.

(** ** What is observed of a run *)

(** A system call as it happened. *)
Inductive call : Type :=
| Opened (path : string) (fd : nat)
| OpenFailed (path : string) (e : exn)
| ReadFrom (fd : nat)
| Closed (fd : nat).

#[global] Instance call_eq_dec : EqDecision call.
Proof. solve_decision. Defined.

Definition note {X} (c : sys X) : X -> call :=
  match c in sys X return X -> call with
  | SysOpen path => fun x =>
      match x with Returned fd => Opened path fd | Raised e => OpenFailed path e end
  | SysRead fd => fun _ => ReadFrom fd
  | SysClose fd => fun _ => Closed fd
  end.

(** The system calls of a run, in order. *)
Fixpoint calls {A} (p : prog A) (w : world) : list call :=
  match p with
  | Ret _ => []
  | Do c k => let '(x, w') := exec c w in note c x :: calls (k x) w'
  end.

(** The descriptors a sequence of calls opened and did not close. *)
Fixpoint left_open (log : list call) : list nat :=
  match log with
  | [] => []
  | Opened _ fd :: r =>
      if decide (Closed fd ∈ r) then left_open r else fd :: left_open r
  | _ :: r => left_open r
  end.

(** What [json.load] on a freshly opened file comes to, by what the path
    leads to. *)
Definition load_outcome (f : option file) : outcome pyval :=
  match f with
  | None => Raised FileNotFoundError
  | Some Unreadable => Raised PermissionError
  | Some Undecodable => Raised UnicodeDecodeError
  | Some (Text contents) => json_loads contents
  end.

(** What happens while the server is up: a request comes in, or something
    outside the server writes or removes a file. *)
Inductive event : Type :=
| Incoming (req : request)
| Written (path : string) (f : file)
| Removed (path : string).

Definition happen (ev : event) (w : world) : list response * world :=
  match ev with
  | Incoming req => let '(r, w') := run (serve req) w in ([r], w')
  | Written p f => ([], World (<[p := f]> (disk w)) (descriptors w))
  | Removed p => ([], World (delete p (disk w)) (descriptors w))
  end.

(** The responses of a sequence of events and the world after it. *)
Fixpoint session (evs : list event) (w : world) : list response * world :=
  match evs with
  | [] => ([], w)
  | ev :: r =>
      let '(rs, w1) := happen ev w in
      let '(rs', w2) := session r w1 in
      (rs ++ rs', w2)
  end.

(** A text with the insignificant white space of JSON taken out. *)
Definition without_ws (s : pystr) : pystr := filter (fun c => is_ws c = false) s.

Definition is_container (v : pyval) : bool :=
  match v with
  | PDict _ | PList _ => true
  | _ => false
  end.



(** The descriptor a request holds, if any, on top of a table. *)
Definition hold (o : option (nat * file)) (m : gmap nat file) : gmap nat file :=
  match o with
  | Some (fd, f) => <[fd := f]> m
  | None => m
  end.

Definition unused (m : gmap nat file) (o : option (nat * file)) : Prop :=
  match o with
  | Some (fd, _) => m !! fd = None
  | None => True
  end.

Definition apart (o1 o2 : option (nat * file)) : Prop :=
  match o1, o2 with
  | Some (fd1, _), Some (fd2, _) => fd1 <> fd2
  | _, _ => True
  end.

(** What is left of a data request after its file was opened. *)
Definition after_open (fd : nat) : prog response :=
  bind (bind (json_load fd) (fun r => Do (SysClose fd) (fun _ => Ret r)))
    (fun rv => Ret (finalize rv)).

(** Where a request for the data file [datafile] can be, started in a
    world with the files of [w0], and the descriptor it holds there. *)
Inductive thread_at (datafile : string) (w0 : world)
  : prog response -> option (nat * file) -> Prop :=
| at_start :
    thread_at datafile w0
      (bind (with_open datafile json_load) (fun rv => Ret (finalize rv))) None
| at_opened fd f :
    disk w0 !! datafile = Some f -> f <> Unreadable ->
    thread_at datafile w0 (after_open fd) (Some (fd, f))
| at_read fd f :
    disk w0 !! datafile = Some f -> f <> Unreadable ->
    thread_at datafile w0
      (Do (SysClose fd) (fun _ => Ret (finalize (load_outcome (Some f)))))
      (Some (fd, f))
| at_end :
    thread_at datafile w0
      (Ret (finalize (load_outcome (disk w0 !! datafile)))) None.

(** ** Values up to the order of keys *)

(** The value with the items of every dictionary put in the order of
    their keys. *)
Fixpoint sort_keys (v : pyval) : pyval :=
  match v with
  | PList l => PList (map sort_keys l)
  | PDict d => PDict (sorted_items (map (fun kv => (kv.1, sort_keys kv.2)) d))
  | _ => v
  end.

(** Two values with the same items, the order of the items of a
    dictionary aside (Python's [==] on the values [json] builds). *)
Inductive same_value : pyval -> pyval -> Prop :=
| same_none : same_value PNone PNone
| same_bool b : same_value (PBool b) (PBool b)
| same_int z : same_value (PInt z) (PInt z)
| same_float f : same_value (PFloat f) (PFloat f)
| same_str s : same_value (PStr s) (PStr s)
| same_list l1 l2 :
    Forall2 same_value l1 l2 -> same_value (PList l1) (PList l2)
| same_dict d1 d2 d :
    d1 ≡ₚ d ->
    Forall2 (fun kv1 kv2 => kv1.1 = kv2.1 /\ same_value kv1.2 kv2.2) d d2 ->
    same_value (PDict d1) (PDict d2).

(** A text as [read] returns it: code points of Unicode, none of them a
    surrogate (no encoding of a file decodes to one). *)
Definition valid_text (s : pystr) : Prop :=
  Forall (fun c => c < 0x110000
                   /\ is_high_surrogate c = false
                   /\ is_low_surrogate c = false) s.

(** What can follow a value in a document the encoder wrote. *)
Definition ends_value (rest : pystr) : Prop :=
  match rest with
  | [] => True
  | c :: _ => c = 44 \/ c = 93 \/ c = 125 \/ c = 10
  end.

(** The decoder reads the float back from what the encoder writes for it
    ([float(repr(x)) == x], and [repr(x)] is a number with a fraction or
    an exponent). *)
Definition float_reads_back (f : float) : Prop :=
  forall (n : nat) (rest : pystr), ends_value rest ->
    scan_once (S n) (floatstr f ++ rest) = Scanned (PFloat f) rest.

Fixpoint floats_read_back (v : pyval) : Prop :=
  match v with
  | PFloat f => float_reads_back f
  | PList l => foldr (fun x acc => floats_read_back x /\ acc) True l
  | PDict d => foldr (fun kv acc => floats_read_back kv.2 /\ acc) True d
  | _ => True
  end.

(** No high surrogate is followed by a low one. *)
Fixpoint no_pair (s : pystr) : Prop :=
  match s with
  | a :: r =>
      match r with
      | b :: _ => is_high_surrogate a && is_low_surrogate b = false
      | [] => True
      end /\ no_pair r
  | [] => True
  end.

(** A string the decoder can have built. *)
Definition str_ok (s : pystr) : Prop :=
  Forall (fun c => c < 0x110000) s /\ no_pair s.

(** A value the decoder can have built: its strings are, and the keys of
    each dictionary differ. *)
Fixpoint decoded (v : pyval) : Prop :=
  match v with
  | PStr s => str_ok s
  | PList l => foldr (fun x acc => decoded x /\ acc) True l
  | PDict d =>
      NoDup (map fst d)
      /\ foldr (fun kv acc => (str_ok kv.1 /\ decoded kv.2) /\ acc) True d
  | _ => True
  end.

(** The decoder reads the value [v] from [text], whatever follows that can
    follow a value, with any budget from some budget on. *)
Definition reads_as (text : pystr) (v : pyval) : Prop :=
  forall rest : pystr, ends_value rest ->
    exists n0 : nat, forall n : nat, (n0 <= n)%nat ->
      scan_once n (text ++ rest) = Scanned v rest.

(** What a scanner leaves of a text it read something from: a proper
    suffix of it. *)
Definition leaves (s r : pystr) : Prop :=
  (length r < length s)%nat /\ r `suffix_of` s.

(** ** What else is said of a run, a text and a value *)

(** A program that keeps to itself, started in a world with the files of
    [w0] and holding the descriptor [o]: whatever another request holds
    meanwhile, each of its system calls leaves the files alone and the
    descriptors of the other as they are, and it ends with the result [a]
    and nothing left open. *)
Fixpoint isolated {A} (w0 : world) (a : A) (p : prog A) (o : option (nat * file))
  : Prop :=
  match p with
  | Ret a' => a' = a /\ o = None
  | Do c k =>
      forall (w : world) (other : option (nat * file)),
        disk w = disk w0 ->
        descriptors w = hold o (hold other (descriptors w0)) ->
        unused (descriptors w0) o -> apart o other ->
        exists o',
          isolated w0 a (k (exec c w).1) o'
          /\ disk (exec c w).2 = disk w0
          /\ descriptors (exec c w).2 = hold o' (hold other (descriptors w0))
          /\ unused (descriptors w0) o' /\ apart o' other
  end.

(** The body of a response taken away, as for a HEAD request. *)
Definition without_body (r : response) : response :=
  match r with
  | Response status mimetype _ => Response status mimetype []
  | r => r
  end.

(** A text of white space only. *)
Definition blank (s : pystr) : Prop := Forall (fun c => is_ws c = true) s.



(** A text of ASCII characters only. *)
Definition is_ascii (s : pystr) : Prop := Forall (fun c => c < 128) s.

(** The [repr] of every float of the value is ASCII. *)
Fixpoint floats_print_ascii (v : pyval) : Prop :=
  match v with
  | PFloat f => is_ascii (float_repr f)
  | PList l => foldr (fun x acc => floats_print_ascii x /\ acc) True l
  | PDict d => foldr (fun kv acc => floats_print_ascii kv.2 /\ acc) True d
  | _ => True
  end.

(** Two items in the order of their keys, the keys different. *)
Definition key_lt {A} (x y : pystr * A) : Prop :=
  str_le x.1 y.1 = true /\ x.1 <> y.1.

(** The text starts with a digit. *)
Definition digit_head (s : pystr) : bool :=
  match s with
  | c :: _ => is_digit c
  | [] => false
  end.

(** The text starts with a digit or a dot. *)
Definition frac_head (s : pystr) : bool :=
  match s with
  | c :: _ => is_digit c || (c =? 46)
  | [] => false
  end.

(** The text starts as a number can go on: with a digit, a dot or the
    letter of an exponent. *)
Definition continues (s : pystr) : bool :=
  match s with
  | c :: _ => is_digit c || (c =? 46) || (c =? 101) || (c =? 69)
  | [] => false
  end.

Definition is_number (v : pyval) : bool :=
  match v with
  | PInt _ | PFloat _ => true
  | _ => false
  end.

(** [d.get(k)] *)
Fixpoint dict_get (d : list (pystr * pyval)) (k : pystr) : option pyval :=
  match d with
  | [] => None
  | (k', v) :: r => if decide (k' = k) then Some v else dict_get r k
  end.

(** The paths a log of system calls tried to open. *)
Fixpoint opened_paths (log : list call) : list string :=
  match log with
  | [] => []
  | Opened p _ :: r | OpenFailed p _ :: r => p :: opened_paths r
  | _ :: r => opened_paths r
  end.

(** The items of every dictionary of the value are in the order of their
    keys. *)
Fixpoint keys_in_order (v : pyval) : Prop :=
  match v with
  | PDict d =>
      Sorted key_lt d /\ foldr (fun kv acc => keys_in_order kv.2 /\ acc) True d
  | PList l => foldr (fun x acc => keys_in_order x /\ acc) True l
  | _ => True
  end.

End Model.

(** ** A deployment to evaluate the model on *)

(** Jinja on a template without Jinja syntax: the text itself, less one
    line feed at its end ([keep_trailing_newline] is off). *)
Definition render_static (source : pystr) : outcome pystr :=
  match reverse source with
  | 10 :: r => Returned (reverse r)
  | _ => Returned source
  end.

(** *** Python's [float]: IEEE 754 binary64

    [float(s)] rounds the decimal to the nearest binary64, ties to even;
    [float.__repr__] writes the shortest decimal that rounds back to the
    float, the nearest to it among those, in the layout of
    [format_float_short]. *)

(** The value [m * 10^e], with sign [s], rounded to binary64. *)
Definition round_decimal (s : bool) (m : N) (e : Z) : spec_float :=
  match m with
  | N0 => S754_zero s
  | Npos p =>
      match e with
      | Zneg k =>
          SFdiv 53 1024 (S754_finite s p 0) (S754_finite false (10 ^ k)%positive 0)
      | _ => binary_round 53 1024 s (p * Z.to_pos (10 ^ e))%positive 0
      end
  end.

Definition int_of_digits (ds : pystr) : Z := Z.of_N (N.of_uint (uint_of_digits ds)).

(** An optional sign and a run of digits, as an integer. *)
Definition signed_digits (s : pystr) : Z :=
  match s with
  | c :: r =>
      if c =? 45 then Z.opp (int_of_digits (span_digits r).1)
      else if c =? 43 then int_of_digits (span_digits r).1
      else int_of_digits (span_digits s).1
  | [] => 0%Z
  end.

(** [float(s)] on the texts [json] passes to it: [nan], [inf], [-inf], and
    a number with a fraction or an exponent. *)
Definition float_of_str (s : pystr) : spec_float :=
  if decide (s = py "nan") then S754_nan
  else if decide (s = py "inf") then S754_infinity false
  else if decide (s = py "-inf") then S754_infinity true
  else
    let '(sign, s1) :=
      match s with
      | c :: r => if c =? 45 then (true, r) else (false, s)
      | [] => (false, s)
      end in
    let '(int_digits, s2) := span_digits s1 in
    let '(frac_digits, s3) :=
      match s2 with
      | c :: r => if c =? 46 then span_digits r else ([], s2)
      | [] => ([], s2)
      end in
    let exponent :=
      match s3 with
      | c :: r => if (c =? 101) || (c =? 69) then signed_digits r else 0%Z
      | [] => 0%Z
      end in
    round_decimal sign (N.of_uint (uint_of_digits (int_digits ++ frac_digits)))
      (exponent - Z.of_nat (length frac_digits)).

Definition digits_of (n : N) : pystr := digits_of_uint (N.to_uint n).

(** [floor(log10(n / d))] for positive [n] and [d]. *)
Fixpoint scale_up (fuel : nat) (n d : N) : Z :=
  match fuel with
  | O => 0%Z
  | S k => if d <=? n then 0%Z else (scale_up k (10 * n) d - 1)%Z
  end.

Definition floor_log10 (n d : N) : Z :=
  if d <=? n then (Z.of_nat (length (digits_of (n / d))) - 1)%Z
  else scale_up (N.to_nat (N.size d)) n d.

(** [floor(n / d / 10^q)] *)
Definition scaled (n d : N) (q : Z) : N :=
  match q with
  | Zneg k => (n * 10 ^ Npos k) / d
  | _ => n / (d * 10 ^ Z.to_N q)
  end.

(** Is [lo * 10^q] at least as near to [n / d] as [(lo + 1) * 10^q], a
    tie going to the even one?  [lo] is [scaled n d q]. *)
Definition nearer_below (n d : N) (q : Z) (lo : N) : bool :=
  let '(num, den) :=
    match q with
    | Zneg k => (n * 10 ^ Npos k - lo * d, d)
    | _ => (n - lo * (d * 10 ^ Z.to_N q), d * 10 ^ Z.to_N q)
    end in
  if 2 * num <? den then true
  else if den <? 2 * num then false
  else N.even lo.

Definition float_eqb (x y : spec_float) : bool :=
  match x, y with
  | S754_finite s m e, S754_finite s' m' e' =>
      Bool.eqb s s' && (m =? m')%positive && (e =? e')%Z
  | S754_zero s, S754_zero s' => Bool.eqb s s'
  | S754_infinity s, S754_infinity s' => Bool.eqb s s'
  | S754_nan, S754_nan => true
  | _, _ => false
  end.

(** The shortest decimal [c * 10^q] of at least [k] digits that rounds to
    the positive float [x = n / d], the nearest to it among those of that
    length; [l] is [floor_log10 n d].  Seventeen digits always do. *)
Fixpoint shortest (fuel k : nat) (x : spec_float) (n d : N) (l : Z) : N * Z :=
  let q := (l - Z.of_nat k + 1)%Z in
  let lo := scaled n d q in
  let hi := lo + 1 in
  match fuel with
  | O => (if nearer_below n d q lo then lo else hi, q)
  | S fuel' =>
      let lo_ok := float_eqb (round_decimal false lo q) x in
      let hi_ok := float_eqb (round_decimal false hi q) x in
      if lo_ok && hi_ok then (if nearer_below n d q lo then lo else hi, q)
      else if lo_ok then (lo, q)
      else if hi_ok then (hi, q)
      else shortest fuel' (S k) x n d l
  end.

(** [c * 10^q] without the zeros at the end of [c]. *)
Fixpoint strip_zeros (fuel : nat) (c : N) (q : Z) : N * Z :=
  match fuel with
  | O => (c, q)
  | S k =>
      if (c mod 10 =? 0) && negb (c =? 0) then strip_zeros k (c / 10) (q + 1)
      else (c, q)
  end.

(** [format_float_short] for [repr]: the digits [c] with the decimal point
    after [decpt] of them; an exponent when [decpt] is below -3 or
    above 16. *)
Definition format_float_short (sign : bool) (c : N) (q : Z) : pystr :=
  let ds := digits_of c in
  let len := Z.of_nat (length ds) in
  let decpt := (len + q)%Z in
  (if sign then [45] else []) ++
  if ((decpt <=? -4) || (16 <? decpt))%Z then
    let e := (decpt - 1)%Z in
    let mantissa :=
      match ds with
      | [] => []
      | [d0] => [d0]
      | d0 :: r => d0 :: 46 :: r
      end in
    let ed := digits_of (Z.abs_N e) in
    mantissa ++ [101] ++ (if (e <? 0)%Z then [45] else [43])
      ++ (match ed with [_] => 48 :: ed | _ => ed end)
  else if (decpt <=? 0)%Z then
    [48; 46] ++ repeat 48 (Z.to_nat (- decpt)) ++ ds
  else if (len <=? decpt)%Z then
    ds ++ repeat 48 (Z.to_nat (decpt - len)) ++ [46; 48]
  else
    take (Z.to_nat decpt) ds ++ [46] ++ drop (Z.to_nat decpt) ds.

(** [float.__repr__] *)
Definition float_to_repr (x : spec_float) : pystr :=
  match x with
  | S754_nan => py "nan"
  | S754_infinity false => py "inf"
  | S754_infinity true => py "-inf"
  | S754_zero false => py "0.0"
  | S754_zero true => py "-0.0"
  | S754_finite s m e =>
      let '(n, d) :=
        match e with
        | Zneg k => (Npos m, 2 ^ Npos k)
        | _ => (Npos m * 2 ^ Z.to_N e, 1)
        end in
      let '(c, q) := shortest 17 1 (S754_finite false m e) n d (floor_log10 n d) in
      let '(c', q') := strip_zeros (length (digits_of c)) c q in
      format_float_short s c' q'
  end.

(** The application as [python app.py] runs it ([debug=True]), with a
    static template. *)
Definition script_runtime : Runtime := {|
  float := spec_float;
  parse_float := float_of_str;
  float_repr := float_to_repr;
  jinja_render := render_static;
  debug := true
|}.

(** A JSON text written with apostrophes for its double quotes. *)
Definition json (s : string) : pystr :=
  map (fun c => if c =? 39 then 34 else c) (py s).

(** A GET request with nothing but its path. *)
Definition get (p : string) : request := Request GET p "" [] [].

Section Deployment.
#[local] Existing Instance script_runtime.

(** The text of a points file, and the value it decodes to. *)
Definition example_points : pystr :=
  json "{'type': 'FeatureCollection', 'features': [{'name': 'Caf\u00e9', 'score': 7, 'at': [-93.25, 45.5]}]}".

Definition example_points_value : pyval :=
  PDict [(py "type", PStr (py "FeatureCollection"));
         (py "features",
          PList [PDict [(py "name", PStr (py "Caf" ++ [233]));
                        (py "score", PInt 7);
                        (py "at", PList [PFloat (float_of_str (py "-93.25"));
                                         PFloat (float_of_str (py "45.5"))])]])].

(** The text of a polygons file, and the value it decodes to. *)
Definition example_polygons : pystr :=
  json "{'type': 'FeatureCollection', 'features': []}".

Definition example_polygons_value : pyval :=
  PDict [(py "type", PStr (py "FeatureCollection")); (py "features", PList [])].

Definition example_template : pystr :=
  py "<!doctype html><title>Habitability</title>".

(** A working directory with the template and the two data files, and no
    open descriptor. *)
Definition example_world : world :=
  World
    (<["templates/index.html" := Text example_template]>
     (<["static/data/features.json" := Text example_points]>
      (<["static/data/features_poly.json" := Text example_polygons]> ∅)))
    ∅.

(** A working directory whose points file holds [contents], and nothing
    else. *)
Definition world_with_points (contents : pystr) : world :=
  World {["static/data/features.json" := Text contents]} ∅.

(** The points file with the items of its objects in another order, and
    the value it decodes to. *)
Definition example_points_reordered : pystr :=
  json "{'features': [{'at': [-93.25, 45.5], 'score': 7, 'name': 'Caf\u00e9'}], 'type': 'FeatureCollection'}".

Definition example_points_reordered_value : pyval :=
  PDict [(py "features",
          PList [PDict [(py "at", PList [PFloat (float_of_str (py "-93.25"));
                                         PFloat (float_of_str (py "45.5"))]);
                        (py "score", PInt 7);
                        (py "name", PStr (py "Caf" ++ [233]))]]);
         (py "type", PStr (py "FeatureCollection"))].

(** A HEAD request. *)
Definition head (p : string) : request := Request HEAD p "" [] [].

End Deployment.

(** * Properties *)

Section Properties.
Context {RT : Runtime}.

(** ** Running programs *)

Lemma run_bind {A B} (p : prog A) (f : A -> prog B) (w : world) :
  run (bind p f) w = run (f (run p w).1) (run p w).2.
Proof.
  revert w. induction p as [a | X c k IH]; intros w; simpl; [done |].
  destruct (exec c w) as [x w']. apply IH.
Qed.

Lemma calls_bind {A B} (p : prog A) (f : A -> prog B) (w : world) :
  calls (bind p f) w = calls p w ++ calls (f (run p w).1) (run p w).2.
Proof.
  revert w. induction p as [a | X c k IH]; intros w; simpl; [done |].
  destruct (exec c w) as [x w']. simpl. by rewrite IH.
Qed.

Lemma world_eta (w : world) : World (disk w) (descriptors w) = w.
Proof. by destruct w. Qed.

Lemma fresh_descriptor (w : world) :
  descriptors w !! fresh (dom (descriptors w)) = None.
Proof. apply not_elem_of_dom, is_fresh. Qed.

Lemma open_close (w : world) (f : file) :
  World (disk w)
    (delete (fresh (dom (descriptors w)))
       (<[fresh (dom (descriptors w)) := f]> (descriptors w))) = w.
Proof. rewrite delete_insert_id by apply fresh_descriptor. apply world_eta. Qed.

(** A view that loads a data file returns what [load_outcome] says of the
    file, and leaves the world as it was. *)
Lemma run_data_view (path : string) (w : world) :
  run (with_open path json_load) w = (load_outcome (disk w !! path), w).
Proof.
  unfold with_open, try_bind, json_load. simpl.
  destruct (disk w !! path) as [[contents | |] |] eqn:E; simpl; try done.
  - rewrite lookup_insert_eq. simpl. by rewrite open_close.
  - rewrite lookup_insert_eq. simpl. by rewrite open_close.
Qed.

(** The system calls of a view that loads a data file. *)
Lemma calls_data_view (path : string) (w : world) :
  calls (with_open path json_load) w =
    match disk w !! path with
    | None => [OpenFailed path FileNotFoundError]
    | Some Unreadable => [OpenFailed path PermissionError]
    | Some _ =>
        let fd := fresh (dom (descriptors w)) in
        [Opened path fd; ReadFrom fd; Closed fd]
    end.
Proof.
  unfold with_open, try_bind, json_load. simpl.
  destruct (disk w !! path) as [[contents | |] |] eqn:E; simpl; try done.
  - by rewrite lookup_insert_eq.
  - by rewrite lookup_insert_eq.
Qed.

(** ** The data routes *)

(** The two data routes: the path of the URL rule, the path of the file
    the view opens, the view. *)
Inductive data_route : string -> string -> prog (outcome pyval) -> Prop :=
| route_points : data_route "/points" "static/data/features.json" points
| route_polygons : data_route "/polygons" "static/data/features_poly.json" polygons.

Lemma data_route_view rule datafile view :
  data_route rule datafile view -> view = with_open datafile json_load.
Proof. by destruct 1. Qed.

Lemma serve_data_route rule datafile view (req : request) :
  data_route rule datafile view -> method req = GET -> path req = rule ->
  serve req = bind (with_open datafile json_load) (fun rv => Ret (finalize rv)).
Proof.
  intros Hr Hm Hp. unfold serve. rewrite Hp, Hm. by destruct Hr.
Qed.

Lemma run_serve_data_route rule datafile view (req : request) (w : world) :
  data_route rule datafile view -> method req = GET -> path req = rule ->
  run (serve req) w = (finalize (load_outcome (disk w !! datafile)), w).
Proof.
  intros Hr Hm Hp. rewrite (serve_data_route _ _ _ _ Hr Hm Hp).
  rewrite run_bind, run_data_view. done.
Qed.

Lemma calls_serve_data_route rule datafile view (req : request) (w : world) :
  data_route rule datafile view -> method req = GET -> path req = rule ->
  calls (serve req) w = calls (with_open datafile json_load) w.
Proof.
  intros Hr Hm Hp. rewrite (serve_data_route _ _ _ _ Hr Hm Hp).
  rewrite calls_bind. simpl. apply app_nil_r.
Qed.

Lemma finalize_container (v : pyval) :
  is_container v = true ->
  finalize (Returned v) = Response 200 "application/json" (dumps v ++ [10]).
Proof. by destruct v. Qed.




(** ** The page *)

(** What the template loader's read of a file comes to. *)
Lemma run_read_file (path : string) (w : world) :
  run (with_open path (fun f => Do (SysRead f) Ret)) w =
    (match disk w !! path with
     | None => Raised FileNotFoundError
     | Some Unreadable => Raised PermissionError
     | Some Undecodable => Raised UnicodeDecodeError
     | Some (Text contents) => Returned contents
     end, w).
Proof.
  unfold with_open, try_bind. simpl.
  destruct (disk w !! path) as [[contents | |] |] eqn:E; simpl; try done.
  - rewrite lookup_insert_eq. simpl. by rewrite open_close.
  - rewrite lookup_insert_eq. simpl. by rewrite open_close.
Qed.

Lemma run_render_template_world (name : string) (w : world) :
  (run (render_template name) w).2 = w.
Proof.
  unfold render_template. rewrite run_bind, run_read_file. simpl.
  destruct (disk w !! _) as [[contents | |] |]; simpl; try done.
  by destruct (jinja_render contents).
Qed.

Lemma serve_home (req : request) :
  method req = GET -> path req = "/" ->
  serve req = bind home (fun rv => Ret (finalize rv)).
Proof. intros Hm Hp. unfold serve. by rewrite Hp, Hm. Qed.

(** C5. A GET request to [/] is answered from the template alone: two
    such requests, whatever their query strings, headers and bodies, get
    the same response and leave the same world; and when Jinja renders
    the source of [templates/index.html] the response is that markup, as
    HTML, with status 200. *)
Theorem home_serves_template (req : request) (w : world) :
  method req = GET -> path req = "/" ->
  (forall req' : request,
      method req' = GET -> path req' = "/" ->
      run (serve req) w = run (serve req') w)
  /\ (forall source html : pystr,
      disk w !! "templates/index.html" = Some (Text source) ->
      jinja_render source = Returned html ->
      (run home w).1 = Returned (PStr html)
      /\ respond req w = Response 200 "text/html" html).
Proof.
  intros Hm Hp. split.
  - intros req' Hm' Hp'. by rewrite (serve_home _ Hm Hp), (serve_home _ Hm' Hp').
  - intros source html Hf Hj. unfold respond.
    rewrite (serve_home _ Hm Hp), run_bind.
    unfold home, render_template. rewrite run_bind, run_read_file.
    change ("templates/" +:+ "index.html") with "templates/index.html".
    rewrite Hf. simpl. by rewrite Hj.
Qed.

(** ** No request changes the world *)

Lemma run_view_world (rule : string) (view : prog (outcome pyval)) (w : world) :
  match_rule url_map rule = Some view -> (run view w).2 = w.
Proof.
  unfold url_map. simpl. intros H.
  repeat case_decide; simplify_eq.
  - apply run_render_template_world.
  - unfold points. by rewrite run_data_view.
  - unfold polygons. by rewrite run_data_view.
Qed.

(** C6. Whatever the request (any path, any method), the world after it
    is the world before it: the same files with the same contents, and the
    same open descriptors. *)
Theorem request_leaves_world (req : request) (w : world) :
  (run (serve req) w).2 = w.
Proof.
  unfold serve.
  destruct (match_rule url_map (path req)) as [view |] eqn:E; [| done].
  destruct (method req); try done.
  - rewrite run_bind. simpl. by apply run_view_world with (rule := path req).
  - rewrite run_bind. simpl. by apply run_view_world with (rule := path req).
Qed.

(** ** Every request reads the file anew *)

Lemma session_app (evs1 evs2 : list event) (w : world) :
  session (evs1 ++ evs2) w =
    ((session evs1 w).1 ++ (session evs2 (session evs1 w).2).1,
     (session evs2 (session evs1 w).2).2).
Proof.
  revert w. induction evs1 as [| ev evs1 IH]; intros w; simpl.
  - by destruct (session evs2 w).
  - destruct (happen ev w) as [rs w1]. rewrite IH.
    destruct (session evs1 w1) as [rs1 w2]. simpl.
    by rewrite app_assoc.
Qed.

(** C7. After any history of requests and of changes made to the files
    from outside, a GET request to [/points] or [/polygons] opens and
    reads the file again, and its response is the one that belongs to what
    the path leads to at that moment; in particular a request that comes
    right after the file was written is answered from what was written. *)
Theorem data_route_reads_anew rule datafile view (history : list event)
    (req : request) (w : world) :
  data_route rule datafile view ->
  method req = GET -> path req = rule ->
  let now := (session history w).2 in
  (session (history ++ [Incoming req]) w).1 =
    (session history w).1 ++ [finalize (load_outcome (disk now !! datafile))]
  /\ calls (serve req) now =
       match disk now !! datafile with
       | None => [OpenFailed datafile FileNotFoundError]
       | Some Unreadable => [OpenFailed datafile PermissionError]
       | Some _ =>
           let fd := fresh (dom (descriptors now)) in
           [Opened datafile fd; ReadFrom fd; Closed fd]
       end
  /\ (forall f : file,
       (session (history ++ [Written datafile f; Incoming req]) w).1 =
         (session history w).1 ++ [finalize (load_outcome (Some f))]).
Proof.
  intros Hr Hm Hp now. split; [| split].
  - rewrite session_app. simpl.
    rewrite (run_serve_data_route _ _ _ _ _ Hr Hm Hp). done.
  - rewrite (calls_serve_data_route _ _ _ _ _ Hr Hm Hp). apply calls_data_view.
  - intros f. rewrite session_app. simpl.
    rewrite (run_serve_data_route _ _ _ _ _ Hr Hm Hp). simpl.
    by rewrite lookup_insert_eq.
Qed.

(** ** The file is closed on every way out *)

(** C9. On every run of [points] or [polygons] the descriptor the view
    opened is closed again by the time the view ends: no descriptor is
    left open, the table of open descriptors is as before, and a run in
    which [json.load] raised a decoding error still ends with the close
    of the descriptor it had opened. *)
Theorem data_view_closes_file rule datafile view (w : world) :
  data_route rule datafile view ->
  left_open (calls view w) = []
  /\ descriptors (run view w).2 = descriptors w
  /\ (forall (path : string) (fd : nat),
        Opened path fd ∈ calls view w -> last (calls view w) = Some (Closed fd))
  /\ ((run view w).1 = Raised JSONDecodeError ->
        exists fd, calls view w = [Opened datafile fd; ReadFrom fd; Closed fd]).
Proof.
  intros Hr. rewrite (data_route_view _ _ _ Hr), run_data_view, calls_data_view.
  assert (Hlog : forall fd : nat,
    left_open [Opened datafile fd; ReadFrom fd; Closed fd] = []
    /\ (forall (path : string) (fd' : nat),
          Opened path fd' ∈ [Opened datafile fd; ReadFrom fd; Closed fd] ->
          Some (Closed fd) = Some (Closed fd'))).
  { intros fd. split.
    - simpl. rewrite decide_True; [done |].
      rewrite !elem_of_cons. auto.
    - intros path fd'. rewrite !elem_of_cons, elem_of_nil.
      intros [H | [H | [H | []]]]; by simplify_eq. }
  destruct (disk w !! datafile) as [[contents | |] |] eqn:E; simpl.
  - destruct (Hlog (fresh (dom (descriptors w)))) as [H1 H2].
    repeat split; [exact H1 | exact H2 | by eexists].
  - destruct (Hlog (fresh (dom (descriptors w)))) as [H1 H2].
    repeat split; [exact H1 | exact H2 | done].
  - repeat split; [| done]. intros path fd.
    rewrite elem_of_cons, elem_of_nil. by intros [H | []].
  - repeat split; [| done]. intros path fd.
    rewrite elem_of_cons, elem_of_nil. by intros [H | []].
Qed.

(** ** A data file whose top-level value is not an object or an array *)

(** C10. When the data file decodes to a value that is not an object or
    an array, the response is not JSON: a string becomes the body of a
    200 response with the HTML content type, and a number, a boolean or
    null is a [TypeError] of [make_response], answered with the default
    page for an internal server error. *)
Theorem scalar_file_not_served_as_json rule datafile view (req : request)
    (w : world) (contents : pystr) (v : pyval) :
  data_route rule datafile view ->
  method req = GET -> path req = rule ->
  disk w !! datafile = Some (Text contents) ->
  json_loads contents = Returned v ->
  is_container v = false ->
  respond req w =
    match v with
    | PStr s => Response 200 "text/html" s
    | _ => DefaultErrorPage 500 (Some TypeError)
    end
  /\ (forall (status : nat) (body : pystr),
        respond req w <> Response status "application/json" body).
Proof.
  intros Hr Hm Hp Hf Hv Hc. unfold respond.
  rewrite (run_serve_data_route _ _ _ _ _ Hr Hm Hp), Hf. simpl. rewrite Hv.
  by destruct v.
Qed.

(** ** Two requests side by side *)

Lemma hold_swap o1 o2 (m : gmap nat file) :
  apart o1 o2 -> hold o1 (hold o2 m) = hold o2 (hold o1 m).
Proof.
  destruct o1 as [[fd1 f1] |], o2 as [[fd2 f2] |]; simpl; try done.
  intros Hne. by apply insert_insert_ne.
Qed.

Lemma apart_sym o1 o2 : apart o1 o2 -> apart o2 o1.
Proof. destruct o1 as [[? ?] |], o2 as [[? ?] |]; simpl; auto. Qed.

Lemma hold_lookup_None o (m : gmap nat file) (fd : nat) :
  hold o m !! fd = None ->
  m !! fd = None /\ apart (Some (fd, Unreadable)) o.
Proof.
  destruct o as [[fd' f'] |]; simpl; [| done].
  rewrite lookup_insert_None. intros [? ?]. split; [done | congruence].
Qed.

Lemma hold_lookup_unused o (m : gmap nat file) (fd : nat) (f : file) :
  m !! fd = None -> apart (Some (fd, f)) o -> hold o m !! fd = None.
Proof.
  destruct o as [[fd' f'] |]; simpl; [| done].
  intros Hm Hne. rewrite lookup_insert_None. split; [done | congruence].
Qed.

Lemma at_end' datafile (w0 : world) (r : response) :
  r = finalize (load_outcome (disk w0 !! datafile)) ->
  thread_at datafile w0 (Ret r) None.
Proof. intros ->. apply at_end. Qed.

(** One system call of a request keeps it on its way, whatever another
    request holds meanwhile. *)
Lemma thread_step datafile (w0 : world) (p : prog response) o other (w : world) :
  thread_at datafile w0 p o ->
  disk w = disk w0 ->
  descriptors w = hold o (hold other (descriptors w0)) ->
  unused (descriptors w0) o -> apart o other ->
  exists o',
    thread_at datafile w0 (step p w).1 o'
    /\ disk (step p w).2 = disk w0
    /\ descriptors (step p w).2 = hold o' (hold other (descriptors w0))
    /\ unused (descriptors w0) o' /\ apart o' other.
Proof.
  intros Hat Hdisk Hdesc Hfree Hapart.
  destruct Hat as [| fd f Hf Hne | fd f Hf Hne |].
  - unfold with_open, try_bind. simpl. rewrite Hdisk.
    pose proof (fresh_descriptor w) as Hfresh.
    set (fd := fresh (dom (descriptors w))) in *.
    rewrite Hdesc in Hfresh. simpl in Hfresh.
    apply hold_lookup_None in Hfresh as [Hfree' Hapart'].
    destruct (disk w0 !! datafile) as [[contents | |] |] eqn:Hf; simpl.
    + exists (Some (fd, Text contents)).
      repeat split; [by apply at_opened | by rewrite Hdesc | done |].
      by destruct other as [[? ?] |].
    + exists (Some (fd, Undecodable)).
      repeat split; [by apply at_opened | by rewrite Hdesc | done |].
      by destruct other as [[? ?] |].
    + exists None. repeat split; try done. apply at_end'. by rewrite Hf.
    + exists None. repeat split; try done. apply at_end'. by rewrite Hf.
  - unfold after_open, json_load, try_bind. simpl.
    rewrite Hdesc. simpl. rewrite lookup_insert_eq.
    exists (Some (fd, f)). destruct f as [contents | |]; simpl.
    + repeat split; try done. by apply (at_read _ _ fd (Text contents)).
    + repeat split; try done. by apply (at_read _ _ fd Undecodable).
    + done.
  - simpl. exists None. rewrite Hdesc. simpl. repeat split; try done.
    + apply at_end'. by rewrite Hf.
    + apply delete_insert_id. by apply hold_lookup_unused with (f := f).
  - simpl. exists None. repeat split; try done. apply at_end.
Qed.

(** A request run to its end from wherever it is gives the response that
    belongs to its file and lets go of its descriptor. *)
Lemma thread_run datafile (w0 : world) (p : prog response) o other (w : world) :
  thread_at datafile w0 p o ->
  disk w = disk w0 ->
  descriptors w = hold o (hold other (descriptors w0)) ->
  unused (descriptors w0) o -> apart o other ->
  (run p w).1 = finalize (load_outcome (disk w0 !! datafile))
  /\ disk (run p w).2 = disk w0
  /\ descriptors (run p w).2 = hold other (descriptors w0).
Proof.
  intros Hat Hdisk Hdesc Hfree Hapart.
  destruct Hat as [| fd f Hf Hne | fd f Hf Hne |].
  - rewrite run_bind, run_data_view. simpl. by rewrite Hdisk.
  - unfold after_open, json_load, try_bind. simpl.
    rewrite Hdesc. simpl. rewrite lookup_insert_eq, Hf.
    assert (Hgo : delete fd (<[fd:=f]> (hold other (descriptors w0)))
                  = hold other (descriptors w0)).
    { apply delete_insert_id. by apply hold_lookup_unused with (f := f). }
    destruct f as [contents | |]; simpl; rewrite ?Hdesc; simpl; rewrite ?Hgo; done.
  - simpl. rewrite Hdesc, Hf. simpl. repeat split; try done.
    apply delete_insert_id. by apply hold_lookup_unused with (f := f).
  - simpl. done.
Qed.

Lemma run_pair_threads file1 file2 (w0 : world) (schedule : list bool) :
  forall (p q : prog response) o1 o2 (w : world),
  thread_at file1 w0 p o1 -> thread_at file2 w0 q o2 ->
  disk w = disk w0 ->
  descriptors w = hold o1 (hold o2 (descriptors w0)) ->
  unused (descriptors w0) o1 -> unused (descriptors w0) o2 -> apart o1 o2 ->
  run_pair schedule p q w =
    (finalize (load_outcome (disk w0 !! file1)),
     finalize (load_outcome (disk w0 !! file2)), w0).
Proof.
  induction schedule as [| b schedule IH];
    intros p q o1 o2 w Hp Hq Hdisk Hdesc Hfree1 Hfree2 Hapart.
  - simpl.
    destruct (thread_run _ _ _ _ _ _ Hp Hdisk Hdesc Hfree1 Hapart)
      as (Hr1 & Hd1 & Ht1).
    destruct (run p w) as [r1 w1]. simpl in *.
    assert (Hapart2 : apart o2 None) by (by destruct o2 as [[? ?] |]).
    destruct (thread_run _ _ _ _ None _ Hq Hd1 Ht1 Hfree2 Hapart2)
      as (Hr2 & Hd2 & Ht2).
    destruct (run q w1) as [r2 w2]. simpl in *. subst r1 r2.
    destruct w2, w0. simpl in *. by subst.
  - destruct b; simpl.
    + destruct (thread_step _ _ _ _ _ _ Hp Hdisk Hdesc Hfree1 Hapart)
        as (o1' & Hp' & Hdisk' & Hdesc' & Hfree1' & Hapart').
      destruct (step p w) as [p' w']. by eapply IH.
    + rewrite hold_swap in Hdesc by done.
      destruct (thread_step _ _ _ _ _ _ Hq Hdisk Hdesc Hfree2 (apart_sym _ _ Hapart))
        as (o2' & Hq' & Hdisk' & Hdesc' & Hfree2' & Hapart').
      destruct (step q w) as [q' w']. simpl in *.
      rewrite hold_swap in Hdesc' by done.
      eapply IH; eauto using apart_sym.
Qed.

(** C8. Under every schedule of their system calls, a GET request to
    [/points] and a GET request to [/polygons] served side by side get the
    responses they get alone: the response of [/points] is the one that
    belongs to what [static/data/features.json] leads to, the response of
    [/polygons] the one that belongs to
    [static/data/features_poly.json], and the world is left as it was.
    So two worlds that agree on the points file give the same response to
    [/points], whatever their polygons files and whatever the schedule. *)
Theorem data_routes_do_not_interfere (req_points req_polygons : request)
    (schedule : list bool) (w : world) :
  method req_points = GET -> path req_points = "/points" ->
  method req_polygons = GET -> path req_polygons = "/polygons" ->
  run_pair schedule (serve req_points) (serve req_polygons) w =
    (finalize (load_outcome (disk w !! "static/data/features.json")),
     finalize (load_outcome (disk w !! "static/data/features_poly.json")), w)
  /\ (forall (schedule' : list bool) (w' : world),
        disk w' !! "static/data/features.json"
          = disk w !! "static/data/features.json" ->
        (run_pair schedule' (serve req_points) (serve req_polygons) w').1.1
          = (run_pair schedule (serve req_points) (serve req_polygons) w).1.1)
  /\ (forall (schedule' : list bool) (w' : world),
        disk w' !! "static/data/features_poly.json"
          = disk w !! "static/data/features_poly.json" ->
        (run_pair schedule' (serve req_points) (serve req_polygons) w').1.2
          = (run_pair schedule (serve req_points) (serve req_polygons) w).1.2).
Proof.
  intros Hm1 Hp1 Hm2 Hp2.
  assert (Hall : forall (s : list bool) (w1 : world),
    run_pair s (serve req_points) (serve req_polygons) w1 =
      (finalize (load_outcome (disk w1 !! "static/data/features.json")),
       finalize (load_outcome (disk w1 !! "static/data/features_poly.json")), w1)).
  { intros s w1.
    rewrite (serve_data_route _ _ _ _ route_points Hm1 Hp1).
    rewrite (serve_data_route _ _ _ _ route_polygons Hm2 Hp2).
    apply run_pair_threads with (o1 := None) (o2 := None);
      try done; apply at_start. }
  split; [apply Hall | split].
  - intros schedule' w' Hsame. rewrite !Hall. simpl. by rewrite Hsame.
  - intros schedule' w' Hsame. rewrite !Hall. simpl. by rewrite Hsame.
Qed.

(** ** Strings: what the encoder escapes the decoder reads back *)

Ltac cmp :=
  repeat match goal with
    | |- context [N.leb ?a ?b] => destruct (N.leb_spec a b)
    | |- context [N.ltb ?a ?b] => destruct (N.ltb_spec a b)
    | |- context [N.eqb ?a ?b] => destruct (N.eqb_spec a b)
    end; simpl; try lia.

Lemma hex_val_digit (d : N) : d < 16 -> hex_val (hex_digit d) = Some d.
Proof.
  intros Hd. unfold hex_val, hex_digit.
  destruct (N.ltb_spec d 10); cmp; f_equal; lia.
Qed.

Lemma decode_escape_u (n : N) :
  n < 0x10000 ->
  decode_uXXXX (hex_digit (n / 4096)) (hex_digit (n / 256 mod 16))
    (hex_digit (n / 16 mod 16)) (hex_digit (n mod 16)) = Some n.
Proof.
  intros Hn. unfold decode_uXXXX.
  assert (H256 : n / 256 = n / 16 / 16) by (by rewrite N.Div0.div_div).
  assert (H4096 : n / 4096 = n / 16 / 16 / 16) by (by rewrite !N.Div0.div_div).
  rewrite H256, H4096. clear H256 H4096.
  pose proof (N.div_mod n 16) as E1.
  pose proof (N.div_mod (n / 16) 16) as E2.
  pose proof (N.div_mod (n / 16 / 16) 16) as E3.
  pose proof (N.mod_upper_bound n 16) as B1.
  pose proof (N.mod_upper_bound (n / 16) 16) as B2.
  pose proof (N.mod_upper_bound (n / 16 / 16) 16) as B3.
  generalize dependent (n mod 16). generalize dependent (n / 16 / 16 mod 16).
  generalize dependent (n / 16 mod 16). generalize dependent (n / 16 / 16 / 16).
  generalize dependent (n / 16 / 16). generalize dependent (n / 16).
  intros q1 q2 q3 r2 E2 B2 r3 E3 B3 r1 E1 B1.
  rewrite !hex_val_digit by lia. f_equal. lia.
Qed.

Lemma lor_shiftl_low (a b : N) :
  b < 1024 -> N.lor (N.shiftl a 10) b = a * 1024 + b.
Proof.
  intros Hb.
  assert (Hdisj : N.land (N.shiftl a 10) b = 0).
  { apply N.bits_inj. intros i. rewrite N.land_spec, N.bits_0.
    destruct (N.lt_ge_cases i 10) as [Hi | Hi].
    - by rewrite N.shiftl_spec_low.
    - rewrite <- (N.mod_small b (2 ^ 10)) by (change (2 ^ 10) with 1024; lia).
      rewrite N.mod_pow2_bits_high by done. apply andb_false_r. }
  rewrite <- N.lxor_lor by done.
  rewrite <- N.add_nocarry_lxor by done.
  by rewrite N.shiftl_mul_pow2.
Qed.

Lemma surrogates_of (c : N) :
  0x10000 <= c -> c < 0x110000 ->
  let n := c - 0x10000 in
  let hi := N.lor 0xd800 (N.land (N.shiftr n 10) 0x3ff) in
  let lo := N.lor 0xdc00 (N.land n 0x3ff) in
  hi < 0x10000 /\ lo < 0x10000
  /\ is_high_surrogate hi = true /\ is_low_surrogate lo = true
  /\ join_surrogates hi lo = c.
Proof.
  intros Hlo Hhi n hi lo.
  assert (Hn : n < 1024 * 1024) by (subst n; lia).
  assert (Hq : n / 1024 < 1024) by (apply N.Div0.div_lt_upper_bound; lia).
  assert (Hr : n mod 1024 < 1024) by (apply N.mod_upper_bound; lia).
  assert (Ehi : hi = 0xd800 + n / 1024).
  { subst hi. change 0x3ff with (N.ones 10). rewrite N.land_ones.
    rewrite N.shiftr_div_pow2. change (2 ^ 10) with 1024.
    rewrite (N.mod_small (n / 1024)) by done.
    change 0xd800 with (N.shiftl 54 10). rewrite lor_shiftl_low by done.
    reflexivity. }
  assert (Elo : lo = 0xdc00 + n mod 1024).
  { subst lo. change 0x3ff with (N.ones 10). rewrite N.land_ones.
    change (2 ^ 10) with 1024.
    change 0xdc00 with (N.shiftl 55 10). rewrite lor_shiftl_low by done.
    reflexivity. }
  rewrite Ehi, Elo. unfold is_high_surrogate, is_low_surrogate, join_surrogates.
  rewrite (N.add_comm 0xd800), (N.add_comm 0xdc00), !N.add_sub.
  rewrite lor_shiftl_low by done.
  pose proof (N.div_mod n 1024) as Hdm.
  assert (Hc : c = n + 0x10000) by (subst n; lia).
  clearbody n. clear Ehi Elo hi lo.
  generalize dependent (n / 1024). generalize dependent (n mod 1024).
  intros r Hr q Hq Hdm.
  repeat split; cmp.
Qed.

(** The shapes [escape_char] gives a code point. *)
Lemma escape_char_cases (c : N) :
  c < 0x110000 ->
  (escape_char c = [c]
     /\ (c =? 34) = false /\ (c =? 92) = false /\ (c <? 32) = false)
  \/ (exists e, escape_char c = [92; e]
        /\ (e =? 117) = false /\ backslash e = Some c)
  \/ (exists h1 h2 h3 h4, escape_char c = [92; 117; h1; h2; h3; h4]
        /\ decode_uXXXX h1 h2 h3 h4 = Some c)
  \/ (exists h1 h2 h3 h4 l1 l2 l3 l4 hi lo,
        escape_char c = [92; 117; h1; h2; h3; h4; 92; 117; l1; l2; l3; l4]
        /\ decode_uXXXX h1 h2 h3 h4 = Some hi
        /\ decode_uXXXX l1 l2 l3 l4 = Some lo
        /\ is_high_surrogate hi = true /\ is_low_surrogate lo = true
        /\ join_surrogates hi lo = c).
Proof.
  intros Hc. unfold escape_char.
  destruct (N.eqb_spec c 92) as [-> | H92].
  { right; left. by exists 92. }
  destruct (N.eqb_spec c 34) as [-> | H34].
  { right; left. by exists 34. }
  destruct (N.eqb_spec c 8) as [-> | H8].
  { right; left. by exists 98. }
  destruct (N.eqb_spec c 12) as [-> | H12].
  { right; left. by exists 102. }
  destruct (N.eqb_spec c 10) as [-> | H10].
  { right; left. by exists 110. }
  destruct (N.eqb_spec c 13) as [-> | H13].
  { right; left. by exists 114. }
  destruct (N.eqb_spec c 9) as [-> | H9].
  { right; left. by exists 116. }
  destruct ((32 <=? c) && (c <=? 126)) eqn:Hprint.
  { left. apply andb_true_iff in Hprint as [H1 H2].
    apply N.leb_le in H1. repeat split; cmp. }
  destruct (N.ltb_spec c 0x10000) as [Hbmp | Hastral].
  { right; right; left. unfold escape_u. do 4 eexists. split; [done |].
    by apply decode_escape_u. }
  right; right; right.
  destruct (surrogates_of c Hastral Hc) as (Hh & Hl & Hhigh & Hlow & Hjoin).
  unfold escape_u. simpl. do 10 eexists.
  split; [done |].
  split; [by apply decode_escape_u |].
  split; [by apply decode_escape_u |]. done.
Qed.

Lemma high_not_low (u : N) : is_high_surrogate u = true -> is_low_surrogate u = false.
Proof. unfold is_high_surrogate, is_low_surrogate. cmp. Qed.

(** What an escaped string followed by its closing quote can start with,
    when it starts with a [\u] escape. *)
Lemma escaped_lookahead (s rest : pystr) :
  Forall (fun c => c < 0x110000) s ->
  match s with b :: _ => is_low_surrogate b = false | [] => True end ->
  starts_backslash_u (concat (map escape_char s) ++ 34 :: rest) = true ->
  exists l1 l2 l3 l4 r3 u2,
    concat (map escape_char s) ++ 34 :: rest = 92 :: 117 :: l1 :: l2 :: l3 :: l4 :: r3
    /\ decode_uXXXX l1 l2 l3 l4 = Some u2
    /\ is_low_surrogate u2 = false.
Proof.
  intros Hs Hhead. destruct s as [| c s']; simpl; [by destruct rest |].
  apply Forall_cons in Hs as [Hc Hs'].
  destruct (escape_char_cases c Hc)
    as [(-> & H34 & H92 & H32)
       | [(e & -> & He & Hb)
         | [(h1 & h2 & h3 & h4 & -> & Hd)
           | (h1 & h2 & h3 & h4 & l1 & l2 & l3 & l4 & hi & lo & -> & Hd & _ & Hh & _)]]].
  - simpl. destruct (concat (map escape_char s') ++ 34 :: rest); simpl;
      rewrite ?H92; done.
  - simpl. by rewrite He.
  - simpl. intros _. by do 6 eexists.
  - simpl. intros _. do 6 eexists. split; [done |]. split; [done |].
    by apply high_not_low.
Qed.

(** [scanstring] reads back, up to the closing quote, the string
    [encode_basestring_ascii] wrote. *)
Lemma scan_escaped (s rest : pystr) :
  str_ok s ->
  scanstring (concat (map escape_char s) ++ 34 :: rest) = Scanned s rest.
Proof.
  intros [Hs Hpair]. induction s as [| c s' IH]; [done |].
  apply Forall_cons in Hs as [Hc Hs']. destruct Hpair as [Hhead Hpair'].
  specialize (IH Hs' Hpair').
  change (concat (map escape_char (c :: s')) ++ 34 :: rest)
    with ((escape_char c ++ concat (map escape_char s')) ++ 34 :: rest).
  rewrite <- app_assoc.
  set (tail := concat (map escape_char s') ++ 34 :: rest) in *.
  destruct (escape_char_cases c Hc)
    as [(-> & H34 & H92 & H32)
       | [(e & -> & He & Hb)
         | [(h1 & h2 & h3 & h4 & -> & Hd)
           | (h1 & h2 & h3 & h4 & l1 & l2 & l3 & l4 & hi & lo & -> & Hd & Hd' & Hh & Hl & Hj)]]].
  - simpl. rewrite H34, H92, H32, IH. done.
  - simpl. rewrite He, Hb, IH. done.
  - simpl. rewrite Hd.
    destruct (is_high_surrogate c && starts_backslash_u tail) eqn:Hlook;
      [| by rewrite IH].
    apply andb_true_iff in Hlook as [Hhigh Hbu].
    destruct (escaped_lookahead s' rest Hs') as (l1 & l2 & l3 & l4 & r3 & u2 & Et & Hd' & Hlow).
    + destruct s' as [| b s'']; [done |]. rewrite Hhigh in Hhead. done.
    + done.
    + fold tail in Et. rewrite Et in *. rewrite Hd', Hlow, IH. done.
  - simpl. rewrite Hd, Hh. simpl. rewrite Hd', Hl, IH, Hj. done.
Qed.

(** ** Integers: what [int.__repr__] writes [int] reads back *)

Lemma digits_of_uint_digits (u : Decimal.uint) :
  Forall (fun c => is_digit c = true) (digits_of_uint u).
Proof. induction u; simpl; constructor; done. Qed.

Lemma uint_of_digits_of_uint (u : Decimal.uint) :
  uint_of_digits (digits_of_uint u) = u.
Proof. induction u; simpl; by rewrite ?IHu. Qed.

Lemma ends_value_not_number (rest : pystr) :
  ends_value rest ->
  span_digits rest = ([], rest) /\ match_frac rest = ([], rest)
  /\ match_exp rest = ([], rest).
Proof.
  destruct rest as [| c r]; [done |].
  intros [-> | [-> | [-> | ->]]]; done.
Qed.

Lemma span_digits_app (ds rest : pystr) :
  Forall (fun c => is_digit c = true) ds ->
  span_digits rest = ([], rest) ->
  span_digits (ds ++ rest) = (ds, rest).
Proof.
  intros Hds Hrest. induction Hds as [| c ds Hc _ IH]; simpl; [done |].
  by rewrite Hc, IH.
Qed.

(** The decimal digits of a positive number start with a digit that is
    not zero. *)
Lemma to_uint_leading (p : positive) :
  exists c ds, digits_of_uint (Pos.to_uint p) = c :: ds
    /\ is_digit c = true /\ (c =? 48) = false.
Proof.
  pose proof (DecimalPos.Unsigned.to_uint_nonzero p) as Hnz.
  pose proof (DecimalPos.Unsigned.to_uint_nonnil p) as Hnn.
  assert (Hnorm : Decimal.unorm (Pos.to_uint p) = Pos.to_uint p).
  { rewrite <- (DecimalN.Unsigned.to_of (Pos.to_uint p)).
    change (Pos.to_uint p) with (N.to_uint (Npos p)) at 1.
    by rewrite DecimalN.Unsigned.of_to. }
  destruct (Pos.to_uint p) as [| u | u | u | u | u | u | u | u | u | u];
    [done | | by do 2 eexists ..].
  exfalso. rewrite DecimalFacts.unorm_D0 in Hnorm.
  destruct (Decimal.uint_eq_dec u Decimal.Nil) as [-> | Hu]; [done |].
  pose proof (DecimalFacts.nb_digits_unorm u Hu) as Hle.
  rewrite Hnorm in Hle. simpl in Hle. lia.
Qed.

Lemma int_repr_shape (z : Z) (rest : pystr) :
  span_digits rest = ([], rest) ->
  exists c ds, int_repr z = c :: ds
    /\ (is_digit c = true \/ c = 45)
    /\ match_integer (int_repr z ++ rest) = Some (int_repr z, rest)
    /\ parse_int (int_repr z) = z.
Proof.
  intros Hrest. destruct z as [| p | p]; simpl.
  - exists 48, []. repeat split; auto.
  - destruct (to_uint_leading p) as (c & ds & E & Hc & H48).
    pose proof (digits_of_uint_digits (Pos.to_uint p)) as Hds.
    exists c, ds. rewrite E in *. apply Forall_cons in Hds as [_ Hds].
    assert (H45 : (c =? 45) = false).
    { unfold is_digit in Hc. revert Hc. cmp. }
    repeat split; auto.
    + unfold match_integer. simpl. rewrite H45, H48, Hc.
      by rewrite (span_digits_app _ _ Hds Hrest).
    + unfold parse_int. rewrite H45, <- E, uint_of_digits_of_uint.
      change (Pos.to_uint p) with (N.to_uint (Npos p)).
      by rewrite DecimalN.Unsigned.of_to.
  - destruct (to_uint_leading p) as (c & ds & E & Hc & H48).
    pose proof (digits_of_uint_digits (Pos.to_uint p)) as Hds.
    exists 45, (digits_of_uint (Pos.to_uint p)).
    rewrite E in *. apply Forall_cons in Hds as [_ Hds].
    repeat split; auto.
    + unfold match_integer. simpl. rewrite H48, Hc.
      by rewrite (span_digits_app _ _ Hds Hrest).
    + change (parse_int (45 :: c :: ds))
        with (Z.opp (Z.of_N (N.of_uint (uint_of_digits (c :: ds))))).
      rewrite <- E, uint_of_digits_of_uint.
      change (Pos.to_uint p) with (N.to_uint (Npos p)).
      by rewrite DecimalN.Unsigned.of_to.
Qed.

Lemma strip_prefix_head (a : N) (w : pystr) (c : N) (r : pystr) :
  (c =? a) = false -> strip_prefix (a :: w) (c :: r) = None.
Proof. intros H. cbn [strip_prefix]. by rewrite N.eqb_sym, H. Qed.

(** [scan_once] on a text that starts neither a string, nor a container,
    nor a constant, and starts with an integer. *)
Lemma scan_once_integer (n : nat) (c : N) (r integer rest : pystr) :
  (c =? 34) = false -> (c =? 123) = false -> (c =? 91) = false ->
  (c =? 110) = false -> (c =? 116) = false -> (c =? 102) = false ->
  match_number (c :: r) = Some (integer, [], [], rest) ->
  scan_once (S n) (c :: r) = Scanned (PInt (parse_int integer)) rest.
Proof.
  intros H34 H123 H91 Hn Ht Hf Hnum. cbn [scan_once].
  rewrite H34, H123, H91, Hnum.
  change (py "null") with (110 :: py "ull").
  change (py "true") with (116 :: py "rue").
  change (py "false") with (102 :: py "alse").
  by rewrite !strip_prefix_head.
Qed.

Lemma scan_int (n : nat) (z : Z) (rest : pystr) :
  ends_value rest ->
  scan_once (S n) (int_repr z ++ rest) = Scanned (PInt z) rest.
Proof.
  intros Hrest.
  destruct (ends_value_not_number rest Hrest) as (Hspan & Hfrac & Hexp).
  destruct (int_repr_shape z rest Hspan) as (c & ds & E & Hc & Hm & Hp).
  assert (Hnum : match_number (int_repr z ++ rest) = Some (int_repr z, [], [], rest)).
  { unfold match_number. by rewrite Hm, Hfrac, Hexp. }
  rewrite <- Hp at 2. revert Hnum Hc. rewrite E. intros Hnum Hc.
  apply scan_once_integer; try done;
    destruct Hc as [Hc | ->]; try done; unfold is_digit in Hc; revert Hc; cmp.
Qed.

(** ** Containers *)

(** Induction on values, through the items of lists and dictionaries. *)
Lemma pyval_induction (P : pyval -> Prop) :
  P PNone -> (forall b, P (PBool b)) -> (forall z, P (PInt z)) ->
  (forall f, P (PFloat f)) -> (forall s, P (PStr s)) ->
  (forall l, Forall P l -> P (PList l)) ->
  (forall d, Forall (fun kv => P kv.2) d -> P (PDict d)) ->
  forall v, P v.
Proof.
  intros Hnone Hbool Hint Hfloat Hstr Hlist Hdict.
  fix IH 1. intros [| b | z | f | s | l | d].
  - exact Hnone.
  - apply Hbool.
  - apply Hint.
  - apply Hfloat.
  - apply Hstr.
  - apply Hlist. induction l as [| x l IHl]; constructor; [apply IH | exact IHl].
  - apply Hdict. induction d as [| [k x] d IHd]; constructor; [apply IH | exact IHd].
Qed.

Lemma foldr_and_Forall {A} (P : A -> Prop) (l : list A) :
  foldr (fun x acc => P x /\ acc) True l <-> Forall P l.
Proof.
  induction l as [| x l IH]; simpl.
  - split; [constructor | done].
  - rewrite Forall_cons, IH. done.
Qed.

(** A text [scan_once] reads a value from starts with a character that is
    neither white space nor a closing bracket. *)
Lemma scanned_head (n : nat) (s : pystr) (v : pyval) (rest : pystr) :
  scan_once n s = Scanned v rest ->
  exists c r, s = c :: r /\ is_ws c = false /\ (c =? 93) = false.
Proof.
  destruct n as [| n]; [done |]. destruct s as [| c r]; [done |].
  intros H. exists c, r. split; [done |].
  destruct (is_ws c) eqn:Hws.
  { exfalso. unfold is_ws in Hws.
    repeat (apply orb_true_iff in Hws as [Hws | Hws]);
      apply N.eqb_eq in Hws; subst c; simpl in H; done. }
  split; [done |].
  destruct (N.eqb_spec c 93) as [-> | Hne]; [| done].
  simpl in H. done.
Qed.

Lemma skip_ws_head (c : N) (r : pystr) :
  is_ws c = false -> skip_ws (c :: r) = c :: r.
Proof. intros H. simpl. by rewrite H. Qed.

Lemma skip_ws_newline_indent (indent : bool) (level : nat) (s : pystr) :
  skip_ws (newline_indent indent level ++ s) = skip_ws s.
Proof.
  unfold newline_indent. destruct indent; [| done].
  simpl. induction (level + (level + 0))%nat as [| k IH]; simpl; done.
Qed.

Lemma skip_ws_key_separator (indent : bool) (s : pystr) :
  skip_ws (key_separator indent ++ s) = 58 :: (if indent then 32 :: s else s).
Proof. by destruct indent. Qed.

(** *** Sorting the items of a dictionary *)

Lemma insert_item_perm {A} (kv : pystr * A) (l : list (pystr * A)) :
  insert_item kv l ≡ₚ kv :: l.
Proof.
  induction l as [| kv' l IH]; simpl; [done |].
  destruct (str_le kv.1 kv'.1); [done |].
  rewrite IH. apply perm_swap.
Qed.

Lemma sorted_items_perm {A} (l : list (pystr * A)) : sorted_items l ≡ₚ l.
Proof.
  induction l as [| kv l IH]; simpl; [done |].
  rewrite insert_item_perm. by constructor.
Qed.

Lemma insert_item_map {A B} (g : A -> B) (kv : pystr * A) (l : list (pystr * A)) :
  insert_item (kv.1, g kv.2) (map (fun x => (x.1, g x.2)) l)
  = map (fun x => (x.1, g x.2)) (insert_item kv l).
Proof.
  induction l as [| kv' l IH]; simpl; [done |].
  destruct (str_le kv.1 kv'.1); simpl; [done |]. by rewrite IH.
Qed.

Lemma sorted_items_map {A B} (g : A -> B) (l : list (pystr * A)) :
  sorted_items (map (fun x => (x.1, g x.2)) l)
  = map (fun x => (x.1, g x.2)) (sorted_items l).
Proof.
  induction l as [| kv l IH]; simpl; [done |].
  unfold sorted_items in *. rewrite IH. apply insert_item_map.
Qed.

(** *** [dict] on pairs whose keys differ *)

Lemma dict_set_new (d : list (pystr * pyval)) (k : pystr) (v : pyval) :
  k ∉ map fst d -> dict_set d k v = d ++ [(k, v)].
Proof.
  induction d as [| [k' v'] d IH]; simpl; [done |].
  rewrite not_elem_of_cons. intros [Hne Hnotin].
  rewrite decide_False by done. by rewrite IH.
Qed.

Lemma dict_of_pairs_distinct (pairs : list (pystr * pyval)) :
  NoDup (map fst pairs) -> dict_of_pairs pairs = pairs.
Proof.
  unfold dict_of_pairs.
  assert (Hgen : forall acc, NoDup (map fst (acc ++ pairs)) ->
    foldl (fun d kv => dict_set d kv.1 kv.2) acc pairs = acc ++ pairs).
  { induction pairs as [| [k v] pairs IH]; intros acc Hnd; simpl.
    - by rewrite app_nil_r.
    - rewrite dict_set_new.
      + rewrite IH; rewrite <- app_assoc; done.
      + rewrite map_app in Hnd. apply NoDup_app in Hnd as (_ & Hdisj & _).
        intros Hin. apply (Hdisj k Hin). simpl. left. }
  intros Hnd. by rewrite (Hgen []).
Qed.

(** *** The loops of the decoder on what the encoder joined *)

Lemma scan_once_string (n : nat) (r : pystr) :
  scan_once (S n) (34 :: r) = scan_map PStr (scanstring r).
Proof. reflexivity. Qed.

Lemma scan_once_array (n : nat) (r : pystr) :
  scan_once (S n) (91 :: r) =
    match skip_ws r with
    | c :: r1 =>
        if c =? 93 then Scanned (PList []) r1
        else scan_map PList (array_items n (c :: r1))
    | [] => Malformed
    end.
Proof. reflexivity. Qed.

Lemma scan_once_object (n : nat) (r : pystr) :
  scan_once (S n) (123 :: r) =
    match skip_ws r with
    | c :: r1 =>
        if c =? 125 then Scanned (PDict []) r1
        else if c =? 34 then
          scan_map (fun pairs => PDict (dict_of_pairs pairs)) (object_items n r1)
        else Malformed
    | [] => Malformed
    end.
Proof. reflexivity. Qed.

Lemma reads_as_head (text : pystr) (v : pyval) :
  reads_as text v ->
  exists c r, text = c :: r /\ is_ws c = false /\ (c =? 93) = false.
Proof.
  intros H. destruct (H [] I) as [n0 Hn0].
  specialize (Hn0 n0 (le_n _)). rewrite app_nil_r in Hn0.
  by apply scanned_head in Hn0.
Qed.

Lemma skip_ws_reads_as (text : pystr) (v : pyval) (rest : pystr) :
  reads_as text v -> skip_ws (text ++ rest) = text ++ rest.
Proof.
  intros H. destruct (reads_as_head _ _ H) as (c & r & -> & Hws & _).
  simpl. by rewrite Hws.
Qed.

Lemma ends_value_closing (indent : bool) (level : nat) (c : N) (rest : pystr) :
  c = 93 \/ c = 125 -> ends_value (newline_indent indent level ++ c :: rest).
Proof. destruct indent; simpl; intros [-> | ->]; auto. Qed.

Section Loops.
Variables (indent : bool) (level : nat).
Variables (enc : pyval -> pystr) (g : pyval -> pyval).

(** The items of an array after the first. *)
Let more_items (l : list pyval) : pystr :=
  concat (map (fun y => 44 :: newline_indent indent (S level) ++ y) (map enc l)).

Lemma array_items_encoded (l : list pyval) :
  Forall (fun x => reads_as (enc x) (g x)) l ->
  forall x, reads_as (enc x) (g x) ->
  forall rest, exists n0, forall n, (n0 <= n)%nat ->
    array_items n
      (enc x ++ more_items l ++ newline_indent indent level ++ 93 :: rest)
    = Scanned (g x :: map g l) rest.
Proof.
  induction 1 as [| y l Hy Hl IH]; intros x Hx rest.
  - destruct (Hx (newline_indent indent level ++ 93 :: rest)) as [n0 Hn0].
    { apply ends_value_closing. by left. }
    exists (S n0). intros [| n] Hn; [lia |].
    cbn [array_items]. unfold more_items. simpl.
    rewrite Hn0 by lia. rewrite skip_ws_newline_indent. done.
  - set (tail := more_items l ++ newline_indent indent level ++ 93 :: rest).
    destruct (IH y Hy rest) as [n1 Hn1]. fold tail in Hn1.
    assert (Etext : enc x ++ more_items (y :: l)
                      ++ newline_indent indent level ++ 93 :: rest
                    = enc x ++ 44 :: newline_indent indent (S level) ++ enc y ++ tail).
    { unfold more_items, tail. simpl. by rewrite <- !app_assoc. }
    rewrite Etext.
    destruct (Hx (44 :: newline_indent indent (S level) ++ enc y ++ tail))
      as [n0 Hn0]; [simpl; auto |].
    exists (S (n0 `max` n1)). intros [| n] Hn; [lia |].
    cbn [array_items]. rewrite Hn0 by lia.
    rewrite skip_ws_head by done.
    change (44 =? 93) with false. change (44 =? 44) with true. cbv iota.
    rewrite skip_ws_newline_indent, (skip_ws_reads_as _ _ _ Hy).
    rewrite Hn1 by lia. done.
Qed.

(** An item of an object without the opening quote of its key. *)
Let item (kv : pystr * pyval) : pystr :=
  concat (map escape_char kv.1) ++ 34 :: key_separator indent ++ enc kv.2.

Let more_pairs (d : list (pystr * pyval)) : pystr :=
  concat (map (fun y => 44 :: newline_indent indent (S level) ++ y)
            (map (fun kv => 34 :: item kv) d)).

Lemma object_items_encoded (d : list (pystr * pyval)) :
  Forall (fun kv => str_ok kv.1 /\ reads_as (enc kv.2) (g kv.2)) d ->
  forall kv, str_ok kv.1 -> reads_as (enc kv.2) (g kv.2) ->
  forall rest, exists n0, forall n, (n0 <= n)%nat ->
    object_items n
      (item kv ++ more_pairs d ++ newline_indent indent level ++ 125 :: rest)
    = Scanned ((kv.1, g kv.2) :: map (fun kv => (kv.1, g kv.2)) d) rest.
Proof.
  induction 1 as [| kv' d [Hk' Hv'] Hd IH]; intros kv Hk Hv rest.
  - destruct (Hv (newline_indent indent level ++ 125 :: rest)) as [n0 Hn0].
    { apply ends_value_closing. by right. }
    exists (S n0). intros [| n] Hn; [lia |].
    assert (Etext : item kv ++ more_pairs []
                      ++ newline_indent indent level ++ 125 :: rest
                    = concat (map escape_char kv.1) ++ 34 :: key_separator indent
                        ++ enc kv.2 ++ newline_indent indent level ++ 125 :: rest).
    { repeat (progress (unfold item, more_pairs; simpl; rewrite <- ?app_assoc)).
      reflexivity. }
    rewrite Etext. cbn [object_items].
    rewrite (scan_escaped _ _ Hk), skip_ws_key_separator.
    change (58 =? 58) with true. cbv iota.
    assert (Eskip : forall s, skip_ws (if indent then 32 :: enc kv.2 ++ s else enc kv.2 ++ s)
                              = enc kv.2 ++ s).
    { intros s. destruct indent; simpl; apply (skip_ws_reads_as _ _ _ Hv). }
    rewrite Eskip, Hn0 by lia. rewrite skip_ws_newline_indent. done.
  - set (tail := more_pairs d ++ newline_indent indent level ++ 125 :: rest).
    destruct (IH kv' Hk' Hv' rest) as [n1 Hn1]. fold tail in Hn1.
    assert (Etext : item kv ++ more_pairs (kv' :: d)
                      ++ newline_indent indent level ++ 125 :: rest
                    = concat (map escape_char kv.1) ++ 34 :: key_separator indent
                        ++ enc kv.2
                        ++ 44 :: newline_indent indent (S level)
                        ++ 34 :: item kv' ++ tail).
    { repeat (progress (unfold item, more_pairs, tail; simpl; rewrite <- ?app_assoc)).
      reflexivity. }
    rewrite Etext.
    destruct (Hv (44 :: newline_indent indent (S level) ++ 34 :: item kv' ++ tail))
      as [n0 Hn0]; [simpl; auto |].
    exists (S (n0 `max` n1)). intros [| n] Hn; [lia |].
    cbn [object_items].
    rewrite (scan_escaped _ _ Hk), skip_ws_key_separator.
    change (58 =? 58) with true. cbv iota.
    assert (Eskip : forall s, skip_ws (if indent then 32 :: enc kv.2 ++ s else enc kv.2 ++ s)
                              = enc kv.2 ++ s).
    { intros s. destruct indent; simpl; apply (skip_ws_reads_as _ _ _ Hv). }
    rewrite Eskip, Hn0 by lia.
    rewrite skip_ws_head by done.
    change (44 =? 125) with false. change (44 =? 44) with true. cbv iota.
    rewrite skip_ws_newline_indent, skip_ws_head by done.
    change (34 =? 34) with true. cbv iota.
    rewrite Hn1 by lia. done.
Qed.
End Loops.

Lemma scan_once_array_items (n : nat) (s body : pystr) :
  skip_ws s = body ->
  (exists c r, body = c :: r /\ is_ws c = false /\ (c =? 93) = false) ->
  scan_once (S n) (91 :: s) = scan_map PList (array_items n body).
Proof.
  intros Hskip (c & r & -> & _ & H93). by rewrite scan_once_array, Hskip, H93.
Qed.

Lemma scan_once_object_items (n : nat) (s r1 : pystr) :
  skip_ws s = 34 :: r1 ->
  scan_once (S n) (123 :: s) =
    scan_map (fun pairs => PDict (dict_of_pairs pairs)) (object_items n r1).
Proof. intros Hskip. by rewrite scan_once_object, Hskip. Qed.

Lemma decoded_list (l : list pyval) : decoded (PList l) <-> Forall decoded l.
Proof. apply foldr_and_Forall. Qed.

Lemma floats_read_back_list (l : list pyval) :
  floats_read_back (PList l) <-> Forall floats_read_back l.
Proof. apply foldr_and_Forall. Qed.

Lemma decoded_dict (d : list (pystr * pyval)) :
  decoded (PDict d) <->
  NoDup (map fst d) /\ Forall (fun kv => str_ok kv.1 /\ decoded kv.2) d.
Proof.
  simpl. by rewrite (foldr_and_Forall (fun kv => str_ok kv.1 /\ decoded kv.2)).
Qed.

Lemma floats_read_back_dict (d : list (pystr * pyval)) :
  floats_read_back (PDict d) <-> Forall (fun kv => floats_read_back kv.2) d.
Proof. apply (foldr_and_Forall (fun kv => floats_read_back kv.2)). Qed.

(** The decoder reads back what the encoder writes: the value, with the
    items of its dictionaries in the order of their keys. *)
Lemma scan_encoded (v : pyval) :
  decoded v -> floats_read_back v ->
  forall (indent : bool) (level : nat),
    reads_as (iterencode indent level v) (sort_keys v).
Proof.
  induction v as [| b | z | f | s | l IH | d IH] using pyval_induction;
    intros Hdec Hflt indent level rest Hrest.
  - exists 1%nat. intros [| n] Hn; [lia | reflexivity].
  - exists 1%nat. intros [| n] Hn; [lia |]. by destruct b.
  - exists 1%nat. intros [| n] Hn; [lia |]. by apply scan_int.
  - exists 1%nat. intros [| n] Hn; [lia |]. by apply Hflt.
  - exists 1%nat. intros [| n] Hn; [lia |].
    cbn [iterencode]. unfold encode_basestring_ascii.
    rewrite <- !app_assoc. cbn [app]. rewrite scan_once_string.
    by rewrite (scan_escaped _ _ Hdec).
  - apply decoded_list in Hdec. apply floats_read_back_list in Hflt.
    assert (Hall : Forall (fun x => reads_as (iterencode indent (S level) x) (sort_keys x)) l).
    { rewrite Forall_forall in *. intros x Hx. apply IH; auto. }
    clear IH Hdec Hflt.
    destruct Hall as [| x l Hx Hl].
    + exists 1%nat. intros [| n] Hn; [lia | reflexivity].
    + destruct (array_items_encoded indent level _ _ l Hl x Hx rest) as [n0 Hn0].
      exists (S n0). intros [| n] Hn; [lia |].
      cbn [iterencode]. unfold join_items. cbn [map].
      assert (Etext : ([91] ++ (newline_indent indent (S level)
                          ++ iterencode indent (S level) x
                          ++ concat (map (fun y => 44 :: newline_indent indent (S level) ++ y)
                                       (map (iterencode indent (S level)) l))
                          ++ newline_indent indent level) ++ [93]) ++ rest
                      = 91 :: newline_indent indent (S level)
                          ++ iterencode indent (S level) x
                          ++ concat (map (fun y => 44 :: newline_indent indent (S level) ++ y)
                                       (map (iterencode indent (S level)) l))
                          ++ newline_indent indent level ++ 93 :: rest).
      { simpl. f_equal. by rewrite <- !app_assoc. }
      rewrite Etext.
      match goal with
      | |- scan_once _ (91 :: newline_indent _ _ ++ ?body) = _ =>
          rewrite (scan_once_array_items n _ body)
      end.
      * rewrite Hn0 by lia. done.
      * by rewrite skip_ws_newline_indent, (skip_ws_reads_as _ _ _ Hx).
      * destruct (reads_as_head _ _ Hx) as (c & r & -> & Hc). by eexists c, _.
  - apply decoded_dict in Hdec as [Hnd Hdec]. apply floats_read_back_dict in Hflt.
    set (enc := iterencode indent (S level)).
    assert (Hall : Forall (fun kv => str_ok kv.1 /\ reads_as (enc kv.2) (sort_keys kv.2))
                     (sorted_items d)).
    { rewrite sorted_items_perm. rewrite Forall_forall in *.
      intros kv Hkv. split; [by apply Hdec |]. apply IH; auto. by apply Hdec. }
    assert (Hkeys : NoDup (map fst (map (fun kv : pystr * pyval => (kv.1, sort_keys kv.2))
                                      (sorted_items d)))).
    { rewrite map_map. simpl. change (map (fun x : pystr * pyval => x.1)) with (map (@fst pystr pyval)).
      by rewrite sorted_items_perm. }
    cbn [iterencode sort_keys]. fold enc.
    rewrite !sorted_items_map in *. rewrite map_map.
    match goal with
    | |- context [join_items indent level (map ?F ?l)] =>
        rewrite (map_ext F
                   (fun kv0 : pystr * pyval =>
                      34 :: (concat (map escape_char kv0.1)
                               ++ 34 :: key_separator indent ++ enc kv0.2)))
          by (intros kv0; unfold encode_basestring_ascii; simpl;
              by rewrite <- !app_assoc)
    end.
    clear IH Hdec Hflt Hnd.
    destruct Hall as [| kv sd [Hk Hv] Hsd].
    + exists 1%nat. intros [| n] Hn; [lia | reflexivity].
    + destruct (object_items_encoded indent level enc sort_keys sd Hsd kv Hk Hv rest)
        as [n0 Hn0].
      exists (S n0). intros [| n] Hn; [lia |].
      unfold join_items. cbn [map].
      repeat (rewrite <- ?app_assoc; cbn [app]).
      assert (Hskip : forall r, skip_ws (newline_indent indent (S level) ++ 34 :: r)
                                = 34 :: r)
        by (intros r; by rewrite skip_ws_newline_indent).
      rewrite (scan_once_object_items n _ _ (Hskip _)).
      repeat (rewrite <- ?app_assoc in Hn0; cbn [app] in Hn0).
      rewrite Hn0 by lia. cbn [scan_map].
      by rewrite dict_of_pairs_distinct.
Qed.

(** ** The scanners consume what they read *)

Lemma leaves_cons (c : N) (s r : pystr) : r `suffix_of` s -> leaves (c :: s) r.
Proof.
  intros H. split; [| by apply suffix_cons_r].
  apply suffix_length in H. simpl. lia.
Qed.

Lemma leaves_suffix_l (s s' r : pystr) : leaves s' r -> s' `suffix_of` s -> leaves s r.
Proof.
  intros [Hl Hs] H. split; [| by etrans].
  apply suffix_length in H. lia.
Qed.

Lemma leaves_suffix_r (s r' r : pystr) : r `suffix_of` r' -> leaves s r' -> leaves s r.
Proof.
  intros H [Hl Hs]. split; [| by etrans].
  apply suffix_length in H. lia.
Qed.

Lemma leaves_suffix (s r : pystr) : leaves s r -> r `suffix_of` s.
Proof. by intros [_ ?]. Qed.

Lemma scan_map_scanned {A B} (f : A -> B) (x : scan A) (b : B) (r : pystr) :
  scan_map f x = Scanned b r -> exists a, x = Scanned a r /\ b = f a.
Proof. destruct x; simpl; intros; simplify_eq. by eexists. Qed.

Lemma skip_ws_suffix (s : pystr) : skip_ws s `suffix_of` s.
Proof.
  induction s as [| c s IH]; simpl; [done |].
  destruct (is_ws c); [by apply suffix_cons_r | done].
Qed.

Lemma skip_ws_cons (s : pystr) (c : N) (r : pystr) :
  skip_ws s = c :: r -> leaves s r.
Proof.
  intros H. pose proof (skip_ws_suffix s) as Hs. rewrite H in Hs.
  apply leaves_suffix_l with (c :: r); [| done]. by apply leaves_cons.
Qed.

Lemma strip_prefix_app (w s r : pystr) :
  strip_prefix w s = Some r -> s = w ++ r.
Proof.
  revert s. induction w as [| a w IH]; intros [| b s] H; simpl in *;
    simplify_eq; try done.
  destruct (N.eqb_spec a b) as [-> | _]; [| done]. f_equal. by apply IH.
Qed.

Lemma strip_prefix_leaves (a : N) (w s r : pystr) :
  strip_prefix (a :: w) s = Some r -> leaves s r.
Proof.
  intros H. apply strip_prefix_app in H as ->. simpl.
  apply leaves_cons. by apply suffix_app_r.
Qed.

Lemma span_digits_app_eq (s ds r : pystr) :
  span_digits s = (ds, r) -> s = ds ++ r.
Proof.
  revert ds r. induction s as [| c s IH]; intros ds r H; simpl in H.
  - by simplify_eq.
  - destruct (is_digit c); [| by simplify_eq].
    destruct (span_digits s) as [ds' r'] eqn:E. simplify_eq.
    simpl. f_equal. by apply IH.
Qed.

Lemma span_digits_suffix (s ds r : pystr) :
  span_digits s = (ds, r) -> r `suffix_of` s.
Proof. intros H. apply span_digits_app_eq in H as ->. by apply suffix_app_r. Qed.

Lemma match_integer_leaves (s integer r : pystr) :
  match_integer s = Some (integer, r) -> leaves s r.
Proof.
  unfold match_integer.
  assert (Hgen : forall sign s1,
    match s1 with
    | c :: r0 =>
        if c =? 48 then Some (sign ++ [48], r0)
        else if is_digit c then
          let '(ds, rest) := span_digits r0 in Some (sign ++ c :: ds, rest)
        else None
    | [] => None
    end = Some (integer, r) -> leaves s1 r).
  { intros sign [| c r0] Hm; [done |].
    destruct (c =? 48).
    - simplify_eq. by apply leaves_cons.
    - destruct (is_digit c); [| done].
      destruct (span_digits r0) as [ds rest] eqn:E. simplify_eq.
      apply leaves_cons. by apply span_digits_suffix in E. }
  destruct s as [| c r0]; [done |].
  destruct (c =? 45); intros H.
  - apply (Hgen [45] r0) in H.
    apply leaves_suffix_l with r0; [done | by apply suffix_cons_r].
  - by apply (Hgen [] (c :: r0)) in H.
Qed.

Lemma match_frac_suffix (s frac r : pystr) :
  match_frac s = (frac, r) -> r `suffix_of` s.
Proof.
  unfold match_frac. destruct s as [| c r0]; [by intros; simplify_eq |].
  destruct (c =? 46); [| by intros; simplify_eq].
  destruct (span_digits r0) as [[| d ds] rest] eqn:E; intros; simplify_eq; [done |].
  apply suffix_cons_r. by apply span_digits_suffix in E.
Qed.

Lemma match_exp_suffix (s e r : pystr) :
  match_exp s = (e, r) -> r `suffix_of` s.
Proof.
  unfold match_exp. destruct s as [| c r0]; [by intros; simplify_eq |].
  destruct ((c =? 101) || (c =? 69)); [| by intros; simplify_eq].
  assert (Hsign : forall sign r1, r1 `suffix_of` r0 ->
    match span_digits r1 with
    | ([], _) => ([], c :: r0)
    | (ds, rest) => (c :: sign ++ ds, rest)
    end = (e, r) -> r `suffix_of` c :: r0).
  { intros sign r1 Hr1.
    destruct (span_digits r1) as [[| d ds] rest] eqn:E; intros; simplify_eq; [done |].
    apply suffix_cons_r. etrans; [| exact Hr1]. by apply span_digits_suffix in E. }
  destruct r0 as [| g r']; [by apply (Hsign [] []) |].
  destruct ((g =? 45) || (g =? 43)).
  - apply (Hsign [g] r'). by apply suffix_cons_r.
  - by apply (Hsign [] (g :: r')).
Qed.

Lemma match_number_leaves (s integer frac e r : pystr) :
  match_number s = Some (integer, frac, e, r) -> leaves s r.
Proof.
  unfold match_number.
  destruct (match_integer s) as [[i s1] |] eqn:Ei; [| done].
  destruct (match_frac s1) as [f s2] eqn:Ef.
  destruct (match_exp s2) as [x s3] eqn:Ex. intros; simplify_eq.
  apply match_integer_leaves in Ei. apply match_frac_suffix in Ef.
  apply match_exp_suffix in Ex.
  eapply leaves_suffix_r; [| exact Ei]. by etrans.
Qed.

Lemma scanstring_leaves (n : nat) :
  forall s str r, (length s <= n)%nat -> scanstring s = Scanned str r -> leaves s r.
Proof.
  induction n as [| n IH]; intros s str r Hlen.
  { destruct s; [done | simpl in Hlen; lia]. }
  assert (Hrec : forall (k : pystr) (s' : pystr) (x : N) ,
    s = k ++ s' -> k <> [] ->
    scan_map (cons x) (scanstring s') = Scanned str r -> leaves s r).
  { intros k s' x -> Hk Hs'. apply scan_map_scanned in Hs' as (str' & Hs' & _).
    destruct k as [| c0 k]; [done |].
    rewrite length_app in *. cbn [length] in *.
    apply IH in Hs' as [? ?]; [| lia]. split.
    - rewrite length_app. simpl. lia.
    - by apply suffix_app_r. }
  intros H. destruct s as [| c s1]; [done |]. cbn [scanstring] in H.
  destruct (c =? 34).
  { simplify_eq. by apply leaves_cons. }
  destruct (c =? 92).
  - destruct s1 as [| esc r1]; [done |].
    destruct (esc =? 117).
    + destruct r1 as [| h1 [| h2 [| h3 [| h4 r2]]]]; try done.
      destruct (decode_uXXXX h1 h2 h3 h4) as [uni |]; [| done].
      destruct (is_high_surrogate uni && starts_backslash_u r2).
      * destruct r2 as [| b [| u [| l1 [| l2 [| l3 [| l4 r3]]]]]]; try done.
        destruct (decode_uXXXX l1 l2 l3 l4) as [uni2 |]; [| done].
        destruct (is_low_surrogate uni2).
        -- by apply (Hrec [c; esc; h1; h2; h3; h4; b; u; l1; l2; l3; l4] r3) in H.
        -- by apply (Hrec [c; esc; h1; h2; h3; h4] (b :: u :: l1 :: l2 :: l3 :: l4 :: r3)) in H.
      * by apply (Hrec [c; esc; h1; h2; h3; h4] r2) in H.
    + destruct (backslash esc) as [ch |]; [| done].
      by apply (Hrec [c; esc] r1) in H.
  - destruct (c <? 32); [done |].
    by apply (Hrec [c] s1) in H.
Qed.

Lemma scanstring_leaves' (s str r : pystr) :
  scanstring s = Scanned str r -> leaves s r.
Proof. by apply (scanstring_leaves (length s)). Qed.

Lemma leaves_trans (s s' r : pystr) : leaves s s' -> leaves s' r -> leaves s r.
Proof. intros H [_ H']. by apply leaves_suffix_r with s'. Qed.

Lemma leaves_skip_ws (s r : pystr) : leaves (skip_ws s) r -> leaves s r.
Proof. intros H. apply leaves_suffix_l with (skip_ws s); [done | apply skip_ws_suffix]. Qed.

Lemma scan_map_not_exhausted {A B} (f : A -> B) (x : scan A) :
  scan_map f x <> Exhausted -> x <> Exhausted.
Proof. by destruct x. Qed.

(** What [scan_once] and the two loops leave of a text is shorter than the
    text. *)
Lemma scanners_leave (n : nat) :
  (forall s v r, scan_once n s = Scanned v r -> leaves s r)
  /\ (forall s l r, array_items n s = Scanned l r -> leaves s r)
  /\ (forall s l r, object_items n s = Scanned l r -> leaves s r).
Proof.
  induction n as [| n (IHv & IHa & IHo)]; [done |]. split; [| split].
  - intros s v r H. cbn [scan_once] in H.
    destruct s as [| c s1]; [done |].
    destruct (c =? 34).
    { apply scan_map_scanned in H as (str & H & _).
      apply scanstring_leaves' in H. apply leaves_cons, H. }
    destruct (c =? 123).
    { destruct (skip_ws s1) as [| c' r1] eqn:Esk; [done |].
      apply skip_ws_cons in Esk.
      destruct (c' =? 125); [simplify_eq; apply leaves_cons, Esk |].
      destruct (c' =? 34); [| done].
      apply scan_map_scanned in H as (pairs & H & _). apply IHo in H.
      apply leaves_cons. by apply (leaves_trans _ _ _ Esk). }
    destruct (c =? 91).
    { destruct (skip_ws s1) as [| c' r1] eqn:Esk; [done |].
      destruct (c' =? 93).
      - simplify_eq. apply skip_ws_cons in Esk. apply leaves_cons, Esk.
      - apply scan_map_scanned in H as (l & H & _). apply IHa in H.
        rewrite <- Esk in H. apply leaves_cons, leaves_skip_ws, H. }
    destruct (strip_prefix (py "null") (c :: s1)) eqn:E1.
    { simplify_eq. by apply strip_prefix_leaves in E1. }
    destruct (strip_prefix (py "true") (c :: s1)) eqn:E2.
    { simplify_eq. by apply strip_prefix_leaves in E2. }
    destruct (strip_prefix (py "false") (c :: s1)) eqn:E3.
    { simplify_eq. by apply strip_prefix_leaves in E3. }
    destruct (match_number (c :: s1)) as [[[[integer frac] e] rest] |] eqn:En.
    { apply match_number_leaves in En. destruct frac, e; by simplify_eq. }
    destruct (strip_prefix (py "NaN") (c :: s1)) eqn:E4.
    { simplify_eq. by apply strip_prefix_leaves in E4. }
    destruct (strip_prefix (py "Infinity") (c :: s1)) eqn:E5.
    { simplify_eq. by apply strip_prefix_leaves in E5. }
    destruct (strip_prefix (py "-Infinity") (c :: s1)) eqn:E6; [| done].
    simplify_eq. by apply strip_prefix_leaves in E6.
  - intros s l r H. cbn [array_items] in H.
    destruct (scan_once n s) as [value s1 | |] eqn:Ev; try done.
    apply IHv in Ev.
    destruct (skip_ws s1) as [| c r0] eqn:Esk; [done |].
    apply skip_ws_cons in Esk.
    destruct (c =? 93).
    { simplify_eq. by apply (leaves_trans _ _ _ Ev). }
    destruct (c =? 44); [| done].
    apply scan_map_scanned in H as (l' & H & _). apply IHa, leaves_skip_ws in H.
    apply (leaves_trans _ _ _ Ev). by apply (leaves_trans _ _ _ Esk).
  - intros s l r H. cbn [object_items] in H.
    destruct (scanstring s) as [key s1 | |] eqn:Ek; try done.
    apply scanstring_leaves' in Ek.
    destruct (skip_ws s1) as [| colon s2] eqn:Esk1; [done |].
    apply skip_ws_cons in Esk1.
    destruct (colon =? 58); [| done].
    destruct (scan_once n (skip_ws s2)) as [value s3 | |] eqn:Ev; try done.
    apply IHv, leaves_skip_ws in Ev.
    destruct (skip_ws s3) as [| c r0] eqn:Esk3; [done |].
    apply skip_ws_cons in Esk3.
    assert (Hr0 : leaves s r0).
    { apply (leaves_trans _ _ _ Ek), (leaves_trans _ _ _ Esk1).
      by apply (leaves_trans _ _ _ Ev). }
    destruct (c =? 125); [by simplify_eq |].
    destruct (c =? 44); [| done].
    destruct (skip_ws r0) as [| q r'] eqn:Esk4; [done |].
    apply skip_ws_cons in Esk4.
    destruct (q =? 34); [| done].
    apply scan_map_scanned in H as (l' & H & _). apply IHo in H.
    apply (leaves_trans _ _ _ Hr0). by apply (leaves_trans _ _ _ Esk4).
Qed.

Lemma scan_map_keeps {A B} (f : A -> B) (x : scan A) :
  x <> Exhausted -> scan_map f x <> Exhausted.
Proof. by destruct x. Qed.

Lemma scanstring_not_exhausted (s : pystr) : scanstring s <> Exhausted.
Proof.
  induction s as [s IH] using (induction_ltof1 _ (@length N)). unfold ltof in IH.
  assert (Hrec : forall (x : N) (s' : pystr),
    (length s' < length s)%nat -> scan_map (cons x) (scanstring s') <> Exhausted).
  { intros x s' Hs'. by apply scan_map_keeps, IH. }
  destruct s as [| c s1]; [done |]. cbn [scanstring].
  destruct (c =? 34); [done |].
  destruct (c =? 92).
  - destruct s1 as [| esc r1]; [done |].
    destruct (esc =? 117).
    + destruct r1 as [| h1 [| h2 [| h3 [| h4 r2]]]]; try done.
      destruct (decode_uXXXX h1 h2 h3 h4) as [uni |]; [| done].
      destruct (is_high_surrogate uni && starts_backslash_u r2).
      * destruct r2 as [| b [| u [| l1 [| l2 [| l3 [| l4 r3]]]]]]; try done.
        destruct (decode_uXXXX l1 l2 l3 l4) as [uni2 |]; [| done].
        destruct (is_low_surrogate uni2); apply Hrec; simpl; lia.
      * apply Hrec; simpl; lia.
    + destruct (backslash esc) as [ch |]; [| done]. apply Hrec; simpl; lia.
  - destruct (c <? 32); [done |]. apply Hrec; simpl; lia.
Qed.

(** A budget of twice the length of the text and one more is never used
    up. *)
Lemma scanners_budget (n : nat) :
  (forall s, (2 * length s < n)%nat -> scan_once n s <> Exhausted)
  /\ (forall s, (2 * length s + 1 < n)%nat -> array_items n s <> Exhausted)
  /\ (forall s, (2 * length s + 1 < n)%nat -> object_items n s <> Exhausted).
Proof.
  induction n as [| n (IHv & IHa & IHo)]; [repeat split; intros; lia |].
  split; [| split].
  - intros s Hlen. cbn [scan_once].
    destruct s as [| c s1]; [done |]. cbn [length] in Hlen.
    destruct (c =? 34); [apply scan_map_keeps, scanstring_not_exhausted |].
    destruct (c =? 123).
    { destruct (skip_ws s1) as [| c' r1] eqn:Esk; [done |].
      apply skip_ws_cons in Esk as [Hl _].
      destruct (c' =? 125); [done |]. destruct (c' =? 34); [| done].
      apply scan_map_keeps, IHo. lia. }
    destruct (c =? 91).
    { destruct (skip_ws s1) as [| c' r1] eqn:Esk; [done |].
      apply skip_ws_cons in Esk as [Hl _].
      destruct (c' =? 93); [done |].
      apply scan_map_keeps, IHa. simpl. lia. }
    destruct (strip_prefix (py "null") (c :: s1)); [done |].
    destruct (strip_prefix (py "true") (c :: s1)); [done |].
    destruct (strip_prefix (py "false") (c :: s1)); [done |].
    destruct (match_number (c :: s1)) as [[[[integer frac] e] rest] |].
    { by destruct frac, e. }
    destruct (strip_prefix (py "NaN") (c :: s1)); [done |].
    destruct (strip_prefix (py "Infinity") (c :: s1)); [done |].
    by destruct (strip_prefix (py "-Infinity") (c :: s1)).
  - intros s Hlen. cbn [array_items].
    pose proof (IHv s) as Hv.
    destruct (scan_once n s) as [value s1 | |] eqn:Ev; [| done | exfalso; apply Hv; [lia | reflexivity]].
    apply (proj1 (scanners_leave n)) in Ev as [Hl1 _].
    destruct (skip_ws s1) as [| c r0] eqn:Esk; [done |].
    apply skip_ws_cons in Esk as [Hl2 _].
    destruct (c =? 93); [done |]. destruct (c =? 44); [| done].
    apply scan_map_keeps, IHa.
    pose proof (suffix_length _ _ (skip_ws_suffix r0)). lia.
  - intros s Hlen. cbn [object_items].
    destruct (scanstring s) as [key s1 | |] eqn:Ek;
      [| done | by apply scanstring_not_exhausted in Ek].
    apply scanstring_leaves' in Ek as [Hl1 _].
    destruct (skip_ws s1) as [| colon s2] eqn:Esk1; [done |].
    apply skip_ws_cons in Esk1 as [Hl2 _].
    destruct (colon =? 58); [| done].
    pose proof (suffix_length _ _ (skip_ws_suffix s2)) as Hl3.
    pose proof (IHv (skip_ws s2)) as Hv.
    destruct (scan_once n (skip_ws s2)) as [value s3 | |] eqn:Ev;
      [| done | exfalso; apply Hv; [lia | reflexivity]].
    apply (proj1 (scanners_leave n)) in Ev as [Hl4 _].
    destruct (skip_ws s3) as [| c r0] eqn:Esk3; [done |].
    apply skip_ws_cons in Esk3 as [Hl5 _].
    destruct (c =? 125); [done |]. destruct (c =? 44); [| done].
    destruct (skip_ws r0) as [| q r'] eqn:Esk4; [done |].
    apply skip_ws_cons in Esk4 as [Hl6 _].
    destruct (q =? 34); [| done].
    apply scan_map_keeps, IHo. lia.
Qed.

(** [json.loads] never uses up the budget it gives [scan_once]. *)
Lemma json_loads_budget (s : pystr) :
  scan_once (2 * length s + 1) (skip_ws s) <> Exhausted.
Proof.
  apply (proj1 (scanners_budget _)).
  pose proof (suffix_length _ _ (skip_ws_suffix s)). lia.
Qed.

Lemma array_items_S (n : nat) (s : pystr) :
  array_items (S n) s =
    match scan_once n s with
    | Scanned value s1 =>
        match skip_ws s1 with
        | c :: r =>
            if c =? 93 then Scanned [value] r
            else if c =? 44 then scan_map (cons value) (array_items n (skip_ws r))
            else Malformed
        | [] => Malformed
        end
    | Malformed => Malformed
    | Exhausted => Exhausted
    end.
Proof. reflexivity. Qed.

Lemma object_items_S (n : nat) (s : pystr) :
  object_items (S n) s =
    match scanstring s with
    | Scanned key s1 =>
        match skip_ws s1 with
        | colon :: s2 =>
            if colon =? 58 then
              match scan_once n (skip_ws s2) with
              | Scanned value s3 =>
                  match skip_ws s3 with
                  | c :: r =>
                      if c =? 125 then Scanned [(key, value)] r
                      else if c =? 44 then
                        match skip_ws r with
                        | q :: r' =>
                            if q =? 34
                            then scan_map (cons (key, value)) (object_items n r')
                            else Malformed
                        | [] => Malformed
                        end
                      else Malformed
                  | [] => Malformed
                  end
              | Malformed => Malformed
              | Exhausted => Exhausted
              end
            else Malformed
        | [] => Malformed
        end
    | Malformed => Malformed
    | Exhausted => Exhausted
    end.
Proof. reflexivity. Qed.

(** A budget that was not used up can be raised without effect. *)
Lemma scanners_monotone (n : nat) :
  (forall s, scan_once n s <> Exhausted -> scan_once (S n) s = scan_once n s)
  /\ (forall s, array_items n s <> Exhausted -> array_items (S n) s = array_items n s)
  /\ (forall s, object_items n s <> Exhausted -> object_items (S n) s = object_items n s).
Proof.
  induction n as [| n (IHv & IHa & IHo)]; [done |].
  split; [| split].
  - intros s. cbn [scan_once].
    destruct s as [| c s1]; [done |].
    destruct (c =? 34); [done |].
    destruct (c =? 123).
    { destruct (skip_ws s1) as [| c' r1]; [done |].
      destruct (c' =? 125); [done |]. destruct (c' =? 34); [| done].
      intros H. apply scan_map_not_exhausted in H. by rewrite IHo. }
    destruct (c =? 91).
    { destruct (skip_ws s1) as [| c' r1]; [done |].
      destruct (c' =? 93); [done |].
      intros H. apply scan_map_not_exhausted in H. by rewrite IHa. }
    done.
  - intros s. rewrite (array_items_S (S n) s), (array_items_S n s). intros H.
    assert (Hv : scan_once n s <> Exhausted).
    { intros E. by rewrite E in H. }
    rewrite (IHv _ Hv).
    destruct (scan_once n s) as [value s1 | |]; try done.
    destruct (skip_ws s1) as [| c r0]; [done |].
    destruct (c =? 93); [done |]. destruct (c =? 44); [| done].
    apply scan_map_not_exhausted in H. by rewrite IHa.
  - intros s. rewrite (object_items_S (S n) s), (object_items_S n s). intros H.
    destruct (scanstring s) as [key s1 | |]; try done.
    destruct (skip_ws s1) as [| colon s2]; [done |].
    destruct (colon =? 58); [| done].
    assert (Hv : scan_once n (skip_ws s2) <> Exhausted).
    { intros E. by rewrite E in H. }
    rewrite (IHv _ Hv).
    destruct (scan_once n (skip_ws s2)) as [value s3 | |]; try done.
    destruct (skip_ws s3) as [| c r0]; [done |].
    destruct (c =? 125); [done |]. destruct (c =? 44); [| done].
    destruct (skip_ws r0) as [| q r']; [done |].
    destruct (q =? 34); [| done].
    apply scan_map_not_exhausted in H. by rewrite IHo.
Qed.

Lemma scan_once_raise (n m : nat) (s : pystr) :
  (n <= m)%nat -> scan_once n s <> Exhausted -> scan_once m s = scan_once n s.
Proof.
  induction 1 as [| m Hle IH]; [done |]. intros H.
  rewrite <- (IH H). apply (proj1 (scanners_monotone m)). by rewrite (IH H).
Qed.

(** ** What the decoder builds *)

Lemma valid_text_suffix (s r : pystr) : r `suffix_of` s -> valid_text s -> valid_text r.
Proof. intros [k ->] H. by apply Forall_app in H as [_ ?]. Qed.

Lemma hex_val_bound (c v : N) : hex_val c = Some v -> v < 16.
Proof.
  unfold hex_val.
  destruct ((48 <=? c) && (c <=? 57)) eqn:E1.
  { intros; simplify_eq. apply andb_true_iff in E1 as [H1 H2].
    apply N.leb_le in H1, H2. lia. }
  destruct ((65 <=? c) && (c <=? 70)) eqn:E2.
  { intros; simplify_eq. apply andb_true_iff in E2 as [H1 H2].
    apply N.leb_le in H1, H2. lia. }
  destruct ((97 <=? c) && (c <=? 102)) eqn:E3; [| done].
  intros; simplify_eq. apply andb_true_iff in E3 as [H1 H2].
  apply N.leb_le in H1, H2. lia.
Qed.

Lemma decode_uXXXX_bound (a b c d u : N) :
  decode_uXXXX a b c d = Some u -> u < 0x10000.
Proof.
  unfold decode_uXXXX.
  destruct (hex_val a) as [x |] eqn:Ea; [| done].
  destruct (hex_val b) as [y |] eqn:Eb; [| done].
  destruct (hex_val c) as [z |] eqn:Ec; [| done].
  destruct (hex_val d) as [w |] eqn:Ed; [| done].
  apply hex_val_bound in Ea, Eb, Ec, Ed. intros; simplify_eq. lia.
Qed.

Lemma backslash_ascii (e ch : N) : backslash e = Some ch -> ch < 128.
Proof.
  unfold backslash.
  repeat (match goal with |- context [N.eqb ?a ?b] => destruct (N.eqb a b) end;
          [intros; simplify_eq; lia |]).
  done.
Qed.

Lemma join_surrogates_bounds (hi lo : N) :
  is_high_surrogate hi = true -> is_low_surrogate lo = true ->
  0x10000 <= join_surrogates hi lo < 0x110000.
Proof.
  unfold is_high_surrogate, is_low_surrogate, join_surrogates.
  intros [H1 H2]%andb_true_iff [H3 H4]%andb_true_iff.
  apply N.leb_le in H1, H2, H3, H4.
  rewrite lor_shiftl_low by lia. lia.
Qed.

Lemma not_high_small (c : N) : c < 0xd800 -> is_high_surrogate c = false.
Proof. unfold is_high_surrogate. intros. destruct (N.leb_spec 0xd800 c); [lia | done]. Qed.

Lemma not_high_large (c : N) : 0xdc00 <= c -> is_high_surrogate c = false.
Proof.
  unfold is_high_surrogate. intros.
  destruct (N.leb_spec c 0xdbff); [lia | apply andb_false_r].
Qed.

Lemma not_low_small (c : N) : c < 0xdc00 -> is_low_surrogate c = false.
Proof. unfold is_low_surrogate. intros. destruct (N.leb_spec 0xdc00 c); [lia | done]. Qed.

Lemma not_low_large (c : N) : 0xe000 <= c -> is_low_surrogate c = false.
Proof.
  unfold is_low_surrogate. intros.
  destruct (N.leb_spec c 0xdfff); [lia | apply andb_false_r].
Qed.

(** The strings [scanstring] builds from a valid text: code points of
    Unicode, no high surrogate followed by a low one; and a string that
    starts with a low surrogate was read from a text that starts with the
    escape of that surrogate. *)
Lemma scanstring_decoded (s : pystr) :
  forall str r, valid_text s -> scanstring s = Scanned str r ->
    str_ok str
    /\ (forall c str', str = c :: str' -> is_low_surrogate c = true ->
          exists h1 h2 h3 h4 r2,
            s = 92 :: 117 :: h1 :: h2 :: h3 :: h4 :: r2
            /\ decode_uXXXX h1 h2 h3 h4 = Some c).
Proof.
  induction s as [s IH] using (induction_ltof1 _ (@length N)). unfold ltof in IH.
  intros str r Hvalid.
  (* a code point that is not the high half of a pair, before a decoded rest *)
  assert (Hplain : forall (x : N) (k s' : pystr),
    s = k ++ s' -> k <> [] -> x < 0x110000 ->
    is_high_surrogate x = false ->
    (is_low_surrogate x = true ->
       exists h1 h2 h3 h4 r2,
         s = 92 :: 117 :: h1 :: h2 :: h3 :: h4 :: r2
         /\ decode_uXXXX h1 h2 h3 h4 = Some x) ->
    scan_map (cons x) (scanstring s') = Scanned str r ->
    str_ok str
    /\ (forall c str', str = c :: str' -> is_low_surrogate c = true ->
          exists h1 h2 h3 h4 r2,
            s = 92 :: 117 :: h1 :: h2 :: h3 :: h4 :: r2
            /\ decode_uXXXX h1 h2 h3 h4 = Some c)).
  { intros x k s' Es Hk Hx Hhigh Hlow Hs'.
    apply scan_map_scanned in Hs' as (str0 & Hs' & ->).
    assert (Hvalid' : valid_text s').
    { rewrite Es in Hvalid. by apply Forall_app in Hvalid as [_ ?]. }
    apply IH in Hs' as [[Hall Hpair] _]; [| | done].
    - split.
      + split; [by constructor |]. split; [| done].
        destruct str0; [done |]. by rewrite Hhigh.
      + intros c0 str' ? Hc0. simplify_eq. by apply Hlow.
    - rewrite Es, length_app. destruct k; [done |]. simpl. lia. }
  intros H. destruct s as [| c s1]; [done |]. cbn [scanstring] in H.
  apply Forall_cons in Hvalid as Hv. destruct Hv as [(Hc & Hch & Hcl) Hv1].
  destruct (c =? 34).
  { simplify_eq. split; [by split | done]. }
  destruct (N.eqb_spec c 92) as [-> | H92].
  - destruct s1 as [| esc r1]; [done |].
    destruct (N.eqb_spec esc 117) as [-> | H117].
    + destruct r1 as [| h1 [| h2 [| h3 [| h4 r2]]]]; try done.
      destruct (decode_uXXXX h1 h2 h3 h4) as [uni |] eqn:Ed; [| done].
      pose proof (decode_uXXXX_bound _ _ _ _ _ Ed) as Huni.
      assert (Hv2 : valid_text r2).
      { apply (valid_text_suffix (92 :: 117 :: h1 :: h2 :: h3 :: h4 :: r2));
          [by exists [92; 117; h1; h2; h3; h4] | done]. }
      assert (Hdirect : scan_map (cons uni) (scanstring r2) = Scanned str r ->
        (is_high_surrogate uni = true ->
           forall l1 l2 l3 l4 r3 u2, r2 = 92 :: 117 :: l1 :: l2 :: l3 :: l4 :: r3 ->
             decode_uXXXX l1 l2 l3 l4 = Some u2 -> is_low_surrogate u2 = false) ->
        str_ok str
        /\ (forall c str', str = c :: str' -> is_low_surrogate c = true ->
              exists h1' h2' h3' h4' r2',
                92 :: 117 :: h1 :: h2 :: h3 :: h4 :: r2
                  = 92 :: 117 :: h1' :: h2' :: h3' :: h4' :: r2'
                /\ decode_uXXXX h1' h2' h3' h4' = Some c)).
      { intros Hs' Hnext.
        apply scan_map_scanned in Hs' as (str0 & Hs' & ->).
        apply IH in Hs' as [[Hall Hpair] Hhead]; [| simpl; lia | done].
        split.
        - split; [constructor; [lia | done] |]. split; [| done].
          destruct str0 as [| b str1]; [done |].
          destruct (is_high_surrogate uni) eqn:Ehigh; [| done].
          destruct (is_low_surrogate b) eqn:Elow; [| done].
          destruct (Hhead b str1 eq_refl Elow) as (l1 & l2 & l3 & l4 & r3 & Er2 & Edl).
          by rewrite (Hnext eq_refl _ _ _ _ _ _ Er2 Edl) in Elow.
        - intros c0 str' ? Hc0. simplify_eq. by do 5 eexists. }
      destruct (is_high_surrogate uni && starts_backslash_u r2) eqn:Econd.
      * apply andb_true_iff in Econd as [Ehigh Ebu].
        destruct r2 as [| b [| u [| l1 [| l2 [| l3 [| l4 r3]]]]]]; try done.
        destruct (decode_uXXXX l1 l2 l3 l4) as [uni2 |] eqn:Ed2; [| done].
        destruct (is_low_surrogate uni2) eqn:Elow2.
        -- pose proof (join_surrogates_bounds _ _ Ehigh Elow2) as [Hj1 Hj2].
           apply (Hplain (join_surrogates uni uni2)
                    [92; 117; h1; h2; h3; h4; b; u; l1; l2; l3; l4] r3);
             try done.
           ++ apply not_high_large. lia.
           ++ rewrite not_low_large by lia. done.
        -- apply Hdirect; [done |]. intros _ l1' l2' l3' l4' r3' u2 ? Edl.
           simplify_eq. done.
      * apply Hdirect; [done |]. intros Ehigh l1 l2 l3 l4 r3 u2 -> _.
        rewrite Ehigh in Econd. simpl in Econd. done.
    + destruct (backslash esc) as [ch |] eqn:Eb; [| done].
      apply backslash_ascii in Eb.
      apply (Hplain ch [92; esc] r1); try done.
      * lia.
      * apply not_high_small. lia.
      * rewrite not_low_small by lia. done.
  - destruct (c <? 32); [done |].
    apply (Hplain c [c] s1); try done.
    by rewrite Hcl.
Qed.

Lemma dict_set_keys (d : list (pystr * pyval)) (k : pystr) (v : pyval) :
  map fst (dict_set d k v) = if decide (k ∈ map fst d) then map fst d else map fst d ++ [k].
Proof.
  induction d as [| [k' v'] d IH]; simpl; [done |].
  destruct (decide (k' = k)) as [-> | Hne]; simpl.
  - rewrite decide_True; [done | left].
  - rewrite IH. destruct (decide (k ∈ map fst d)) as [Hin | Hnotin].
    + rewrite decide_True; [done | by right].
    + rewrite decide_False; [done |]. rewrite elem_of_cons. by intros [? | ?].
Qed.

Lemma dict_set_Forall (P : pystr * pyval -> Prop) d k v :
  Forall P d -> P (k, v) -> Forall P (dict_set d k v).
Proof.
  intros Hd Hkv. induction Hd as [| [k' v'] d Hx Hd IH]; simpl.
  - by constructor.
  - destruct (decide (k' = k)); by constructor.
Qed.

Lemma dict_of_pairs_decoded (P : pystr * pyval -> Prop) (pairs : list (pystr * pyval)) :
  Forall P pairs ->
  NoDup (map fst (dict_of_pairs pairs)) /\ Forall P (dict_of_pairs pairs).
Proof.
  unfold dict_of_pairs.
  assert (Hgen : forall acc, NoDup (map fst acc) -> Forall P acc -> Forall P pairs ->
    NoDup (map fst (foldl (fun d kv => dict_set d kv.1 kv.2) acc pairs))
    /\ Forall P (foldl (fun d kv => dict_set d kv.1 kv.2) acc pairs)).
  { induction pairs as [| [k v] pairs IH]; intros acc Hnd Hacc Hp; simpl; [done |].
    apply Forall_cons in Hp as [Hkv Hp]. apply IH; [| by apply dict_set_Forall | done].
    rewrite dict_set_keys. destruct (decide (k ∈ map fst acc)); [done |].
    apply NoDup_app. split; [done |]. split; [| apply NoDup_singleton].
    intros x Hx Hx'. apply list_elem_of_singleton in Hx'. by subst. }
  intros Hp. apply Hgen; [constructor | constructor | done].
Qed.

(** The values the decoder builds from a valid text. *)
Lemma scanners_decoded (n : nat) :
  (forall s v r, valid_text s -> scan_once n s = Scanned v r -> decoded v)
  /\ (forall s l r, valid_text s -> array_items n s = Scanned l r -> Forall decoded l)
  /\ (forall s l r, valid_text s -> object_items n s = Scanned l r ->
        Forall (fun kv => str_ok kv.1 /\ decoded kv.2) l).
Proof.
  induction n as [| n (IHv & IHa & IHo)]; [done |]. split; [| split].
  - intros s v r Hvalid H. cbn [scan_once] in H.
    destruct s as [| c s1]; [done |].
    assert (Hv1 : valid_text s1) by (by apply Forall_cons in Hvalid as [_ ?]).
    destruct (c =? 34).
    { apply scan_map_scanned in H as (str & H & ->).
      by apply scanstring_decoded in H as [? _]. }
    destruct (c =? 123).
    { destruct (skip_ws s1) as [| c' r1] eqn:Esk; [done |].
      apply skip_ws_cons, leaves_suffix in Esk.
      destruct (c' =? 125); [simplify_eq; split; [constructor | done] |].
      destruct (c' =? 34); [| done].
      apply scan_map_scanned in H as (pairs & H & ->).
      apply IHo in H; [| by apply (valid_text_suffix s1)].
      apply decoded_dict. by apply dict_of_pairs_decoded. }
    destruct (c =? 91).
    { destruct (skip_ws s1) as [| c' r1] eqn:Esk; [done |].
      destruct (c' =? 93); [by simplify_eq |].
      apply scan_map_scanned in H as (l & H & ->).
      apply decoded_list. apply IHa in H; [done |].
      rewrite <- Esk. apply (valid_text_suffix s1); [apply skip_ws_suffix | done]. }
    destruct (strip_prefix (py "null") (c :: s1)); [by simplify_eq |].
    destruct (strip_prefix (py "true") (c :: s1)); [by simplify_eq |].
    destruct (strip_prefix (py "false") (c :: s1)); [by simplify_eq |].
    destruct (match_number (c :: s1)) as [[[[integer frac] e] rest] |].
    { destruct frac, e; by simplify_eq. }
    destruct (strip_prefix (py "NaN") (c :: s1)); [by simplify_eq |].
    destruct (strip_prefix (py "Infinity") (c :: s1)); [by simplify_eq |].
    destruct (strip_prefix (py "-Infinity") (c :: s1)); [by simplify_eq | done].
  - intros s l r Hvalid H. rewrite array_items_S in H.
    destruct (scan_once n s) as [value s1 | |] eqn:Ev; try done.
    pose proof (leaves_suffix _ _ (proj1 (scanners_leave n) _ _ _ Ev)) as Hs1.
    apply IHv in Ev; [| done].
    destruct (skip_ws s1) as [| c r0] eqn:Esk; [done |].
    apply skip_ws_cons, leaves_suffix in Esk.
    destruct (c =? 93); [simplify_eq; by constructor |].
    destruct (c =? 44); [| done].
    apply scan_map_scanned in H as (l' & H & ->).
    constructor; [done |]. apply IHa in H; [done |].
    apply (valid_text_suffix s); [| done].
    etrans; [apply skip_ws_suffix |]. by etrans.
  - intros s l r Hvalid H. rewrite object_items_S in H.
    destruct (scanstring s) as [key s1 | |] eqn:Ek; try done.
    pose proof (leaves_suffix _ _ (scanstring_leaves' _ _ _ Ek)) as Hs1.
    apply scanstring_decoded in Ek as [Hkey _]; [| done].
    destruct (skip_ws s1) as [| colon s2] eqn:Esk1; [done |].
    apply skip_ws_cons, leaves_suffix in Esk1.
    destruct (colon =? 58); [| done].
    assert (Hv2 : valid_text (skip_ws s2)).
    { apply (valid_text_suffix s); [| done].
      etrans; [apply skip_ws_suffix |]. by etrans. }
    destruct (scan_once n (skip_ws s2)) as [value s3 | |] eqn:Ev; try done.
    pose proof (leaves_suffix _ _ (proj1 (scanners_leave n) _ _ _ Ev)) as Hs3.
    apply IHv in Ev; [| done].
    destruct (skip_ws s3) as [| c r0] eqn:Esk3; [done |].
    apply skip_ws_cons, leaves_suffix in Esk3.
    destruct (c =? 125); [simplify_eq; by constructor |].
    destruct (c =? 44); [| done].
    destruct (skip_ws r0) as [| q r'] eqn:Esk4; [done |].
    apply skip_ws_cons, leaves_suffix in Esk4.
    destruct (q =? 34); [| done].
    apply scan_map_scanned in H as (l' & H & ->).
    constructor; [done |]. apply IHo in H; [done |].
    apply (valid_text_suffix (skip_ws s2)); [| done].
    etrans; [exact Esk4 |]. by etrans.
Qed.

(** ** Sorting the keys does not change the value *)

Lemma sort_keys_same_value (v : pyval) : same_value (sort_keys v) v.
Proof.
  induction v as [| b | z | f | s | l IH | d IH] using pyval_induction;
    try constructor.
  - induction IH; by constructor.
  - cbn [sort_keys].
    apply same_dict with (d := map (fun kv => (kv.1, sort_keys kv.2)) d).
    + apply sorted_items_perm.
    + induction IH; by constructor.
Qed.

(** ** [json.loads] on what [dumps] wrote *)

Lemma json_loads_dumps (v : pyval) :
  is_container v = true -> decoded v -> floats_read_back v ->
  json_loads (dumps v ++ [10]) = Returned (sort_keys v).
Proof.
  intros Hc Hdec Hflt. unfold dumps.
  pose proof (scan_encoded v Hdec Hflt debug 0%nat) as Hread.
  destruct (reads_as_head _ _ Hread) as (c & r & Etext & Hws & _).
  destruct (Hread [10]) as [n0 Hn0]; [simpl; auto |].
  unfold json_loads.
  assert (Hbom : starts_with_bom (iterencode debug 0 v ++ [10]) = false).
  { destruct v; try done. }
  rewrite Hbom. rewrite (skip_ws_reads_as _ _ _ Hread).
  set (text := iterencode debug 0 v ++ [10]) in *.
  set (budget := (2 * length text + 1)%nat).
  assert (Hbudget : scan_once budget text <> Exhausted).
  { apply (proj1 (scanners_budget budget)). unfold budget. lia. }
  pose proof (scan_once_raise budget (budget `max` n0) text (Nat.le_max_l _ _) Hbudget) as E.
  rewrite Hn0 in E by lia. rewrite <- E. done.
Qed.

Lemma json_loads_decoded (s : pystr) (v : pyval) :
  valid_text s -> json_loads s = Returned v -> decoded v.
Proof.
  unfold json_loads. intros Hvalid.
  destruct (starts_with_bom s); [done |].
  destruct (scan_once (2 * length s + 1) (skip_ws s)) as [obj rest | |] eqn:E;
    try done.
  destruct (skip_ws rest); [| done]. intros; simplify_eq.
  apply (proj1 (scanners_decoded _)) in E; [done |].
  apply (valid_text_suffix s); [apply skip_ws_suffix | done].
Qed.

(** ** The body of a data response, read again *)


(** * More of the application *)

(** ** Requests that keep to themselves *)

Lemma isolated_step {A} (w0 : world) (a : A) (p : prog A) o other (w : world) :
  isolated w0 a p o ->
  disk w = disk w0 ->
  descriptors w = hold o (hold other (descriptors w0)) ->
  unused (descriptors w0) o -> apart o other ->
  exists o',
    isolated w0 a (step p w).1 o'
    /\ disk (step p w).2 = disk w0
    /\ descriptors (step p w).2 = hold o' (hold other (descriptors w0))
    /\ unused (descriptors w0) o' /\ apart o' other.
Proof.
  intros Hp Hdisk Hdesc Hfree Hapart. destruct p as [a' | X c k]; simpl in *.
  - by exists o.
  - destruct (Hp w other Hdisk Hdesc Hfree Hapart) as (o' & H).
    exists o'. by destruct (exec c w).
Qed.

Lemma isolated_run {A} (w0 : world) (a : A) (p : prog A) :
  forall o other (w : world),
  isolated w0 a p o ->
  disk w = disk w0 ->
  descriptors w = hold o (hold other (descriptors w0)) ->
  unused (descriptors w0) o -> apart o other ->
  (run p w).1 = a
  /\ disk (run p w).2 = disk w0
  /\ descriptors (run p w).2 = hold other (descriptors w0).
Proof.
  induction p as [a' | X c k IH]; intros o other w Hp Hdisk Hdesc Hfree Hapart; simpl in *.
  - destruct Hp as [-> ->]. done.
  - destruct (Hp w other Hdisk Hdesc Hfree Hapart) as (o' & Hk & Hdisk' & Hdesc' & Hfree' & Hapart').
    destruct (exec c w) as [x w']. simpl in *. by eapply IH.
Qed.

Lemma run_pair_isolated {A B} (w0 : world) (a : A) (b : B) (schedule : list bool) :
  forall (p : prog A) (q : prog B) o1 o2 (w : world),
  isolated w0 a p o1 -> isolated w0 b q o2 ->
  disk w = disk w0 ->
  descriptors w = hold o1 (hold o2 (descriptors w0)) ->
  unused (descriptors w0) o1 -> unused (descriptors w0) o2 -> apart o1 o2 ->
  run_pair schedule p q w = (a, b, w0).
Proof.
  induction schedule as [| s schedule IH];
    intros p q o1 o2 w Hp Hq Hdisk Hdesc Hfree1 Hfree2 Hapart.
  - simpl.
    destruct (isolated_run _ _ _ _ _ _ Hp Hdisk Hdesc Hfree1 Hapart)
      as (Hr1 & Hd1 & Ht1).
    destruct (run p w) as [r1 w1]. simpl in *.
    assert (Hapart2 : apart o2 None) by (by destruct o2 as [[? ?] |]).
    destruct (isolated_run _ _ _ _ None _ Hq Hd1 Ht1 Hfree2 Hapart2)
      as (Hr2 & Hd2 & Ht2).
    destruct (run q w1) as [r2 w2]. simpl in *. subst r1 r2.
    destruct w2, w0. simpl in *. by subst.
  - destruct s; simpl.
    + destruct (isolated_step _ _ _ _ _ _ Hp Hdisk Hdesc Hfree1 Hapart)
        as (o1' & Hp' & Hdisk' & Hdesc' & Hfree1' & Hapart').
      destruct (step p w) as [p' w']. by eapply IH.
    + rewrite hold_swap in Hdesc by done.
      destruct (isolated_step _ _ _ _ _ _ Hq Hdisk Hdesc Hfree2 (apart_sym _ _ Hapart))
        as (o2' & Hq' & Hdisk' & Hdesc' & Hfree2' & Hapart').
      destruct (step q w) as [q' w']. simpl in *.
      rewrite hold_swap in Hdesc' by done.
      eapply IH; eauto using apart_sym.
Qed.


Lemma hold_release o (m : gmap nat file) (fd : nat) (f : file) :
  m !! fd = None -> apart (Some (fd, f)) o ->
  delete fd (<[fd := f]> (hold o m)) = hold o m.
Proof. intros Hm Ha. apply delete_insert_id. by apply hold_lookup_unused with (f := f). Qed.


(** The last system call of a view: the descriptor is closed. *)
Ltac close_descriptor :=
  let w2 := fresh "w" in let other2 := fresh "other" in
  intros w2 other2 ? Hdesc2 ? ?;
  exists None; simpl; rewrite Hdesc2; simpl;
  split; [done |]; split; [done |];
  split; [by apply hold_release | done].

(** The view of a data route, with anything made of what it returns,
    keeps to itself. *)
Lemma isolated_data_view {B} (path : string) (g : outcome pyval -> B) (w0 : world) :
  isolated w0 (g (load_outcome (disk w0 !! path)))
    (bind (with_open path json_load) (fun rv => Ret (g rv))) None.
Proof.
  unfold with_open, try_bind, json_load. simpl.
  intros w other Hdisk Hdesc _ _. rewrite Hdisk.
  pose proof (fresh_descriptor w) as Hfresh.
  set (fd := fresh (dom (descriptors w))) in *.
  rewrite Hdesc in Hfresh. simpl in Hfresh.
  apply hold_lookup_None in Hfresh as [Hfree' Hapart'].
  destruct (disk w0 !! path) as [[contents | |] |] eqn:Hf; simpl.
  - exists (Some (fd, Text contents)).
    split; [| split; [done |]; split; [by rewrite Hdesc |]; split; [done |];
              by destruct other as [[? ?] |]].
    intros w1 other1 Hdisk1 Hdesc1 Hfree1 Hapart1.
    exists (Some (fd, Text contents)). rewrite Hdesc1. simpl.
    rewrite lookup_insert_eq. simpl.
    split; [| done]. close_descriptor.
  - exists (Some (fd, Undecodable)).
    split; [| split; [done |]; split; [by rewrite Hdesc |]; split; [done |];
              by destruct other as [[? ?] |]].
    intros w1 other1 Hdisk1 Hdesc1 Hfree1 Hapart1.
    exists (Some (fd, Undecodable)). rewrite Hdesc1. simpl.
    rewrite lookup_insert_eq. simpl.
    split; [| done]. close_descriptor.
  - by exists None.
  - by exists None.
Qed.

(** So does the view of the page. *)
Lemma isolated_page_view {B} (name : string) (g : outcome pyval -> B) (w0 : world) :
  isolated w0 (g (run (render_template name) w0).1)
    (bind (render_template name) (fun rv => Ret (g rv))) None.
Proof.
  unfold render_template. rewrite run_bind, run_read_file.
  unfold with_open, try_bind. simpl.
  intros w other Hdisk Hdesc _ _. rewrite Hdisk.
  pose proof (fresh_descriptor w) as Hfresh.
  set (fd := fresh (dom (descriptors w))) in *.
  rewrite Hdesc in Hfresh. simpl in Hfresh.
  apply hold_lookup_None in Hfresh as [Hfree' Hapart'].
  destruct (disk w0 !! _) as [[contents | |] |] eqn:Hf; simpl.
  - exists (Some (fd, Text contents)).
    split; [| split; [done |]; split; [by rewrite Hdesc |]; split; [done |];
              by destruct other as [[? ?] |]].
    intros w1 other1 Hdisk1 Hdesc1 Hfree1 Hapart1.
    exists (Some (fd, Text contents)). rewrite Hdesc1. simpl.
    rewrite lookup_insert_eq. simpl.
    split; [| done].
    destruct (jinja_render contents) as [html | e]; simpl; close_descriptor.
  - exists (Some (fd, Undecodable)).
    split; [| split; [done |]; split; [by rewrite Hdesc |]; split; [done |];
              by destruct other as [[? ?] |]].
    intros w1 other1 Hdisk1 Hdesc1 Hfree1 Hapart1.
    exists (Some (fd, Undecodable)). rewrite Hdesc1. simpl.
    rewrite lookup_insert_eq. simpl.
    split; [| done]. close_descriptor.
  - by exists None.
  - by exists None.
Qed.

(** Every request keeps to itself. *)
Lemma isolated_serve (req : request) (w0 : world) :
  isolated w0 (respond req w0) (serve req) None.
Proof.
  unfold respond, serve.
  destruct (match_rule url_map (path req)) as [view |] eqn:E; [| done].
  assert (Hview : forall g : outcome pyval -> response,
    isolated w0 (run (bind view (fun rv => Ret (g rv))) w0).1
      (bind view (fun rv => Ret (g rv))) None).
  { intros g. unfold url_map in E. simpl in E.
    repeat case_decide; simplify_eq.
    - rewrite run_bind. apply (isolated_page_view "index.html" g).
    - rewrite run_bind. unfold points. rewrite run_data_view.
      apply isolated_data_view.
    - rewrite run_bind. unfold polygons. rewrite run_data_view.
      apply isolated_data_view. }
  destruct (method req); first [apply Hview | done].
Qed.

(** X1. Under every schedule of their system calls, two requests to the
    rules of [app.py] served side by side, whatever their methods and
    whether to two rules or to the same one, get the responses they get
    alone, and the world is left as it was. *)
Theorem requests_do_not_interfere (req1 req2 : request) (schedule : list bool)
    (w : world) :
  path req1 ∈ map fst url_map -> path req2 ∈ map fst url_map ->
  run_pair schedule (serve req1) (serve req2) w = (respond req1 w, respond req2 w, w).
Proof.
  intros _ _. apply run_pair_isolated with (o1 := None) (o2 := None);
    try done; apply isolated_serve.
Qed.

(** ** A HEAD request to a data route *)

(** X2. A HEAD request to [/points] or [/polygons] makes the view open,
    read and parse the data file as a GET request does, though no body
    is sent: a file that decodes to an object or an array is answered 200
    with the JSON content type and an empty body, and a file that cannot
    be served is answered with the default page for an internal server
    error. *)
Theorem head_runs_data_view rule datafile view (req : request) (w : world) :
  data_route rule datafile view ->
  method req = HEAD -> path req = rule ->
  calls (serve req) w =
    match disk w !! datafile with
    | None => [OpenFailed datafile FileNotFoundError]
    | Some Unreadable => [OpenFailed datafile PermissionError]
    | Some _ =>
        let fd := fresh (dom (descriptors w)) in
        [Opened datafile fd; ReadFrom fd; Closed fd]
    end
  /\ respond req w = without_body (finalize (load_outcome (disk w !! datafile)))
  /\ (forall (contents : pystr) (v : pyval),
        disk w !! datafile = Some (Text contents) ->
        json_loads contents = Returned v -> is_container v = true ->
        respond req w = Response 200 "application/json" [])
  /\ (forall e : exn,
        load_outcome (disk w !! datafile) = Raised e ->
        respond req w = DefaultErrorPage 500 (Some e)).
Proof.
  intros Hr Hm Hp.
  assert (Hserve : serve req =
    bind (with_open datafile json_load)
      (fun rv => Ret (match finalize rv with
                      | Response status mimetype _ => Response status mimetype []
                      | r => r
                      end))).
  { unfold serve. rewrite Hp, Hm. by destruct Hr. }
  assert (Hresp : respond req w
                  = without_body (finalize (load_outcome (disk w !! datafile)))).
  { unfold respond. rewrite Hserve, run_bind, run_data_view. simpl.
    by destruct (finalize _). }
  split; [| split; [done | split]].
  - rewrite Hserve, calls_bind, calls_data_view. apply app_nil_r.
  - intros contents v Hf Hv Hc. rewrite Hresp, Hf. simpl. rewrite Hv.
    by rewrite finalize_container.
  - intros e He. rewrite Hresp, He. done.
Qed.

(** ** The page when the template cannot be rendered *)

Lemma calls_read_file (path : string) (w : world) :
  calls (with_open path (fun f => Do (SysRead f) Ret)) w =
    match disk w !! path with
    | None => [OpenFailed path FileNotFoundError]
    | Some Unreadable => [OpenFailed path PermissionError]
    | Some _ =>
        let fd := fresh (dom (descriptors w)) in
        [Opened path fd; ReadFrom fd; Closed fd]
    end.
Proof.
  unfold with_open, try_bind. simpl.
  destruct (disk w !! path) as [[contents | |] |] eqn:E; simpl; try done.
  - by rewrite lookup_insert_eq.
  - by rewrite lookup_insert_eq.
Qed.

Lemma calls_render_template (name : string) (w : world) :
  calls (render_template name) w =
    calls (with_open ("templates/" +:+ name) (fun f => Do (SysRead f) Ret)) w.
Proof.
  unfold render_template. rewrite calls_bind, run_read_file. simpl.
  destruct (disk w !! _) as [[contents | |] |]; simpl; rewrite ?app_nil_r; try done.
  by destruct (jinja_render contents); simpl; rewrite app_nil_r.
Qed.

(** X4. When [templates/index.html] is missing, cannot be opened or decoded,
    or Jinja raises on its source, [home] raises, a GET request to [/] is
    answered with the default page for an internal server error, and the
    only file touched is the template: one attempt to open it, and the
    descriptor, if there was one, closed again. *)
Theorem home_failure (req : request) (w : world) (e : exn) :
  method req = GET -> path req = "/" ->
  (disk w !! "templates/index.html" = None /\ e = TemplateNotFound
   \/ disk w !! "templates/index.html" = Some Unreadable /\ e = PermissionError
   \/ disk w !! "templates/index.html" = Some Undecodable /\ e = UnicodeDecodeError
   \/ exists source, disk w !! "templates/index.html" = Some (Text source)
        /\ jinja_render source = Raised e) ->
  run home w = (Raised e, w)
  /\ respond req w = DefaultErrorPage 500 (Some e)
  /\ calls (serve req) w =
       match disk w !! "templates/index.html" with
       | None => [OpenFailed "templates/index.html" FileNotFoundError]
       | Some Unreadable => [OpenFailed "templates/index.html" PermissionError]
       | Some _ =>
           let fd := fresh (dom (descriptors w)) in
           [Opened "templates/index.html" fd; ReadFrom fd; Closed fd]
       end
  /\ left_open (calls (serve req) w) = [].
Proof.
  intros Hm Hp Hbad.
  assert (Hrun : run home w = (Raised e, w)).
  { unfold home, render_template. rewrite run_bind, run_read_file.
    change ("templates/" +:+ "index.html") with "templates/index.html".
    destruct Hbad as [[-> ->] | [[-> ->] | [[-> ->] | (source & -> & Hj)]]];
      simpl; try done. by rewrite Hj. }
  assert (Hcalls : calls (serve req) w =
       match disk w !! "templates/index.html" with
       | None => [OpenFailed "templates/index.html" FileNotFoundError]
       | Some Unreadable => [OpenFailed "templates/index.html" PermissionError]
       | Some _ =>
           let fd := fresh (dom (descriptors w)) in
           [Opened "templates/index.html" fd; ReadFrom fd; Closed fd]
       end).
  { rewrite (serve_home _ Hm Hp), calls_bind.
    unfold home at 1. rewrite calls_render_template, calls_read_file.
    apply app_nil_r. }
  split; [done |]. split; [| split; [done |]].
  - unfold respond. rewrite (serve_home _ Hm Hp), run_bind, Hrun. done.
  - rewrite Hcalls.
    assert (Hlog : forall fd : nat,
      left_open [Opened "templates/index.html" fd; ReadFrom fd; Closed fd] = []).
    { intros fd. simpl. rewrite decide_True; [done |]. rewrite !elem_of_cons. auto. }
    destruct (disk w !! "templates/index.html") as [[| |] |]; simpl; try done; apply Hlog.
Qed.

(** ** A data file without a document *)

Lemma skip_ws_blank (s : pystr) : blank s -> skip_ws s = [].
Proof. induction 1 as [| c s Hc _ IH]; simpl; [done |]. by rewrite Hc. Qed.

(** X5. An empty data file, one of white space only, and one that starts with
    a byte-order mark are not JSON for [json.load]: the request is answered
    with the default page for an internal server error. *)
Theorem data_file_without_document rule datafile view (req : request) (w : world)
    (contents : pystr) :
  data_route rule datafile view ->
  method req = GET -> path req = rule ->
  disk w !! datafile = Some (Text contents) ->
  blank contents \/ starts_with_bom contents = true ->
  run view w = (Raised JSONDecodeError, w)
  /\ respond req w = DefaultErrorPage 500 (Some JSONDecodeError).
Proof.
  intros Hr Hm Hp Hf Hbad.
  assert (Hloads : json_loads contents = Raised JSONDecodeError).
  { unfold json_loads. destruct Hbad as [Hblank | ->]; [| done].
    rewrite (skip_ws_blank _ Hblank).
    replace (2 * length contents + 1)%nat with (S (2 * length contents)) by lia.
    simpl. by destruct (starts_with_bom contents). }
  split.
  - rewrite (data_route_view _ _ _ Hr), run_data_view, Hf. simpl. by rewrite Hloads.
  - unfold respond. rewrite (run_serve_data_route _ _ _ _ _ Hr Hm Hp), Hf. simpl.
    by rewrite Hloads.
Qed.

(** ** The body is ASCII *)

Lemma hex_digit_ascii (d : N) : d < 16 -> hex_digit d < 128.
Proof. intros Hd. unfold hex_digit. destruct (d <? 10); lia. Qed.

Lemma escape_u_ascii (n : N) : n < 0x10000 -> is_ascii (escape_u n).
Proof.
  intros Hn. unfold escape_u, is_ascii.
  repeat apply Forall_cons_2; try apply Forall_nil_2; try lia;
    apply hex_digit_ascii.
  - apply N.Div0.div_lt_upper_bound. lia.
  - apply N.mod_upper_bound. lia.
  - apply N.mod_upper_bound. lia.
  - apply N.mod_upper_bound. lia.
Qed.

Lemma surrogate_escape_bound (a x : N) :
  a < 64 -> N.lor (N.shiftl a 10) (N.land x 0x3ff) < 0x10000.
Proof.
  intros Ha. change 0x3ff with (N.ones 10). rewrite N.land_ones.
  change (2 ^ 10) with 1024.
  pose proof (N.mod_upper_bound x 1024 ltac:(lia)) as Hx.
  rewrite lor_shiftl_low by done. lia.
Qed.

Lemma escape_char_ascii (c : N) : is_ascii (escape_char c).
Proof.
  unfold escape_char.
  repeat (destruct (c =? _); [repeat constructor; try lia |]).
  destruct ((32 <=? c) && (c <=? 126)) eqn:E.
  { apply andb_true_iff in E as [_ E]. apply N.leb_le in E.
    repeat constructor; try lia. }
  destruct (N.ltb_spec c 0x10000); [by apply escape_u_ascii |].
  apply Forall_app. split; apply escape_u_ascii.
  - apply (surrogate_escape_bound 54). lia.
  - apply (surrogate_escape_bound 55). lia.
Qed.

Lemma encode_basestring_ascii_ascii (s : pystr) : is_ascii (encode_basestring_ascii s).
Proof.
  unfold encode_basestring_ascii, is_ascii.
  rewrite !Forall_app. repeat split; try (repeat constructor; try lia).
  apply Forall_concat, Forall_map, Forall_forall. intros c _.
  apply escape_char_ascii.
Qed.

Lemma digits_ascii (ds : pystr) :
  Forall (fun c => is_digit c = true) ds -> is_ascii ds.
Proof.
  intros Hds. eapply Forall_impl; [exact Hds |].
  intros c Hc. unfold is_digit in Hc.
  apply andb_true_iff in Hc as [_ Hc]. apply N.leb_le in Hc. lia.
Qed.

Lemma int_repr_ascii (z : Z) : is_ascii (int_repr z).
Proof.
  destruct z; simpl.
  - repeat constructor; try lia.
  - apply digits_ascii, digits_of_uint_digits.
  - constructor; [lia |]. apply digits_ascii, digits_of_uint_digits.
Qed.

Lemma floatstr_ascii (f : float) : is_ascii (float_repr f) -> is_ascii (floatstr f).
Proof.
  intros Hf. unfold floatstr. repeat case_decide; try done;
    repeat constructor; try lia.
Qed.

Lemma newline_indent_ascii (indent : bool) (level : nat) :
  is_ascii (newline_indent indent level).
Proof.
  unfold newline_indent. destruct indent; [| constructor].
  constructor; [lia |].
  induction (2 * level)%nat as [| n IH]; simpl; [constructor |].
  constructor; [lia | done].
Qed.

Lemma join_items_ascii (indent : bool) (level : nat) (items : list pystr) :
  Forall is_ascii items -> is_ascii (join_items indent level items).
Proof.
  intros Hitems. destruct Hitems as [| x r Hx Hr]; simpl; [constructor |].
  unfold is_ascii. rewrite !Forall_app.
  split; [apply newline_indent_ascii |]. split; [done |].
  split; [| apply newline_indent_ascii].
  apply Forall_concat, Forall_map. eapply Forall_impl; [exact Hr |].
  intros y Hy. simpl. constructor; [lia |].
  apply Forall_app. split; [apply newline_indent_ascii | done].
Qed.

(** What the encoder writes is ASCII. *)
Lemma iterencode_ascii (v : pyval) :
  floats_print_ascii v ->
  forall (indent : bool) (level : nat), is_ascii (iterencode indent level v).
Proof.
  induction v as [| b | z | f | s | l IH | d IH] using pyval_induction;
    intros Hflt indent level.
  - repeat constructor; try lia.
  - destruct b; repeat constructor; try lia.
  - apply int_repr_ascii.
  - by apply floatstr_ascii.
  - apply encode_basestring_ascii_ascii.
  - cbn [iterencode]. unfold is_ascii. rewrite !Forall_app.
    split; [repeat constructor; try lia |]. split; [| repeat constructor; try lia].
    apply join_items_ascii, Forall_map.
    cbn [floats_print_ascii] in Hflt. apply foldr_and_Forall in Hflt.
    clear -IH Hflt. induction IH as [| x l Hx _ IHl]; [constructor |].
    apply Forall_cons_1 in Hflt as [Hfx Hfl].
    constructor; [by apply Hx | by apply IHl].
  - cbn [iterencode]. unfold is_ascii. rewrite !Forall_app.
    split; [repeat constructor; try lia |]. split; [| repeat constructor; try lia].
    apply join_items_ascii, Forall_map.
    cbn [floats_print_ascii] in Hflt.
    apply (foldr_and_Forall (fun kv => floats_print_ascii kv.2)) in Hflt.
    rewrite sorted_items_perm. apply Forall_map.
    clear -IH Hflt. induction IH as [| x l Hx _ IHl]; [constructor |].
    apply Forall_cons_1 in Hflt as [Hfx Hfl].
    constructor; [| by apply IHl]. cbn [fst snd].
    apply Forall_app. split; [apply encode_basestring_ascii_ascii |].
    apply Forall_app. split; [destruct indent; repeat constructor; try lia |].
    by apply Hx.
Qed.

(** X7. The body of the JSON response of a data route is ASCII, whatever
    characters the file has (the encoder escapes the others), and ends
    with a line feed. *)
Theorem data_route_body_ascii rule datafile view (req : request) (w : world)
    (contents : pystr) (v : pyval) :
  data_route rule datafile view ->
  method req = GET -> path req = rule ->
  disk w !! datafile = Some (Text contents) ->
  json_loads contents = Returned v ->
  is_container v = true ->
  floats_print_ascii v ->
  exists body : pystr,
    respond req w = Response 200 "application/json" body
    /\ is_ascii body
    /\ last body = Some 10.
Proof.
  intros Hr Hm Hp Hf Hv Hc Hflt.
  exists (dumps v ++ [10]). split; [| split].
  - unfold respond. rewrite (run_serve_data_route _ _ _ _ _ Hr Hm Hp), Hf.
    simpl. rewrite Hv. by apply finalize_container.
  - apply Forall_app. split; [by apply iterencode_ascii |].
    repeat constructor; try lia.
  - apply last_snoc.
Qed.

(** ** The order of the keys does not show in the body *)

Lemma str_le_total (a b : pystr) : str_le a b = false -> str_le b a = true.
Proof.
  revert b. induction a as [| x a IH]; intros [| y b]; simpl; try done.
  destruct (N.ltb_spec x y), (N.ltb_spec y x); try done; try lia. apply IH.
Qed.

Lemma str_le_antisym (a b : pystr) :
  str_le a b = true -> str_le b a = true -> a = b.
Proof.
  revert b. induction a as [| x a IH]; intros [| y b]; simpl; try done.
  destruct (N.ltb_spec x y), (N.ltb_spec y x); try done; try lia.
  intros H1 H2. assert (x = y) as -> by lia. f_equal. by apply IH.
Qed.

Lemma str_le_trans (a b c : pystr) :
  str_le a b = true -> str_le b c = true -> str_le a c = true.
Proof.
  revert b c. induction a as [| x a IH]; intros [| y b] [| z c]; simpl; try done.
  destruct (N.ltb_spec x y), (N.ltb_spec y x), (N.ltb_spec y z), (N.ltb_spec z y),
    (N.ltb_spec x z), (N.ltb_spec z x); try done; try lia.
  apply IH.
Qed.

#[local] Instance key_lt_trans {A} : Transitive (@key_lt A).
Proof.
  intros x y z [Hxy Nxy] [Hyz Nyz]. split; [by eapply str_le_trans |].
  intros E. rewrite E in Hxy. apply Nyz. by apply str_le_antisym.
Qed.

#[local] Instance key_lt_antisym {A} : AntiSymm (=) (@key_lt A).
Proof.
  intros x y [Hxy Nxy] [Hyx _]. destruct Nxy. by apply str_le_antisym.
Qed.

Lemma insert_item_sorted {A} (kv : pystr * A) (l : list (pystr * A)) :
  kv.1 ∉ map fst l -> Sorted key_lt l -> Sorted key_lt (insert_item kv l).
Proof.
  intros Hnew Hl. induction Hl as [| kv' l Hl IH Hhd]; simpl.
  - by repeat constructor.
  - rewrite map_cons, not_elem_of_cons in Hnew. destruct Hnew as [Hne Hnew].
    destruct (str_le kv.1 kv'.1) eqn:E.
    + constructor; [by constructor |]. by constructor.
    + constructor; [by apply IH |].
      apply str_le_total in E.
      destruct Hhd as [| kv'' l Hlt]; simpl.
      * by repeat constructor.
      * destruct (str_le kv.1 kv''.1); by constructor.
Qed.

Lemma sorted_items_sorted {A} (l : list (pystr * A)) :
  NoDup (map fst l) -> Sorted key_lt (sorted_items l).
Proof.
  induction l as [| kv l IH]; simpl; [constructor |].
  rewrite NoDup_cons. intros [Hnew Hnd].
  apply insert_item_sorted; [| by apply IH].
  change (foldr insert_item [] l) with (sorted_items l).
  by rewrite sorted_items_perm.
Qed.

(** The items of a dictionary come out of [sorted] in one order, whatever
    order they went in. *)
Lemma sorted_items_unique {A} (l1 l2 : list (pystr * A)) :
  l1 ≡ₚ l2 -> NoDup (map fst l1) -> sorted_items l1 = sorted_items l2.
Proof.
  intros Hperm Hnd. apply (Sorted_unique key_lt).
  - by apply sorted_items_sorted.
  - apply sorted_items_sorted. by rewrite <- Hperm.
  - by rewrite !sorted_items_perm.
Qed.

(** Two values that are the same, the order of keys aside, are written
    the same. *)
Lemma same_value_iterencode (v1 : pyval) :
  forall v2 : pyval, same_value v1 v2 -> decoded v2 ->
  forall (indent : bool) (level : nat),
    iterencode indent level v1 = iterencode indent level v2.
Proof.
  induction v1 as [| b | z | f | s | l IH | d1 IH] using pyval_induction;
    intros v2 Hsame Hdec indent level; inversion Hsame; subst; try done.
  - cbn [iterencode]. do 3 f_equal.
    apply decoded_list in Hdec.
    match goal with H : Forall2 same_value _ _ |- _ => rename H into Hall end.
    clear Hsame. revert IH Hdec.
    induction Hall as [| x y l l2 Hxy _ IHall]; [done |].
    intros IH Hdec. apply Forall_cons_1 in IH as [IHx IHl].
    apply Forall_cons_1 in Hdec as [Hy Hl2].
    simpl. f_equal; [by apply IHx | by apply IHall].
  - cbn [iterencode]. do 4 f_equal.
    apply decoded_dict in Hdec as [Hnd Hdec].
    match goal with
    | H1 : d1 ≡ₚ ?d, H2 : Forall2 _ ?d _ |- _ => rename H1 into Hperm; rename H2 into Hall
    end.
    rewrite Hperm in IH.
    assert (Hkeys : map fst d = map fst d2).
    { clear -Hall. induction Hall as [| x y ? ? [Hk _] _ IHall]; [done |].
      simpl. by rewrite Hk, IHall. }
    rewrite (sorted_items_unique _ (map (fun kv => (kv.1, iterencode indent (S level) kv.2)) d)).
    + f_equal. clear Hsame Hperm Hkeys Hnd. revert IH Hdec.
      induction Hall as [| x y ? ? [Hk Hxy] _ IHall]; [done |].
      intros IH Hdec. apply Forall_cons_1 in IH as [IHx IHl].
      apply Forall_cons_1 in Hdec as [[_ Hy] Hl2].
      simpl. f_equal; [| by apply IHall].
      rewrite Hk. f_equal. by apply IHx.
    + by rewrite Hperm.
    + assert (Hfst : forall l : list (pystr * pyval),
        map fst (map (fun kv => (kv.1, iterencode indent (S level) kv.2)) l)
        = map fst l).
      { intros l. induction l as [| ? ? IHl]; simpl; by rewrite ?IHl. }
      by rewrite Hfst, Hperm, Hkeys.
Qed.

Lemma finalize_same_value (v1 v2 : pyval) :
  same_value v1 v2 -> decoded v2 -> finalize (Returned v1) = finalize (Returned v2).
Proof.
  intros Hsame Hdec.
  assert (E : dumps v1 = dumps v2) by (by apply same_value_iterencode).
  destruct Hsame; try done; unfold finalize, make_response; by rewrite E.
Qed.

(** X8. Two data files that hold the same value, the order of the keys of
    its objects aside, are served with the same response, byte for
    byte. *)
Theorem key_order_does_not_show rule datafile view (req : request)
    (w1 w2 : world) (contents1 contents2 : pystr) (v1 v2 : pyval) :
  data_route rule datafile view ->
  method req = GET -> path req = rule ->
  disk w1 !! datafile = Some (Text contents1) ->
  disk w2 !! datafile = Some (Text contents2) ->
  valid_text contents2 ->
  json_loads contents1 = Returned v1 ->
  json_loads contents2 = Returned v2 ->
  same_value v1 v2 ->
  respond req w1 = respond req w2.
Proof.
  intros Hr Hm Hp Hf1 Hf2 Hvalid Hv1 Hv2 Hsame. unfold respond.
  rewrite !(run_serve_data_route _ _ _ _ _ Hr Hm Hp), Hf1, Hf2. simpl.
  rewrite Hv1, Hv2. apply finalize_same_value; [done |].
  by apply (json_loads_decoded contents2).
Qed.

(** ** The body served again *)

Lemma is_container_sort_keys (v : pyval) : is_container (sort_keys v) = is_container v.
Proof. by destruct v. Qed.

(** [json.loads] on what the encoder wrote, indented or not. *)
Lemma json_loads_iterencode (indent : bool) (v : pyval) :
  is_container v = true -> decoded v -> floats_read_back v ->
  json_loads (iterencode indent 0 v ++ [10]) = Returned (sort_keys v).
Proof.
  intros Hc Hdec Hflt.
  pose proof (scan_encoded v Hdec Hflt indent 0%nat) as Hread.
  destruct (reads_as_head _ _ Hread) as (c & r & Etext & Hws & _).
  destruct (Hread [10]) as [n0 Hn0]; [simpl; auto |].
  unfold json_loads.
  assert (Hbom : starts_with_bom (iterencode indent 0 v ++ [10]) = false).
  { destruct v; try done. }
  rewrite Hbom. rewrite (skip_ws_reads_as _ _ _ Hread).
  set (text := iterencode indent 0 v ++ [10]) in *.
  set (budget := (2 * length text + 1)%nat).
  assert (Hbudget : scan_once budget text <> Exhausted).
  { apply (proj1 (scanners_budget budget)). unfold budget. lia. }
  pose proof (scan_once_raise budget (budget `max` n0) text (Nat.le_max_l _ _) Hbudget) as E.
  rewrite Hn0 in E by lia. rewrite <- E. done.
Qed.

(** X9. The body of a JSON response is a data file that is served as itself:
    with the body put in the place of the file, the response is the same,
    byte for byte. *)
Theorem served_body_is_fixed_point rule datafile view (req : request) (w : world)
    (contents : pystr) (v : pyval) :
  data_route rule datafile view ->
  method req = GET -> path req = rule ->
  disk w !! datafile = Some (Text contents) ->
  valid_text contents ->
  json_loads contents = Returned v ->
  is_container v = true ->
  floats_read_back v ->
  exists body : pystr,
    respond req w = Response 200 "application/json" body
    /\ forall w' : world,
         disk w' !! datafile = Some (Text body) ->
         respond req w' = Response 200 "application/json" body.
Proof.
  intros Hr Hm Hp Hf Hvalid Hv Hc Hflt.
  pose proof (json_loads_decoded _ _ Hvalid Hv) as Hdec.
  exists (dumps v ++ [10]). split.
  - unfold respond. rewrite (run_serve_data_route _ _ _ _ _ Hr Hm Hp), Hf.
    simpl. rewrite Hv. by apply finalize_container.
  - intros w' Hf'. unfold respond.
    rewrite (run_serve_data_route _ _ _ _ _ Hr Hm Hp), Hf'. simpl.
    rewrite (json_loads_dumps v Hc Hdec Hflt).
    rewrite (finalize_same_value (sort_keys v) v (sort_keys_same_value v) Hdec).
    by apply finalize_container.
Qed.

(** ** The debug flag and the white space of the body *)

Lemma without_ws_app (a b : pystr) : without_ws (a ++ b) = without_ws a ++ without_ws b.
Proof. apply filter_app. Qed.

Lemma without_ws_newline_indent (indent : bool) (level : nat) :
  without_ws (newline_indent indent level) = [].
Proof.
  unfold newline_indent. destruct indent; [| done].
  unfold without_ws. rewrite filter_cons_False by (cbv; congruence).
  induction (2 * level)%nat as [| n IH]; simpl; [done |].
  by rewrite filter_cons_False by (cbv; congruence).
Qed.

Lemma without_ws_join_items (indent : bool) (level : nat) (items : list pystr) :
  without_ws (join_items indent level items) =
    match map without_ws items with
    | [] => []
    | x :: r => x ++ concat (map (cons 44) r)
    end.
Proof.
  destruct items as [| x r]; [done |]. unfold join_items.
  rewrite !without_ws_app, !without_ws_newline_indent, app_nil_r. cbn [map app].
  f_equal. induction r as [| y r IH]; [done |].
  cbn [map concat]. rewrite without_ws_app. f_equal; [| done].
  change (44 :: newline_indent indent (S level) ++ y)
    with ([44] ++ newline_indent indent (S level) ++ y).
  by rewrite !without_ws_app, without_ws_newline_indent.
Qed.

(** Indented or not, at whatever depth, the encoder writes the same text,
    white space aside. *)
Lemma without_ws_iterencode (v : pyval) :
  forall (indent indent' : bool) (level level' : nat),
    without_ws (iterencode indent level v) = without_ws (iterencode indent' level' v).
Proof.
  induction v as [| b | z | f | s | l IH | d IH] using pyval_induction;
    intros indent indent' level level'; try done.
  - cbn [iterencode]. rewrite !without_ws_app, !without_ws_join_items.
    assert (E : map without_ws (map (iterencode indent (S level)) l)
                = map without_ws (map (iterencode indent' (S level')) l)).
    { induction IH as [| x l Hx _ IHl]; [done |]. simpl.
      by rewrite IHl, (Hx indent indent' (S level) (S level')). }
    by rewrite E.
  - cbn [iterencode]. rewrite !without_ws_app, !without_ws_join_items.
    rewrite !(sorted_items_map (fun x => iterencode _ _ x)), !map_map.
    assert (IH' : Forall (fun kv => forall (indent indent' : bool) (level level' : nat),
               without_ws (iterencode indent level kv.2)
               = without_ws (iterencode indent' level' kv.2)) (sorted_items d)).
    { by rewrite sorted_items_perm. }
    assert (E : map (fun kv : pystr * pyval =>
                  without_ws (encode_basestring_ascii (kv.1, iterencode indent (S level) kv.2).1
                    ++ key_separator indent ++ (kv.1, iterencode indent (S level) kv.2).2))
                  (sorted_items d)
                = map (fun kv : pystr * pyval =>
                  without_ws (encode_basestring_ascii (kv.1, iterencode indent' (S level') kv.2).1
                    ++ key_separator indent' ++ (kv.1, iterencode indent' (S level') kv.2).2))
                  (sorted_items d)).
    { clear IH. induction IH' as [| x l Hx _ IHl]; [done |]. cbn [map].
      rewrite IHl. cbn [fst snd].
      rewrite !without_ws_app, (Hx indent indent' (S level) (S level')).
      by destruct indent, indent'. }
    by rewrite E.
Qed.

(** X10. The debug flag changes the white space of a JSON body and nothing
    else: the body written with the flag on and the body written with it
    off are the same text once white space is taken out, and [json.loads]
    reads the same value from both. *)
Theorem debug_changes_white_space_only rule datafile view (req : request) (w : world)
    (contents : pystr) (v : pyval) :
  data_route rule datafile view ->
  method req = GET -> path req = rule ->
  disk w !! datafile = Some (Text contents) ->
  valid_text contents ->
  json_loads contents = Returned v ->
  is_container v = true ->
  floats_read_back v ->
  respond req w = Response 200 "application/json" (iterencode debug 0 v ++ [10])
  /\ without_ws (iterencode true 0 v ++ [10]) = without_ws (iterencode false 0 v ++ [10])
  /\ json_loads (iterencode true 0 v ++ [10]) = json_loads (iterencode false 0 v ++ [10]).
Proof.
  intros Hr Hm Hp Hf Hvalid Hv Hc Hflt.
  pose proof (json_loads_decoded _ _ Hvalid Hv) as Hdec.
  split; [| split].
  - unfold respond. rewrite (run_serve_data_route _ _ _ _ _ Hr Hm Hp), Hf.
    simpl. rewrite Hv. by apply finalize_container.
  - by rewrite !without_ws_app, (without_ws_iterencode v true false 0%nat 0%nat).
  - by rewrite !json_loads_iterencode.
Qed.

(** ** Text after what a scanner read *)

Lemma skip_ws_app_cons (s t : pystr) (c : N) (r : pystr) :
  skip_ws s = c :: r -> skip_ws (s ++ t) = c :: r ++ t.
Proof.
  induction s as [| x s IH]; simpl; [done |].
  destruct (is_ws x); [done |]. by intros; simplify_eq.
Qed.

Lemma skip_ws_app_blank (s t : pystr) : blank s -> skip_ws (s ++ t) = skip_ws t.
Proof. induction 1 as [| c s Hc _ IH]; simpl; [done |]. by rewrite Hc. Qed.

Lemma skip_ws_nil_blank (s : pystr) : skip_ws s = [] -> blank s.
Proof.
  induction s as [| c s IH]; simpl; [constructor |].
  destruct (is_ws c) eqn:E; [| done]. intros H. constructor; [done | by apply IH].
Qed.

Lemma blank_continues (s t : pystr) : blank s -> blank t -> continues (s ++ t) = false.
Proof.
  assert (H : forall l, blank l -> continues l = false).
  { intros l [| c l' Hc _]; [done |]. simpl. unfold is_ws in Hc. unfold is_digit.
    revert Hc. cmp. }
  intros Hs Ht. apply H. by apply Forall_app.
Qed.

Lemma skip_ws_continues (s t : pystr) (c : N) (r : pystr) :
  skip_ws s = c :: r -> continues [c] = false -> continues (s ++ t) = false.
Proof.
  destruct s as [| x s']; [done |]. simpl.
  destruct (is_ws x) eqn:E.
  - intros _ _. unfold is_ws in E. unfold is_digit. revert E. cmp.
  - intros; by simplify_eq.
Qed.

Lemma strip_prefix_ext (w s r t : pystr) :
  strip_prefix w s = Some r -> strip_prefix w (s ++ t) = Some (r ++ t).
Proof.
  revert s. induction w as [| a w IH]; intros [| b s] H; simpl in *;
    simplify_eq; try done.
  destruct (a =? b); [by apply IH | done].
Qed.

Lemma span_digits_ext (s t ds r : pystr) :
  span_digits s = (ds, r) -> (r = [] -> digit_head t = false) ->
  span_digits (s ++ t) = (ds, r ++ t).
Proof.
  revert ds r. induction s as [| c s IH]; intros ds r H Ht; simpl in *.
  - simplify_eq. destruct t as [| c t]; [done |]. simpl in *. by rewrite Ht.
  - destruct (is_digit c); [| by simplify_eq].
    destruct (span_digits s) as [ds' r'] eqn:E. simplify_eq.
    by rewrite (IH ds' r eq_refl Ht).
Qed.

Lemma match_integer_ext (s t integer r : pystr) :
  match_integer s = Some (integer, r) -> (r = [] -> digit_head t = false) ->
  match_integer (s ++ t) = Some (integer, r ++ t).
Proof.
  unfold match_integer. intros H Ht.
  assert (Hgen : forall sign s1,
    match s1 with
    | c :: r0 =>
        if c =? 48 then Some (sign ++ [48], r0)
        else if is_digit c then
          let '(ds, rest) := span_digits r0 in Some (sign ++ c :: ds, rest)
        else None
    | [] => None
    end = Some (integer, r) ->
    match s1 ++ t with
    | c :: r0 =>
        if c =? 48 then Some (sign ++ [48], r0)
        else if is_digit c then
          let '(ds, rest) := span_digits r0 in Some (sign ++ c :: ds, rest)
        else None
    | [] => None
    end = Some (integer, r ++ t)).
  { intros sign [| c r0] Hm; [done |]. simpl.
    destruct (c =? 48); [by simplify_eq |].
    destruct (is_digit c); [| done].
    destruct (span_digits r0) as [ds rest] eqn:E. simplify_eq.
    by rewrite (span_digits_ext _ t _ _ E Ht). }
  destruct s as [| c r0]; [done |]. simpl.
  destruct (c =? 45).
  - by apply (Hgen [45] r0).
  - by apply (Hgen [] (c :: r0)).
Qed.

Lemma match_frac_ext (s t frac r : pystr) :
  match_frac s = (frac, r) -> frac_head (r ++ t) = false ->
  match_frac (s ++ t) = (frac, r ++ t).
Proof.
  unfold match_frac. destruct s as [| c r0].
  - intros; simplify_eq. simpl in *. destruct t as [| c t]; [done |].
    simpl in *. apply orb_false_iff in H0 as [_ ->]. done.
  - simpl. destruct (c =? 46) eqn:Ec; [| by intros; simplify_eq].
    destruct (span_digits r0) as [[| d ds] rest] eqn:E; intros H Ht; simplify_eq.
    + simpl in Ht. rewrite Ec in Ht. by rewrite orb_true_r in Ht.
    + rewrite (span_digits_ext _ t _ _ E); [done |].
      intros ->. simpl in Ht. destruct t as [| x t]; [done |].
      simpl in *. by apply orb_false_iff in Ht as [-> _].
Qed.

Lemma match_exp_ext (s t e r : pystr) :
  match_exp s = (e, r) -> continues (r ++ t) = false ->
  match_exp (s ++ t) = (e, r ++ t).
Proof.
  unfold match_exp. destruct s as [| c r0].
  - intros; simplify_eq. simpl in *. destruct t as [| c t]; [done |].
    simpl in *. rewrite <- !orb_assoc in H0.
    apply orb_false_iff in H0 as [_ H0]. apply orb_false_iff in H0 as [_ ->]. done.
  - simpl. destruct ((c =? 101) || (c =? 69)) eqn:Ec; [| by intros; simplify_eq].
    assert (Hdigits : forall sign r1,
      match span_digits r1 with
      | ([], _) => ([], c :: r0)
      | (ds, rest) => (c :: sign ++ ds, rest)
      end = (e, r) -> continues (r ++ t) = false ->
      exists d ds, span_digits r1 = (d :: ds, r) /\ e = c :: sign ++ d :: ds
        /\ span_digits (r1 ++ t) = (d :: ds, r ++ t)).
    { intros sign r1 H Ht.
      destruct (span_digits r1) as [[| d ds] rest] eqn:E; simplify_eq.
      - simpl in Ht. rewrite <- !orb_assoc in Ht.
        apply orb_false_iff in Ht as [_ Ht]. apply orb_false_iff in Ht as [_ Ht].
        by rewrite Ec in Ht.
      - exists d, ds. split; [done |]. split; [done |].
        apply (span_digits_ext _ t _ _ E). intros ->.
        destruct t as [| x t]; [done |]. simpl in *.
        rewrite <- !orb_assoc in Ht. by apply orb_false_iff in Ht as [-> _]. }
    intros H Ht. destruct r0 as [| g r'].
    + destruct (Hdigits [] [] H Ht) as (d & ds & E & _). done.
    + simpl. destruct ((g =? 45) || (g =? 43)).
      * destruct (Hdigits [g] r' H Ht) as (d & ds & _ & -> & ->). done.
      * destruct (Hdigits [] (g :: r') H Ht) as (d & ds & _ & -> & E').
        change ((g :: r') ++ t) with (g :: r' ++ t) in E'. by rewrite E'.
Qed.

Lemma match_frac_none (s r : pystr) : match_frac s = ([], r) -> r = s.
Proof.
  unfold match_frac. destruct s as [| c r0]; [by intros; simplify_eq |].
  destruct (c =? 46); [| by intros; simplify_eq].
  destruct (span_digits r0) as [[| d ds] rest]; by intros; simplify_eq.
Qed.

Lemma match_frac_some (s r frac : pystr) :
  match_frac s = (frac, r) -> frac <> [] -> exists s', s = 46 :: s'.
Proof.
  unfold match_frac. destruct s as [| c r0]; [by intros; simplify_eq |].
  destruct (N.eqb_spec c 46) as [-> | _]; [by eexists | by intros; simplify_eq].
Qed.

Lemma match_exp_none (s r : pystr) : match_exp s = ([], r) -> r = s.
Proof.
  unfold match_exp. destruct s as [| c r0]; [by intros; simplify_eq |].
  destruct ((c =? 101) || (c =? 69)); [| by intros; simplify_eq].
  destruct r0 as [| g r']; [simpl; by intros; simplify_eq |].
  destruct ((g =? 45) || (g =? 43));
    destruct (span_digits _) as [[| d ds] rest]; by intros; simplify_eq.
Qed.

Lemma match_exp_some (s r e : pystr) :
  match_exp s = (e, r) -> e <> [] -> exists c s', s = c :: s' /\ (c =? 101) || (c =? 69) = true.
Proof.
  unfold match_exp. destruct s as [| c r0]; [by intros; simplify_eq |].
  destruct ((c =? 101) || (c =? 69)) eqn:E; [by eexists _, _ | by intros; simplify_eq].
Qed.

Lemma continues_frac_head (s : pystr) : continues s = false -> frac_head s = false.
Proof.
  destruct s as [| c s]; [done |]. simpl. rewrite <- !orb_assoc.
  intros H. apply orb_false_iff in H as [-> H]. by apply orb_false_iff in H as [-> _].
Qed.

Lemma continues_digit_head (s : pystr) : continues s = false -> digit_head s = false.
Proof.
  destruct s as [| c s]; [done |]. simpl. rewrite <- !orb_assoc.
  intros H. by apply orb_false_iff in H as [-> H].
Qed.

Lemma match_number_ext (s t integer frac e r : pystr) :
  match_number s = Some (integer, frac, e, r) -> continues (r ++ t) = false ->
  match_number (s ++ t) = Some (integer, frac, e, r ++ t).
Proof.
  unfold match_number. intros H Ht.
  destruct (match_integer s) as [[i s1] |] eqn:Ei; [| done].
  destruct (match_frac s1) as [f s2] eqn:Ef.
  destruct (match_exp s2) as [x s3] eqn:Ex. simplify_eq.
  assert (Hfrac : frac_head (s2 ++ t) = false).
  { destruct (decide (e = [])) as [-> | Hne].
    - apply match_exp_none in Ex as ->. by apply continues_frac_head.
    - destruct (match_exp_some _ _ _ Ex Hne) as (c & s' & -> & Hc). simpl.
      apply orb_true_iff in Hc as [Hc | Hc]; apply N.eqb_eq in Hc as ->; done. }
  assert (Hint : s1 = [] -> digit_head t = false).
  { intros ->. assert (frac = []) as ->.
    { destruct frac; [done |]. by destruct (match_frac_some _ _ _ Ef) as (? & ?). }
    apply match_frac_none in Ef as ->. simpl in Hfrac.
    destruct t as [| c t]; [done |]. simpl in *.
    by apply orb_false_iff in Hfrac as [-> _]. }
  rewrite (match_integer_ext _ t _ _ Ei Hint).
  rewrite (match_frac_ext _ t _ _ Ef Hfrac).
  by rewrite (match_exp_ext _ t _ _ Ex Ht).
Qed.


Lemma scanstring_ext (t : pystr) (n : nat) :
  forall s str r, (length s <= n)%nat -> scanstring s = Scanned str r ->
    scanstring (s ++ t) = Scanned str (r ++ t).
Proof.
  induction n as [| n IH]; intros s str r Hlen.
  { destruct s; [done | simpl in Hlen; lia]. }
  assert (Hrec : forall (s' : pystr) (x : N),
    (length s' <= n)%nat ->
    scan_map (cons x) (scanstring s') = Scanned str r ->
    scan_map (cons x) (scanstring (s' ++ t)) = Scanned str (r ++ t)).
  { intros s' x Hs' H. apply scan_map_scanned in H as (str' & H & ->).
    by rewrite (IH _ _ _ Hs' H). }
  intros H. destruct s as [| c s1]; [done |]. cbn [scanstring app] in *.
  destruct (c =? 34).
  { by simplify_eq. }
  destruct (c =? 92).
  - destruct s1 as [| esc r1]; [done |]. cbn [app].
    destruct (esc =? 117).
    + destruct r1 as [| h1 [| h2 [| h3 [| h4 r2]]]]; try done. cbn [app].
      destruct (decode_uXXXX h1 h2 h3 h4) as [uni |]; [| done].
      destruct (is_high_surrogate uni && starts_backslash_u r2) eqn:Eh.
      * destruct r2 as [| b [| u [| l1 [| l2 [| l3 [| l4 r3]]]]]]; try done.
        cbn [app]. replace (starts_backslash_u (b :: u :: l1 :: l2 :: l3 :: l4 :: r3 ++ t))
          with (starts_backslash_u (b :: u :: l1 :: l2 :: l3 :: l4 :: r3)) by done.
        rewrite Eh.
        destruct (decode_uXXXX l1 l2 l3 l4) as [uni2 |]; [| done].
        destruct (is_low_surrogate uni2).
        -- apply Hrec; [| done]. simpl in Hlen. lia.
        -- apply (Hrec (b :: u :: l1 :: l2 :: l3 :: l4 :: r3)); [| done].
           simpl in *. lia.
      * assert (Eh' : is_high_surrogate uni && starts_backslash_u (r2 ++ t) = false).
        { destruct (is_high_surrogate uni); [| done]. simpl in *.
          destruct r2 as [| b [| u r2']]; [done | | done].
          cbn [scanstring] in H. destruct (N.eqb_spec b 34) as [-> | Hb].
          - by destruct t.
          - destruct (b =? 92); [done |]. by destruct (b <? 32). }
        rewrite Eh'. apply Hrec; [| done]. simpl in Hlen. lia.
    + destruct (backslash esc) as [ch |]; [| done].
      apply Hrec; [| done]. simpl in Hlen. lia.
  - destruct (c <? 32); [done |].
    apply Hrec; [| done]. simpl in Hlen. lia.
Qed.

Lemma scanstring_ext' (s t str r : pystr) :
  scanstring s = Scanned str r -> scanstring (s ++ t) = Scanned str (r ++ t).
Proof. by apply (scanstring_ext t (length s)). Qed.

Lemma match_integer_head (c : N) (r integer rest : pystr) :
  match_integer (c :: r) = Some (integer, rest) -> c = 45 \/ is_digit c = true.
Proof.
  unfold match_integer. destruct (N.eqb_spec c 45) as [-> | _]; [auto |].
  destruct (N.eqb_spec c 48) as [-> | _]; [auto |].
  destruct (is_digit c); [auto | done].
Qed.

(** A constant or a number, with text after it. *)
Lemma scan_once_scalar_ext (n : nat) (c : N) (r t : pystr) (v : pyval) (rest : pystr) :
  (c =? 34) = false -> (c =? 123) = false -> (c =? 91) = false ->
  scan_once (S n) (c :: r) = Scanned v rest ->
  (is_number v = true -> continues (rest ++ t) = false) ->
  scan_once (S n) ((c :: r) ++ t) = Scanned v (rest ++ t).
Proof.
  intros H34 H123 H91 H Ht. cbn [scan_once app] in *.
  rewrite H34, H123, H91 in *.
  change (c :: r ++ t) with ((c :: r) ++ t).
  destruct (strip_prefix (py "null") (c :: r)) as [r0 |] eqn:E1.
  { apply strip_prefix_app in E1. cbn in E1. by simplify_eq. }
  destruct (strip_prefix (py "true") (c :: r)) as [r0 |] eqn:E2.
  { apply strip_prefix_app in E2. cbn in E2. by simplify_eq. }
  destruct (strip_prefix (py "false") (c :: r)) as [r0 |] eqn:E3.
  { apply strip_prefix_app in E3. cbn in E3. by simplify_eq. }
  destruct (match_number (c :: r)) as [[[[i f] e] r0] |] eqn:En.
  - assert (Hv : is_number v = true /\ r0 = rest).
    { destruct f, e; by simplify_eq. }
    destruct Hv as [Hv ->]. specialize (Ht Hv).
    rewrite (match_number_ext _ t _ _ _ _ En Ht).
    assert (Hc : c = 45 \/ is_digit c = true).
    { unfold match_number in En.
      destruct (match_integer (c :: r)) as [[i' s1] |] eqn:Ei; [| done].
      by apply match_integer_head in Ei. }
    change (py "null") with (110 :: py "ull").
    change (py "true") with (116 :: py "rue").
    change (py "false") with (102 :: py "alse").
    cbn [app]. rewrite !strip_prefix_head.
    + destruct f, e; by simplify_eq.
    + destruct Hc as [-> | Hc]; [done |]. unfold is_digit in Hc. revert Hc. cmp.
    + destruct Hc as [-> | Hc]; [done |]. unfold is_digit in Hc. revert Hc. cmp.
    + destruct Hc as [-> | Hc]; [done |]. unfold is_digit in Hc. revert Hc. cmp.
  - destruct (strip_prefix (py "NaN") (c :: r)) as [r0 |] eqn:E4.
    { apply strip_prefix_app in E4. cbn in E4. by simplify_eq. }
    destruct (strip_prefix (py "Infinity") (c :: r)) as [r0 |] eqn:E5.
    { apply strip_prefix_app in E5. cbn in E5. by simplify_eq. }
    destruct (strip_prefix (py "-Infinity") (c :: r)) as [r0 |] eqn:E6; [| done].
    apply strip_prefix_app in E6. cbn in E6. by simplify_eq.
Qed.

(** What a scanner read from a text it reads from the text with more
    after it, and leaves the more: after a number, as long as what comes
    does not go on with the number. *)
Lemma scanners_ext (t : pystr) (n : nat) :
  (forall s v r, scan_once n s = Scanned v r ->
     (is_number v = true -> continues (r ++ t) = false) ->
     scan_once n (s ++ t) = Scanned v (r ++ t))
  /\ (forall s l r, array_items n s = Scanned l r ->
        array_items n (s ++ t) = Scanned l (r ++ t))
  /\ (forall s l r, object_items n s = Scanned l r ->
        object_items n (s ++ t) = Scanned l (r ++ t)).
Proof.
  induction n as [| n (IHv & IHa & IHo)]; [done |].
  split; [| split].
  - intros s v r H Ht. destruct s as [| c s1]; [done |].
    destruct (c =? 34) eqn:E34.
    { cbn [scan_once app] in *. rewrite E34 in *.
      apply scan_map_scanned in H as (str & H & ->).
      by rewrite (scanstring_ext' _ t _ _ H). }
    destruct (c =? 123) eqn:E123.
    { cbn [scan_once app] in *. rewrite E34, E123 in *.
      destruct (skip_ws s1) as [| c' r1] eqn:Ews; [done |].
      rewrite (skip_ws_app_cons _ t _ _ Ews).
      destruct (c' =? 125); [by simplify_eq |].
      destruct (c' =? 34); [| done].
      apply scan_map_scanned in H as (pairs & H & ->).
      by rewrite (IHo _ _ _ H). }
    destruct (c =? 91) eqn:E91.
    { cbn [scan_once app] in *. rewrite E34, E123, E91 in *.
      destruct (skip_ws s1) as [| c' r1] eqn:Ews; [done |].
      rewrite (skip_ws_app_cons _ t _ _ Ews).
      destruct (c' =? 93); [by simplify_eq |].
      apply scan_map_scanned in H as (l & H & ->).
      apply IHa in H. cbn [app] in H. by rewrite H. }
    by apply scan_once_scalar_ext.
  - intros s l r. rewrite (array_items_S n s), (array_items_S n (s ++ t)). intros H.
    destruct (scan_once n s) as [value s1 | |] eqn:Ev; try done.
    destruct (skip_ws s1) as [| c r0] eqn:Ews; [done |].
    assert (Hc : continues (s1 ++ t) = false).
    { apply (skip_ws_continues _ _ _ _ Ews).
      destruct (N.eqb_spec c 93) as [-> | _]; [done |].
      destruct (N.eqb_spec c 44) as [-> | _]; done. }
    rewrite (IHv _ _ _ Ev (fun _ => Hc)), (skip_ws_app_cons _ t _ _ Ews).
    destruct (c =? 93); [by simplify_eq |].
    destruct (c =? 44); [| done].
    apply scan_map_scanned in H as (l' & H & ->).
    destruct (skip_ws r0) as [| c' r1] eqn:Ews'.
    { by destruct n as [| [| n']]. }
    rewrite (skip_ws_app_cons _ t _ _ Ews').
    apply IHa in H. cbn [app] in H. by rewrite H.
  - intros s l r. rewrite (object_items_S n s), (object_items_S n (s ++ t)). intros H.
    destruct (scanstring s) as [key s1 | |] eqn:Ek; try done.
    rewrite (scanstring_ext' _ t _ _ Ek).
    destruct (skip_ws s1) as [| colon s2] eqn:Ews; [done |].
    rewrite (skip_ws_app_cons _ t _ _ Ews).
    destruct (colon =? 58); [| done].
    destruct (scan_once n (skip_ws s2)) as [value s3 | |] eqn:Ev; try done.
    destruct (skip_ws s3) as [| c r0] eqn:Ews3; [done |].
    assert (Hc : continues (s3 ++ t) = false).
    { apply (skip_ws_continues _ _ _ _ Ews3).
      destruct (N.eqb_spec c 125) as [-> | _]; [done |].
      destruct (N.eqb_spec c 44) as [-> | _]; done. }
    destruct (skip_ws s2) as [| c2 r2] eqn:Ews2.
    { by destruct n. }
    rewrite (skip_ws_app_cons _ t _ _ Ews2).
    pose proof (IHv _ _ _ Ev (fun _ => Hc)) as Ev'. cbn [app] in Ev'. rewrite Ev'.
    rewrite (skip_ws_app_cons _ t _ _ Ews3).
    destruct (c =? 125); [by simplify_eq |].
    destruct (c =? 44); [| done].
    destruct (skip_ws r0) as [| q r'] eqn:Ews4; [done |].
    rewrite (skip_ws_app_cons _ t _ _ Ews4).
    destruct (q =? 34); [| done].
    apply scan_map_scanned in H as (l' & H & ->).
    by rewrite (IHo _ _ _ H).
Qed.


(** What [json.loads] goes through on a text it returns a value from. *)
Lemma json_loads_returned (s : pystr) (v : pyval) :
  json_loads s = Returned v ->
  exists c r rest,
    starts_with_bom s = false /\ skip_ws s = c :: r /\ is_ws c = false
    /\ scan_once (2 * length s + 1) (c :: r) = Scanned v rest /\ skip_ws rest = [].
Proof.
  unfold json_loads. destruct (starts_with_bom s); [done |].
  destruct (scan_once _ (skip_ws s)) as [obj rest | |] eqn:E; try done.
  destruct (skip_ws rest) eqn:Er; [| done]. intros; simplify_eq.
  destruct (scanned_head _ _ _ _ E) as (c & r & Es & Hc & _).
  exists c, r, rest. by rewrite <- Es.
Qed.

Lemma starts_with_bom_app (s t : pystr) (c : N) (r : pystr) :
  skip_ws s = c :: r -> starts_with_bom (s ++ t) = starts_with_bom s.
Proof. by destruct s. Qed.

Lemma json_loads_around (s before after : pystr) (v : pyval) :
  json_loads s = Returned v -> blank before -> blank after ->
  json_loads (before ++ s ++ after) = Returned v.
Proof.
  intros H Hb Ha.
  destruct (json_loads_returned _ _ H) as (c & r & rest & Hbom & Ews & Hc & E & Hrest).
  unfold json_loads.
  assert (Hbom' : starts_with_bom (before ++ s ++ after) = false).
  { destruct Hb as [| b before Hb _]; simpl.
    - by rewrite (starts_with_bom_app _ _ _ _ Ews).
    - unfold is_ws in Hb. revert Hb. cmp. }
  rewrite Hbom', (skip_ws_app_blank _ _ Hb), (skip_ws_app_cons _ after _ _ Ews).
  assert (Hcont : continues (rest ++ after) = false).
  { apply blank_continues; [by apply skip_ws_nil_blank | done]. }
  pose proof (proj1 (scanners_ext after _) _ _ _ E (fun _ => Hcont)) as E'.
  cbn [app] in E'.
  rewrite (scan_once_raise (2 * length s + 1)); [| rewrite !length_app; lia | by rewrite E'].
  rewrite E', (skip_ws_app_blank _ _ (skip_ws_nil_blank _ Hrest)).
  by rewrite (skip_ws_blank _ Ha).
Qed.

Lemma json_loads_more (s more : pystr) (v : pyval) :
  json_loads s = Returned v -> is_number v = false -> ~ blank more ->
  json_loads (s ++ more) = Raised JSONDecodeError.
Proof.
  intros H Hv Hmore.
  destruct (json_loads_returned _ _ H) as (c & r & rest & Hbom & Ews & Hc & E & Hrest).
  unfold json_loads.
  rewrite (starts_with_bom_app _ _ _ _ Ews), Hbom, (skip_ws_app_cons _ more _ _ Ews).
  assert (Hnum : is_number v = true -> continues (rest ++ more) = false).
  { by rewrite Hv. }
  pose proof (proj1 (scanners_ext more _) _ _ _ E Hnum) as E'.
  cbn [app] in E'.
  rewrite (scan_once_raise (2 * length s + 1)); [| rewrite !length_app; lia | by rewrite E'].
  rewrite E', (skip_ws_app_blank _ _ (skip_ws_nil_blank _ Hrest)).
  destruct (skip_ws more) eqn:Em; [| done].
  by apply skip_ws_nil_blank in Em.
Qed.

(** X11. White space before and after the document of a data file does not
    show: the file with the white space is served as the file without
    it. *)
Theorem white_space_around_document rule datafile view (req : request)
    (w w' : world) (contents before after : pystr) (v : pyval) :
  data_route rule datafile view ->
  method req = GET -> path req = rule ->
  disk w !! datafile = Some (Text contents) ->
  json_loads contents = Returned v ->
  blank before -> blank after ->
  disk w' !! datafile = Some (Text (before ++ contents ++ after)) ->
  respond req w' = respond req w.
Proof.
  intros Hr Hm Hp Hf Hv Hb Ha Hf'. unfold respond.
  rewrite !(run_serve_data_route _ _ _ _ _ Hr Hm Hp), Hf, Hf'. simpl.
  by rewrite (json_loads_around _ _ _ _ Hv Hb Ha), Hv.
Qed.

(** X12. Text after the document of a data file, other than white space, makes
    the file one [json.load] does not take: a file of two documents, one
    after the other, is answered with the default page for an internal
    server error.  (After a number the text could go on with the number;
    after any other value it cannot.) *)
Theorem text_after_document rule datafile view (req : request)
    (w : world) (contents more : pystr) (v : pyval) :
  data_route rule datafile view ->
  method req = GET -> path req = rule ->
  json_loads contents = Returned v ->
  is_number v = false ->
  ~ blank more ->
  disk w !! datafile = Some (Text (contents ++ more)) ->
  run view w = (Raised JSONDecodeError, w)
  /\ respond req w = DefaultErrorPage 500 (Some JSONDecodeError).
Proof.
  intros Hr Hm Hp Hv Hnum Hmore Hf.
  pose proof (json_loads_more _ _ _ Hv Hnum Hmore) as Hloads.
  split.
  - rewrite (data_route_view _ _ _ Hr), run_data_view, Hf. simpl. by rewrite Hloads.
  - unfold respond. rewrite (run_serve_data_route _ _ _ _ _ Hr Hm Hp), Hf. simpl.
    by rewrite Hloads.
Qed.

(** ** Each route reads one file *)

(** X13. A request to one of the three rules is answered from one file: two
    worlds in which the path of that file leads to the same thing give
    the same response, whatever else differs; and no other path is
    opened. *)
Theorem route_reads_one_file (req : request) (w w' : world) (f : string) :
  (path req = "/" /\ f = "templates/index.html")
  \/ (path req = "/points" /\ f = "static/data/features.json")
  \/ (path req = "/polygons" /\ f = "static/data/features_poly.json") ->
  disk w !! f = disk w' !! f ->
  respond req w = respond req w'
  /\ (forall p, p ∈ opened_paths (calls (serve req) w) -> p = f).
Proof.
  intros Hroute Hsame.
  assert (Hview : exists view : prog (outcome pyval),
    match_rule url_map (path req) = Some view
    /\ (run view w).1 = (run view w').1
    /\ (forall p, p ∈ opened_paths (calls view w) -> p = f)).
  { destruct Hroute as [[-> ->] | [[-> ->] | [-> ->]]].
    - exists home. split; [done |]. unfold home. split.
      + unfold render_template. rewrite !run_bind, !run_read_file.
        change ("templates/" +:+ "index.html") with "templates/index.html".
        rewrite Hsame. simpl.
        destruct (disk w' !! "templates/index.html") as [[source | |] |]; simpl;
          try done.
        by destruct (jinja_render source).
      + rewrite calls_render_template, calls_read_file.
        change ("templates/" +:+ "index.html") with "templates/index.html".
        intros p. destruct (disk w !! "templates/index.html") as [[| |] |]; simpl;
          rewrite ?elem_of_cons, elem_of_nil; by intros [-> | []].
    - exists points. split; [done |]. unfold points. split.
      + by rewrite !run_data_view, Hsame.
      + rewrite calls_data_view.
        intros p. destruct (disk w !! "static/data/features.json") as [[| |] |]; simpl;
          rewrite ?elem_of_cons, elem_of_nil; by intros [-> | []].
    - exists polygons. split; [done |]. unfold polygons. split.
      + by rewrite !run_data_view, Hsame.
      + rewrite calls_data_view.
        intros p. destruct (disk w !! "static/data/features_poly.json") as [[| |] |]; simpl;
          rewrite ?elem_of_cons, elem_of_nil; by intros [-> | []]. }
  destruct Hview as (view & Hrule & Hrun & Hcalls).
  unfold respond, serve. rewrite Hrule.
  destruct (method req); simpl; rewrite ?run_bind, ?calls_bind; simpl;
    rewrite ?Hrun, ?app_nil_r; (split; [done |]); try done;
    intros p; rewrite ?elem_of_nil; done.
Qed.

(** ** A key given twice *)

Lemma dict_get_set (d : list (pystr * pyval)) (k k' : pystr) (v : pyval) :
  dict_get (dict_set d k v) k' = if decide (k = k') then Some v else dict_get d k'.
Proof.
  induction d as [| [k0 v0] d IH]; simpl.
  - done.
  - destruct (decide (k0 = k)) as [-> | Hne]; simpl.
    + by destruct (decide (k = k')).
    + rewrite IH. destruct (decide (k0 = k')) as [-> | ?]; [| done].
      by rewrite decide_False.
Qed.

Lemma dict_get_snoc (d : list (pystr * pyval)) (k k' : pystr) (v : pyval) :
  dict_get (d ++ [(k, v)]) k' =
    match dict_get d k' with
    | Some x => Some x
    | None => if decide (k = k') then Some v else None
    end.
Proof.
  induction d as [| [k0 v0] d IH]; simpl; [done |].
  by destruct (decide (k0 = k')).
Qed.

(** [dict(pairs)] has, for each key, the value of the last pair with the
    key. *)
Lemma dict_of_pairs_get (pairs : list (pystr * pyval)) (k : pystr) :
  dict_get (dict_of_pairs pairs) k = dict_get (reverse pairs) k.
Proof.
  unfold dict_of_pairs.
  assert (H : forall d,
    dict_get (foldl (fun d kv => dict_set d kv.1 kv.2) d pairs) k =
      match dict_get (reverse pairs) k with
      | Some x => Some x
      | None => dict_get d k
      end).
  { induction pairs as [| [k0 v0] pairs IH]; intros d; simpl; [done |].
    rewrite IH, reverse_cons, dict_get_snoc, dict_get_set. simpl.
    destruct (dict_get (reverse pairs) k); [done |].
    by destruct (decide (k0 = k)). }
  rewrite H. by destruct (dict_get (reverse pairs) k).
Qed.

(** X14. An object of the file with a key given more than once is decoded to a
    dictionary with the key once, and with the value given last. *)
Theorem repeated_key_takes_last_value (n : nat) (s : pystr)
    (pairs : list (pystr * pyval)) (r : pystr) :
  object_items n s = Scanned pairs r ->
  exists d : list (pystr * pyval),
    scan_once (S n) (123 :: 34 :: s) = Scanned (PDict d) r
    /\ NoDup (map fst d)
    /\ forall k : pystr, dict_get d k = dict_get (reverse pairs) k.
Proof.
  intros H. exists (dict_of_pairs pairs). split; [| split].
  - cbn. by rewrite H.
  - apply (dict_of_pairs_decoded (fun _ => True)). by apply Forall_forall.
  - apply dict_of_pairs_get.
Qed.

(** ** The order of the keys in the body *)

Lemma map_fst_items {A B} (g : A -> B) (l : list (pystr * A)) :
  map fst (map (fun kv => (kv.1, g kv.2)) l) = map fst l.
Proof. induction l as [| ? ? IH]; simpl; by rewrite ?IH. Qed.

Lemma sort_keys_in_order (v : pyval) : decoded v -> keys_in_order (sort_keys v).
Proof.
  induction v as [| b | z | f | s | l IH | d IH] using pyval_induction;
    intros Hdec; try done.
  - cbn [sort_keys keys_in_order]. apply foldr_and_Forall, Forall_map.
    apply decoded_list in Hdec. clear -IH Hdec.
    induction IH as [| x l Hx _ IHl]; [constructor |].
    apply Forall_cons_1 in Hdec as [Hd Hl]. constructor; auto.
  - cbn [sort_keys keys_in_order]. apply decoded_dict in Hdec as [Hnd Hdec].
    split.
    + apply sorted_items_sorted. by rewrite map_fst_items.
    + apply (foldr_and_Forall (fun kv => keys_in_order kv.2)).
      rewrite sorted_items_perm. apply Forall_map. clear -IH Hdec.
      induction IH as [| x l Hx _ IHl]; [constructor |].
      apply Forall_cons_1 in Hdec as [[_ Hd] Hl]. constructor; auto.
Qed.

(** X16. The body of a JSON response lists the items of every object in the
    code point order of their keys, whatever order the file has them in:
    the value [json.loads] reads from the body, which keeps the order of
    the text, has the items of each of its dictionaries in that order. *)
Theorem data_route_body_keys_in_order rule datafile view (req : request) (w : world)
    (contents : pystr) (v : pyval) :
  data_route rule datafile view ->
  method req = GET -> path req = rule ->
  disk w !! datafile = Some (Text contents) ->
  valid_text contents ->
  json_loads contents = Returned v ->
  is_container v = true ->
  floats_read_back v ->
  exists (body : pystr) (v' : pyval),
    respond req w = Response 200 "application/json" body
    /\ json_loads body = Returned v'
    /\ keys_in_order v'.
Proof.
  intros Hr Hm Hp Hf Hvalid Hv Hc Hflt.
  pose proof (json_loads_decoded _ _ Hvalid Hv) as Hdec.
  exists (dumps v ++ [10]), (sort_keys v). split; [| split].
  - unfold respond. rewrite (run_serve_data_route _ _ _ _ _ Hr Hm Hp), Hf.
    simpl. rewrite Hv. by apply finalize_container.
  - by apply json_loads_dumps.
  - by apply sort_keys_in_order.
Qed.

End Properties.

(** * The properties on the example deployment *)

Section OnDeployment.
#[local] Existing Instance script_runtime.




Lemma float_reads_back_example (f : spec_float) :
  f = float_of_str (py "-93.25") \/ f = float_of_str (py "45.5") ->
  float_reads_back (RT := script_runtime) f.
Proof.
  intros Hf n [| c rest] Hrest.
  - destruct Hf as [-> | ->]; reflexivity.
  - destruct Hrest as [-> | [-> | [-> | ->]]];
      destruct Hf as [-> | ->]; reflexivity.
Qed.



Lemma home_serves_template_example :
  (forall req' : request,
      method req' = GET -> path req' = "/" ->
      run (serve (get "/")) example_world = run (serve req') example_world)
  /\ (forall source html : pystr,
      disk example_world !! "templates/index.html" = Some (Text source) ->
      jinja_render source = Returned html ->
      (run home example_world).1 = Returned (PStr html)
      /\ respond (get "/") example_world = Response 200 "text/html" html).
Proof.
  apply (home_serves_template (get "/") example_world); reflexivity.
Defined.

(** The points file is rewritten between two requests: the second request
    is answered from the new file. *)
Lemma data_route_reads_anew_example :
  let history :=
    [Incoming (get "/points");
     Written "static/data/features.json" (Text (json "[1, 2]"))] in
  let now := (session history example_world).2 in
  (session (history ++ [Incoming (get "/points")]) example_world).1 =
    (session history example_world).1
    ++ [finalize (load_outcome (disk now !! "static/data/features.json"))]
  /\ calls (serve (get "/points")) now =
       match disk now !! "static/data/features.json" with
       | None => [OpenFailed "static/data/features.json" FileNotFoundError]
       | Some Unreadable => [OpenFailed "static/data/features.json" PermissionError]
       | Some _ =>
           let fd := fresh (dom (descriptors now)) in
           [Opened "static/data/features.json" fd; ReadFrom fd; Closed fd]
       end
  /\ (forall f : file,
       (session (history ++ [Written "static/data/features.json" f;
                             Incoming (get "/points")]) example_world).1 =
         (session history example_world).1 ++ [finalize (load_outcome (Some f))]).
Proof.
  apply (data_route_reads_anew "/points" "static/data/features.json" points
           [Incoming (get "/points");
            Written "static/data/features.json" (Text (json "[1, 2]"))]
           (get "/points") example_world);
    [apply route_points | reflexivity | reflexivity].
Defined.

Lemma data_routes_do_not_interfere_example :
  let schedule := [true; false; false; true; true; false] in
  run_pair schedule (serve (get "/points")) (serve (get "/polygons")) example_world =
    (finalize (load_outcome (disk example_world !! "static/data/features.json")),
     finalize (load_outcome (disk example_world !! "static/data/features_poly.json")),
     example_world)
  /\ (forall (schedule' : list bool) (w' : world),
        disk w' !! "static/data/features.json"
          = disk example_world !! "static/data/features.json" ->
        (run_pair schedule' (serve (get "/points")) (serve (get "/polygons")) w').1.1
          = (run_pair schedule (serve (get "/points")) (serve (get "/polygons"))
               example_world).1.1)
  /\ (forall (schedule' : list bool) (w' : world),
        disk w' !! "static/data/features_poly.json"
          = disk example_world !! "static/data/features_poly.json" ->
        (run_pair schedule' (serve (get "/points")) (serve (get "/polygons")) w').1.2
          = (run_pair schedule (serve (get "/points")) (serve (get "/polygons"))
               example_world).1.2).
Proof.
  apply (data_routes_do_not_interfere (get "/points") (get "/polygons")
           [true; false; false; true; true; false] example_world);
    reflexivity.
Defined.

(** A points file that is not JSON: the descriptor is closed all the
    same. *)
Lemma data_view_closes_file_example :
  let w := world_with_points (json "{'type': ") in
  left_open (calls points w) = []
  /\ descriptors (run points w).2 = descriptors w
  /\ (forall (path : string) (fd : nat),
        Opened path fd ∈ calls points w -> last (calls points w) = Some (Closed fd))
  /\ ((run points w).1 = Raised JSONDecodeError ->
        exists fd, calls points w
                   = [Opened "static/data/features.json" fd; ReadFrom fd; Closed fd]).
Proof.
  apply (data_view_closes_file "/points" "static/data/features.json" points
           (world_with_points (json "{'type': "))).
  apply route_points.
Defined.

Lemma scalar_file_not_served_as_json_example :
  (respond (get "/points") (world_with_points (json "'hi'"))
     = Response 200 "text/html" (py "hi")
   /\ (forall (status : nat) (body : pystr),
         respond (get "/points") (world_with_points (json "'hi'"))
           <> Response status "application/json" body))
  /\ (respond (get "/points") (world_with_points (py "42"))
        = DefaultErrorPage 500 (Some TypeError)
      /\ (forall (status : nat) (body : pystr),
            respond (get "/points") (world_with_points (py "42"))
              <> Response status "application/json" body)).
Proof.
  split.
  - apply (scalar_file_not_served_as_json "/points" "static/data/features.json" points
             (get "/points") (world_with_points (json "'hi'")) (json "'hi'")
             (PStr (py "hi")));
      [apply route_points | reflexivity .. ].
  - apply (scalar_file_not_served_as_json "/points" "static/data/features.json" points
             (get "/points") (world_with_points (py "42")) (py "42") (PInt 42));
      [apply route_points | reflexivity .. ].
Defined.

Lemma route_reads_one_file_example :
  respond (get "/points") example_world
    = respond (get "/points") (world_with_points example_points)
  /\ (forall p, p ∈ opened_paths (calls (serve (get "/points")) example_world) ->
        p = "static/data/features.json").
Proof.
  apply (route_reads_one_file (get "/points") example_world
           (world_with_points example_points) "static/data/features.json").
  - right. left. split; reflexivity.
  - reflexivity.
Defined.

Lemma requests_do_not_interfere_example :
  run_pair [true; false; false; true; true; false]
    (serve (get "/points")) (serve (head "/points")) example_world
  = (respond (get "/points") example_world, respond (head "/points") example_world,
     example_world).
Proof.
  apply (requests_do_not_interfere (get "/points") (head "/points")
           [true; false; false; true; true; false] example_world);
    cbn [url_map map fst path get head]; set_solver.
Defined.

Lemma head_runs_data_view_example :
  calls (serve (head "/points")) example_world =
    match disk example_world !! "static/data/features.json" with
    | None => [OpenFailed "static/data/features.json" FileNotFoundError]
    | Some Unreadable => [OpenFailed "static/data/features.json" PermissionError]
    | Some _ =>
        let fd := fresh (dom (descriptors example_world)) in
        [Opened "static/data/features.json" fd; ReadFrom fd; Closed fd]
    end
  /\ respond (head "/points") example_world
     = without_body (finalize (load_outcome
         (disk example_world !! "static/data/features.json")))
  /\ (forall (contents : pystr) (v : pyval),
        disk example_world !! "static/data/features.json" = Some (Text contents) ->
        json_loads contents = Returned v -> is_container v = true ->
        respond (head "/points") example_world = Response 200 "application/json" [])
  /\ (forall e : exn,
        load_outcome (disk example_world !! "static/data/features.json") = Raised e ->
        respond (head "/points") example_world = DefaultErrorPage 500 (Some e)).
Proof.
  apply (head_runs_data_view "/points" "static/data/features.json" points
           (head "/points") example_world);
    [apply route_points | reflexivity | reflexivity].
Defined.

Lemma home_failure_example :
  let w := world_with_points example_points in
  run home w = (Raised TemplateNotFound, w)
  /\ respond (get "/") w = DefaultErrorPage 500 (Some TemplateNotFound)
  /\ calls (serve (get "/")) w = [OpenFailed "templates/index.html" FileNotFoundError]
  /\ left_open (calls (serve (get "/")) w) = [].
Proof.
  apply (home_failure (get "/") (world_with_points example_points) TemplateNotFound);
    [reflexivity | reflexivity |].
  left. split; reflexivity.
Defined.

Lemma data_file_without_document_example :
  let w := world_with_points [32; 10] in
  run points w = (Raised JSONDecodeError, w)
  /\ respond (get "/points") w = DefaultErrorPage 500 (Some JSONDecodeError).
Proof.
  apply (data_file_without_document "/points" "static/data/features.json" points
           (get "/points") (world_with_points [32; 10]) [32; 10]);
    [apply route_points | reflexivity | reflexivity | reflexivity |].
  left. repeat constructor.
Defined.

Lemma white_space_around_document_example :
  respond (get "/points") (world_with_points ([32; 10] ++ example_points ++ [10]))
    = respond (get "/points") example_world.
Proof.
  apply (white_space_around_document "/points" "static/data/features.json" points
           (get "/points") example_world
           (world_with_points ([32; 10] ++ example_points ++ [10]))
           example_points [32; 10] [10] example_points_value);
    [apply route_points | reflexivity | reflexivity | reflexivity | reflexivity
    | repeat constructor | repeat constructor | reflexivity].
Defined.

Lemma text_after_document_example :
  let w := world_with_points (example_polygons ++ example_polygons) in
  run points w = (Raised JSONDecodeError, w)
  /\ respond (get "/points") w = DefaultErrorPage 500 (Some JSONDecodeError).
Proof.
  apply (text_after_document "/points" "static/data/features.json" points
           (get "/points") (world_with_points (example_polygons ++ example_polygons))
           example_polygons example_polygons example_polygons_value);
    [apply route_points | reflexivity | reflexivity | reflexivity | reflexivity | | reflexivity].
  intros H. by apply (Forall_lookup_1 _ _ 0%nat 123) in H.
Defined.

Lemma same_value_example : same_value example_points_reordered_value example_points_value.
Proof.
  unfold example_points_reordered_value, example_points_value.
  eapply same_dict; [apply perm_swap |].
  constructor; [split; [reflexivity | constructor] |].
  constructor; [| constructor]. split; [reflexivity |].
  constructor. constructor; [| constructor].
  eapply same_dict; [apply Permutation_rev |].
  cbn [rev app]. repeat constructor.
Qed.

Lemma key_order_does_not_show_example :
  respond (get "/points") (world_with_points example_points_reordered)
    = respond (get "/points") example_world.
Proof.
  apply (key_order_does_not_show "/points" "static/data/features.json" points
           (get "/points") (world_with_points example_points_reordered) example_world
           example_points_reordered example_points
           example_points_reordered_value example_points_value).
  - apply route_points.
  - reflexivity.
  - reflexivity.
  - reflexivity.
  - reflexivity.
  - unfold valid_text. compute_done.
  - reflexivity.
  - reflexivity.
  - apply same_value_example.
Defined.

Lemma served_body_is_fixed_point_example :
  exists body : pystr,
    respond (get "/points") example_world = Response 200 "application/json" body
    /\ forall w' : world,
         disk w' !! "static/data/features.json" = Some (Text body) ->
         respond (get "/points") w' = Response 200 "application/json" body.
Proof.
  apply (served_body_is_fixed_point "/points" "static/data/features.json" points
           (get "/points") example_world example_points example_points_value).
  - apply route_points.
  - reflexivity.
  - reflexivity.
  - reflexivity.
  - unfold valid_text. compute_done.
  - reflexivity.
  - reflexivity.
  - repeat split; apply float_reads_back_example; auto.
Defined.

Lemma float_repr_example :
  float_to_repr (float_of_str (py "-93.25")) = py "-93.25"
  /\ float_to_repr (float_of_str (py "45.5")) = py "45.5".
Proof. split; reflexivity. Qed.

Lemma data_route_body_ascii_example :
  exists body : pystr,
    respond (get "/points") example_world = Response 200 "application/json" body
    /\ is_ascii body
    /\ last body = Some 10.
Proof.
  apply (data_route_body_ascii "/points" "static/data/features.json" points
           (get "/points") example_world example_points example_points_value).
  - apply route_points.
  - reflexivity.
  - reflexivity.
  - reflexivity.
  - reflexivity.
  - reflexivity.
  - destruct float_repr_example as [E1 E2].
    repeat split; unfold is_ascii; cbn [float_repr script_runtime];
      rewrite ?E1, ?E2; repeat constructor.
Defined.

Lemma debug_changes_white_space_only_example :
  respond (get "/points") example_world
    = Response 200 "application/json" (iterencode debug 0 example_points_value ++ [10])
  /\ without_ws (iterencode true 0 example_points_value ++ [10])
     = without_ws (iterencode false 0 example_points_value ++ [10])
  /\ json_loads (iterencode true 0 example_points_value ++ [10])
     = json_loads (iterencode false 0 example_points_value ++ [10]).
Proof.
  apply (debug_changes_white_space_only "/points" "static/data/features.json" points
           (get "/points") example_world example_points example_points_value).
  - apply route_points.
  - reflexivity.
  - reflexivity.
  - reflexivity.
  - unfold valid_text. compute_done.
  - reflexivity.
  - reflexivity.
  - repeat split; apply float_reads_back_example; auto.
Defined.

Lemma repeated_key_takes_last_value_example :
  exists d : list (pystr * pyval),
    scan_once 6 (123 :: 34 :: json "a': 1, 'b': 2, 'a': 3}") = Scanned (PDict d) []
    /\ NoDup (map fst d)
    /\ forall k : pystr,
         dict_get d k
         = dict_get (reverse [(py "a", PInt 1); (py "b", PInt 2); (py "a", PInt 3)]) k.
Proof.
  apply (repeated_key_takes_last_value 5 (json "a': 1, 'b': 2, 'a': 3}")
           [(py "a", PInt 1); (py "b", PInt 2); (py "a", PInt 3)] []).
  reflexivity.
Defined.

Lemma data_route_body_keys_in_order_example :
  exists (body : pystr) (v' : pyval),
    respond (get "/points") example_world = Response 200 "application/json" body
    /\ json_loads body = Returned v'
    /\ keys_in_order v'.
Proof.
  apply (data_route_body_keys_in_order "/points" "static/data/features.json" points
           (get "/points") example_world example_points example_points_value).
  - apply route_points.
  - reflexivity.
  - reflexivity.
  - reflexivity.
  - unfold valid_text. compute_done.
  - reflexivity.
  - reflexivity.
  - repeat split; apply float_reads_back_example; auto.
Defined.

End OnDeployment.
